(** * BackupManager: snapshot and retention engine

    A shallow embedding of [Code/BackupManager.py]: the archive naming,
    the archive writer [create_backup], the retention pass
    [cleanup_old_backups], and the two trigger paths
    [manual_backup_handler] and [auto_backup_scheduler].

    Python values are modelled as follows.
    - [str] is [string]; [startswith]/[endswith] are the string methods.
    - A path built by [os.path.join(dir, file)] is the pair of its
      directory and its file name; [os.path.basename] projects the name.
    - A directory is the list of its entries in [os.listdir] order.
    - [os.path.getctime] is an integer time stamp: only its order matters.
    - [print] emits a message; a run yields the messages it printed.
    - An exception raised by an operation is the [Raise] outcome of a
      state-and-exception monad over the file system; what was written
      before the raise stays written, as files do.
    - What the program reads from its surroundings during one cycle (the
      clock, the save folder, whether a system call goes through) is the
      [world] the cycle runs in. *)

From Stdlib Require Import ZArith List String Ascii Bool Lia PeanoNat.
From Stdlib Require Import Sorting.Sorted Sorting.Permutation Lists.Finite.
Import ListNotations.

Local Open Scope string_scope.
Local Open Scope list_scope.

(* ------------------------------------------------------------------ *)
(** ** Strings *)

Module PyStr.
Local Open Scope string_scope.

(** [s.startswith(p)] *)
Definition startswith (s p : string) : bool := prefix p s.

(** [s.endswith(suf)] *)
Definition endswith (s suf : string) : bool :=
  let n := String.length s in
  let m := String.length suf in
  (m <=? n)%nat && (substring (n - m) m s =? suf).

End PyStr.
Import PyStr.

(* ------------------------------------------------------------------ *)
(** ** Paths and the destination file system *)

(** [os.path.join(dir, file)]: a path is kept as the pair it was joined
    from. *)
Record path := { p_dir : string; p_name : string }.

Definition os_path_join (d f : string) : path := {| p_dir := d; p_name := f |}.
Definition os_path_basename (p : path) : string := p_name p.

Definition path_eqb (p q : path) : bool :=
  (p_dir p =? p_dir q) && (p_name p =? p_name q).

(** Compression method constants of [zipfile]. *)
Inductive compress_method := ZIP_STORED | ZIP_DEFLATED.

(** One member of a zip archive: its name in the archive, the bytes of
    the file, and the method and level it was compressed with.  A level
    of [None] is [zipfile]'s default for the method. *)
Record zip_entry := {
  ze_arcname : string;
  ze_data : string;
  ze_compress_type : compress_method;
  ze_compresslevel : option Z
}.

(** A naive local date and time, as [datetime.now()] returns it. *)
Record datetime := {
  year : Z; month : Z; day : Z;
  hour : Z; minute : Z; second : Z;
  microsecond : Z
}.

(** A zip file on disk.  [z_closed] is false for a file whose central
    directory was never written, which no reader accepts.  The comment
    is [f"Backup of {game_name} saves. Created {datetime.now()}"], kept
    as the two values it is formatted from. *)
Record zip_archive := {
  z_comment : option (string * datetime);
  z_entries : list zip_entry;
  z_closed : bool
}.

Inductive content :=
| Zip (z : zip_archive)
| Bytes (b : string).

(** A directory entry.  A locked entry makes [os.remove] raise. *)
Record entry := {
  e_name : string;
  e_ctime : Z;
  e_locked : bool;
  e_content : content
}.

(** A directory lists its entries in [os.listdir] order. *)
Definition directory := list entry.

(** The file system maps the path of a directory to its listing, [None]
    when the directory does not exist. *)
Definition filesystem := string -> option directory.

Definition fs_set (fs : filesystem) (d : string) (l : option directory)
  : filesystem :=
  fun d' => if d' =? d then l else fs d'.

(* ------------------------------------------------------------------ *)
(** ** Exceptions, messages and the monad *)

Inductive exn :=
| FileNotFoundError
| PermissionError
| IndexError
| ValueError
| OSError
| UnicodeEncodeError
| OverflowError.

(** What the program prints, one constructor per [print] of the engine. *)
Inductive message :=
| SaveFolderNotFound (source_dir : string)
| CheckThePath
| BackupFolderCreated (backup_dir : string)
| NoFilesInSaveFolder (source_dir : string)
| FailedToAddFile (file_path : path) (e : exn)
| BackupCreated (backup_filename : string)
| SizeAndFiles (files : nat)
| FailedToCreateBackup (backup_path : path)
| ErrorCreatingBackup (e : exn)
| OldBackupDeleted (old_backup : path)
| FailedToDelete (old_backup : path) (e : exn)
| OldBackupsDeleted (removed_count : Z)
| ErrorCleaningUp (e : exn)
| Banner
| Rule
| ManualTriggered
| AutomaticOnSchedule
| NextAutomaticIn (minutes : Z).

Inductive outcome (A : Type) :=
| Ret (a : A)
| Raise (e : exn).
Arguments Ret {A} a.
Arguments Raise {A} e.

(** A computation runs from a file system to an outcome, the file system
    it leaves, and the messages it printed. *)
Definition M (A : Type) : Type :=
  filesystem -> outcome A * filesystem * list message.

Definition ret {A} (a : A) : M A := fun fs => (Ret a, fs, []).

Definition bind {A B} (m : M A) (k : A -> M B) : M B :=
  fun fs =>
    match m fs with
    | (Ret a, fs', out) =>
        match k a fs' with
        | (r, fs'', out') => (r, fs'', out ++ out')
        end
    | (Raise e, fs', out) => (Raise e, fs', out)
    end.

Definition raise {A} (e : exn) : M A := fun fs => (Raise e, fs, []).

(** [try: body  except Exception as e: handler e] *)
Definition try_except {A} (body : M A) (handler : exn -> M A) : M A :=
  fun fs =>
    match body fs with
    | (Ret a, fs', out) => (Ret a, fs', out)
    | (Raise e, fs', out) =>
        match handler e fs' with
        | (r, fs'', out') => (r, fs'', out ++ out')
        end
    end.

Definition print (m : message) : M unit := fun fs => (Ret tt, fs, [m]).

Definition result_of {A} (r : outcome A * filesystem * list message)
  : outcome A := fst (fst r).
Definition fs_after {A} (r : outcome A * filesystem * list message)
  : filesystem := snd (fst r).
Definition printed {A} (r : outcome A * filesystem * list message)
  : list message := snd r.

Declare Scope py_scope.
Delimit Scope py_scope with py.
Notation "x <- c1 ;; c2" := (bind c1 (fun x => c2))
  (at level 61, c1 at next level, right associativity) : py_scope.
Notation "c1 ;; c2" := (bind c1 (fun _ => c2))
  (at level 61, right associativity) : py_scope.
Local Open Scope py_scope.

(* ------------------------------------------------------------------ *)
(** ** File system operations *)

Definition lookup (name : string) (l : directory) : option entry :=
  find (fun e => e_name e =? name) l.

Definition without (name : string) (l : directory) : directory :=
  filter (fun e => negb (e_name e =? name)) l.

(** Replace the content and time stamp of the entry called [name]. *)
Definition overwrite (name : string) (ctime : Z) (c : content)
    (l : directory) : directory :=
  map (fun e =>
         if e_name e =? name
         then {| e_name := e_name e; e_ctime := ctime;
                 e_locked := e_locked e; e_content := c |}
         else e) l.

(** [os.path.exists(p)] for a directory. *)
Definition os_path_exists_dir (d : string) : M bool :=
  fun fs => (Ret (match fs d with Some _ => true | None => false end), fs, []).

(** [os.path.exists(p)] for a file. *)
Definition os_path_exists (p : path) : M bool :=
  fun fs =>
    (Ret (match fs (p_dir p) with
          | Some l => match lookup (p_name p) l with
                      | Some _ => true
                      | None => false
                      end
          | None => false
          end), fs, []).

(** [os.listdir(dir)], each name together with the [os.path.getctime]
    of the file it names. *)
Definition os_listdir (d : string) : M (list (string * Z)) :=
  fun fs =>
    match fs d with
    | Some l => (Ret (map (fun e => (e_name e, e_ctime e)) l), fs, [])
    | None => (Raise FileNotFoundError, fs, [])
    end.

(** [os.remove(p)] *)
Definition os_remove (p : path) : M unit :=
  fun fs =>
    match fs (p_dir p) with
    | None => (Raise FileNotFoundError, fs, [])
    | Some l =>
        match lookup (p_name p) l with
        | None => (Raise FileNotFoundError, fs, [])
        | Some e =>
            if e_locked e then (Raise PermissionError, fs, [])
            else (Ret tt,
                  fs_set fs (p_dir p) (Some (without (p_name p) l)), [])
        end
    end.

(* ------------------------------------------------------------------ *)
(** ** Retention: [cleanup_old_backups] *)

(** [file.startswith(f"{game_name}_backup_") and file.endswith('.zip')] *)
Definition is_backup_file (game_name file : string) : bool :=
  startswith file (game_name ++ "_backup_")%string && endswith file ".zip".

(** The [for file in os.listdir(backup_dir)] loop building [backups]. *)
Fixpoint collect_backups (backup_dir game_name : string)
    (listing : list (string * Z)) : list (path * Z) :=
  match listing with
  | [] => []
  | (file, ctime) :: rest =>
      if is_backup_file game_name file
      then (os_path_join backup_dir file, ctime)
             :: collect_backups backup_dir game_name rest
      else collect_backups backup_dir game_name rest
  end.

(** [backups.sort(key=lambda x: x[1])].  Python's sort is stable: items
    with equal keys keep their order.  Insertion from the right places an
    item before the first item whose key is not smaller, which is after
    nothing that preceded it. *)
Fixpoint insert_by_ctime (x : path * Z) (l : list (path * Z))
  : list (path * Z) :=
  match l with
  | [] => [x]
  | y :: l' =>
      if (snd x <=? snd y)%Z then x :: y :: l'
      else y :: insert_by_ctime x l'
  end.

Fixpoint sort_by_ctime (l : list (path * Z)) : list (path * Z) :=
  match l with
  | [] => []
  | x :: l' => insert_by_ctime x (sort_by_ctime l')
  end.

(** The [while len(backups) > max_backups] loop.  Every iteration pops
    the head, so the recursion follows the list; [pop(0)] on an empty
    list raises [IndexError]. *)
Fixpoint removal_loop (max_backups : Z) (backups : list (path * Z))
    (removed_count : Z) : M Z :=
  if (Z.of_nat (List.length backups) >? max_backups)%Z then
    match backups with
    | [] => raise IndexError
    | old_backup :: backups' =>
        removed_count' <-
          try_except
            (os_remove (fst old_backup) ;;
             print (OldBackupDeleted (fst old_backup)) ;;
             ret (removed_count + 1)%Z)
            (fun e =>
               print (FailedToDelete (fst old_backup) e) ;;
               ret removed_count) ;;
        removal_loop max_backups backups' removed_count'
    end
  else ret removed_count.

Definition cleanup_old_backups (backup_dir game_name : string)
    (max_backups : Z) : M unit :=
  try_except
    (listing <- os_listdir backup_dir ;;
     let backups := collect_backups backup_dir game_name listing in
     let backups := sort_by_ctime backups in
     removed_count <- removal_loop max_backups backups 0%Z ;;
     if (removed_count >? 0)%Z
     then print (OldBackupsDeleted removed_count)
     else ret tt)
    (fun e => print (ErrorCleaningUp e)).

(** The paths the retention pass tried to delete, in the order of the
    attempts, read off what it printed. *)
Fixpoint deletion_attempts (log : list message) : list path :=
  match log with
  | [] => []
  | OldBackupDeleted p :: log' => p :: deletion_attempts log'
  | FailedToDelete p _ :: log' => p :: deletion_attempts log'
  | _ :: log' => deletion_attempts log'
  end.

(** The paths the retention pass did delete. *)
Fixpoint deletions (log : list message) : list path :=
  match log with
  | [] => []
  | OldBackupDeleted p :: log' => p :: deletions log'
  | _ :: log' => deletions log'
  end.

(* ------------------------------------------------------------------ *)
(** ** The clock and the archive name *)

(** The decimal digit of [n mod 10]. *)
Definition digit (n : Z) : ascii := ascii_of_nat (Z.to_nat (48 + n mod 10)).

(** Two and four decimal digits, zero padded. *)
Definition pad2 (n : Z) : string :=
  String (digit (n / 10)) (String (digit n) EmptyString).

Definition pad4 (n : Z) : string :=
  String (digit (n / 1000)) (String (digit (n / 100)) (pad2 n)).

(** [d.strftime("%Y%m%d_%H%M%S")] *)
Definition strftime (d : datetime) : string :=
  (pad4 (year d) ++ pad2 (month d) ++ pad2 (day d) ++ "_"
   ++ pad2 (hour d) ++ pad2 (minute d) ++ pad2 (second d))%string.

(** The field ranges of a [datetime] whose year prints as four digits. *)
Definition datetime_ok (d : datetime) : bool :=
  ((1000 <=? year d) && (year d <=? 9999)
   && (1 <=? month d) && (month d <=? 12)
   && (1 <=? day d) && (day d <=? 31)
   && (0 <=? hour d) && (hour d <? 24)
   && (0 <=? minute d) && (minute d <? 60)
   && (0 <=? second d) && (second d <? 60)
   && (0 <=? microsecond d) && (microsecond d <? 1000000))%Z.

(** The proleptic Gregorian ordinal of a date, as [datetime] computes
    it: the days before the year, the days before the month, the day. *)
Definition is_leap (y : Z) : bool :=
  ((y mod 4 =? 0) && (negb (y mod 100 =? 0) || (y mod 400 =? 0)))%Z.

Definition days_before_year (y : Z) : Z :=
  let y1 := (y - 1)%Z in
  (y1 * 365 + y1 / 4 - y1 / 100 + y1 / 400)%Z.

Definition days_before_month (y m : Z) : Z :=
  (nth (Z.to_nat m)
     [0; 0; 31; 59; 90; 120; 151; 181; 212; 243; 273; 304; 334] 0
   + (if (2 <? m) && is_leap y then 1 else 0))%Z.

Definition ymd2ord (y m d : Z) : Z :=
  (days_before_year y + days_before_month y m + d)%Z.

(** Microseconds on the time line of the naive clock. *)
Definition to_microseconds (d : datetime) : Z :=
  ((((ymd2ord (year d) (month d) (day d) * 24 + hour d) * 60
     + minute d) * 60
    + second d) * 1000000
   + microsecond d)%Z.

(** [f"{game_name}_backup_{timestamp}.zip"] *)
Definition backup_filename_of (game_name : string) (now : datetime) : string :=
  (game_name ++ "_backup_" ++ strftime now ++ ".zip")%string.

(* ------------------------------------------------------------------ *)
(** ** The surroundings of one cycle *)

(** What one run of [create_backup] meets outside the destination:
    - [w_source_exists]: [os.path.exists(source_dir)] at the first check;
    - [w_walk]: the files [os.walk(source_dir)] yields, as paths relative
      to [source_dir] (none when the folder is gone by then);
    - [w_read]: the bytes of a file when [zipf.write] reads it, [None]
      when it cannot be read any more;
    - [w_now]: [datetime.now()];
    - [w_makedirs_ok], [w_open_ok], [w_close_ok]: whether creating the
      destination, opening the archive for writing and closing it go
      through;
    - [w_ctime]: the creation time the file system gives the archive. *)
Record world := {
  w_source_exists : bool;
  w_walk : list string;
  w_read : string -> option string;
  w_now : datetime;
  w_makedirs_ok : bool;
  w_open_ok : bool;
  w_close_ok : bool;
  w_ctime : Z
}.

(** [os.makedirs(d, exist_ok=True)] *)
Definition os_makedirs (w : world) (d : string) : M unit :=
  fun fs =>
    match fs d with
    | Some _ => (Ret tt, fs, [])
    | None =>
        if w_makedirs_ok w then (Ret tt, fs_set fs d (Some []), [])
        else (Raise PermissionError, fs, [])
    end.

(* ------------------------------------------------------------------ *)
(** ** [zipfile.ZipFile] *)

(** An open [ZipFile] object: where it writes, and the defaults it gives
    the members written through it. *)
Record ZipFile := {
  zf_path : path;
  zf_compression : compress_method;
  zf_compresslevel : option Z;
  zf_comment : option (string * datetime)
}.

Definition empty_archive : zip_archive :=
  {| z_comment := None; z_entries := []; z_closed := false |}.

(** A file written under [name]: the entry of that name takes the new
    content, and a new entry is listed when there was none. *)
Definition put_file (name : string) (ctime : Z) (c : content)
    (l : directory) : directory :=
  match lookup name l with
  | Some _ => overwrite name ctime c l
  | None =>
      l ++ [{| e_name := name; e_ctime := ctime; e_locked := false;
               e_content := c |}]
  end.

(** [ZipFile(file, 'w', compression, compresslevel=compresslevel)]:
    creates the file, or empties the one that is there. *)
Definition ZipFile_open (w : world) (file : path)
    (compression : compress_method) (compresslevel : option Z) : M ZipFile :=
  fun fs =>
    match fs (p_dir file) with
    | None => (Raise FileNotFoundError, fs, [])
    | Some l =>
        if negb (w_open_ok w) then (Raise PermissionError, fs, [])
        else if match lookup (p_name file) l with
                | Some e => e_locked e
                | None => false
                end
        then (Raise PermissionError, fs, [])
        else
          (Ret {| zf_path := file; zf_compression := compression;
                  zf_compresslevel := compresslevel; zf_comment := None |},
           fs_set fs (p_dir file)
             (Some (put_file (p_name file) (w_ctime w)
                      (Zip empty_archive) l)), [])
    end.

(** Apply [f] to the archive stored at [p]. *)
Definition update_archive (p : path) (f : zip_archive -> zip_archive)
  : M unit :=
  fun fs =>
    match fs (p_dir p) with
    | None => (Raise FileNotFoundError, fs, [])
    | Some l =>
        match lookup (p_name p) l with
        | Some {| e_content := Zip z; e_ctime := t |} =>
            (Ret tt,
             fs_set fs (p_dir p)
               (Some (overwrite (p_name p) t (Zip (f z)) l)), [])
        | _ => (Raise FileNotFoundError, fs, [])
        end
    end.

(** [zipf.write(filename, arcname, compress_type=..., compresslevel=...)]:
    a member takes the method and the level it is given, and the
    [ZipFile]'s own where it is given [None]. *)
Definition ZipFile_write (w : world) (zipf : ZipFile) (filename : path)
    (arcname : string) (compress_type : option compress_method)
    (compresslevel : option Z) : M unit :=
  match w_read w (p_name filename) with
  | None => raise FileNotFoundError
  | Some data =>
      update_archive (zf_path zipf)
        (fun z =>
           {| z_comment := z_comment z;
              z_entries :=
                z_entries z
                ++ [{| ze_arcname := arcname;
                       ze_data := data;
                       ze_compress_type :=
                         match compress_type with
                         | Some c => c
                         | None => zf_compression zipf
                         end;
                       ze_compresslevel :=
                         match compresslevel with
                         | Some lv => Some lv
                         | None => zf_compresslevel zipf
                         end |}];
              z_closed := z_closed z |})
  end.

(** [zipf.close()]: writes the central directory and the comment. *)
Definition ZipFile_close (w : world) (zipf : ZipFile) : M unit :=
  if w_close_ok w then
    update_archive (zf_path zipf)
      (fun z => {| z_comment := zf_comment zipf;
                   z_entries := z_entries z;
                   z_closed := true |})
  else raise OSError.

(** [with opened as zipf: body]: the archive is closed on the way out,
    also when the body raised.  The body hands back the object as it
    left it, since it may have assigned to its attributes. *)
Definition with_ZipFile {A} (w : world) (opened : M ZipFile)
    (body : ZipFile -> M (ZipFile * A)) : M A :=
  zipf <- opened ;;
  fun fs =>
    match body zipf fs with
    | (Ret (zipf', a), fs', out) =>
        match ZipFile_close w zipf' fs' with
        | (Ret _, fs'', out') => (Ret a, fs'', out ++ out')
        | (Raise e, fs'', out') => (Raise e, fs'', out ++ out')
        end
    | (Raise e, fs', out) =>
        match ZipFile_close w zipf fs' with
        | (Ret _, fs'', out') => (Raise e, fs'', out ++ out')
        | (Raise e', fs'', out') => (Raise e', fs'', out ++ out')
        end
    end.

(* ------------------------------------------------------------------ *)
(** ** The archive writer: [create_backup] *)

(** [os.path.relpath(file_path, source_dir)] for a file found under
    [source_dir]. *)
Definition os_path_relpath (file_path : path) (source_dir : string) : string :=
  p_name file_path.

(** [zipf.comment = ...] *)
Definition set_comment (zipf : ZipFile) (c : string * datetime) : ZipFile :=
  {| zf_path := zf_path zipf; zf_compression := zf_compression zipf;
     zf_compresslevel := zf_compresslevel zipf; zf_comment := Some c |}.

(** [min(max(compress_level, 0), 9)] *)
Definition clamp_level (compress_level : Z) : Z :=
  Z.min (Z.max compress_level 0) 9.

(** The [for file_path in files_to_backup] loop of the [with] block. *)
Fixpoint add_files (w : world) (zipf : ZipFile) (source_dir : string)
    (files_to_backup : list path) : M unit :=
  match files_to_backup with
  | [] => ret tt
  | file_path :: rest =>
      try_except
        (let arcname := os_path_relpath file_path source_dir in
         ZipFile_write w zipf file_path arcname None None)
        (fun e => print (FailedToAddFile file_path e)) ;;
      add_files w zipf source_dir rest
  end.

(** Lines 167-199 of [create_backup]: name the archive, write it, check
    that it is there, and run the retention pass. *)
Definition write_and_clean (w : world)
    (source_dir backup_dir game_name : string)
    (max_backups compress_level : Z) (files_to_backup : list path) : M bool :=
  let timestamp := strftime (w_now w) in
  let backup_filename :=
    (game_name ++ "_backup_" ++ timestamp ++ ".zip")%string in
  let backup_path := os_path_join backup_dir backup_filename in
  let compression := ZIP_DEFLATED in
  let compress_level := clamp_level compress_level in
  with_ZipFile w (ZipFile_open w backup_path compression None)
    (fun zipf =>
       let zipf := set_comment zipf (game_name, w_now w) in
       add_files w zipf source_dir files_to_backup ;;
       ret (zipf, tt)) ;;
  written <- os_path_exists backup_path ;;
  if written then
    print (BackupCreated backup_filename) ;;
    print (SizeAndFiles (List.length files_to_backup)) ;;
    cleanup_old_backups backup_dir game_name max_backups ;;
    ret true
  else
    print (FailedToCreateBackup backup_path) ;;
    ret false.

Definition create_backup (w : world)
    (source_dir backup_dir game_name : string)
    (max_backups compress_level : Z) : M bool :=
  try_except
    (if negb (w_source_exists w) then
       print (SaveFolderNotFound source_dir) ;;
       print CheckThePath ;;
       ret false
     else
       dest_exists <- os_path_exists_dir backup_dir ;;
       (if negb dest_exists
        then os_makedirs w backup_dir ;;
             print (BackupFolderCreated backup_dir)
        else ret tt) ;;
       let files_to_backup := map (os_path_join source_dir) (w_walk w) in
       if match files_to_backup with [] => true | _ :: _ => false end then
         print (NoFilesInSaveFolder source_dir) ;;
         ret false
       else
         write_and_clean w source_dir backup_dir game_name
           max_backups compress_level files_to_backup)
    (fun e => print (ErrorCreatingBackup e) ;; ret false).

(* ------------------------------------------------------------------ *)
(** ** The trigger paths *)

Definition backup_function : Type :=
  world -> string -> string -> string -> Z -> Z -> M bool.

(** [manual_backup_handler(...)] returns the closure [handler]; [w] is
    what the handler meets when the key is pressed.  [backup_interval]
    is the module-level global the handler prints. *)
Definition manual_backup_handler (backup_interval : Z)
    (backup_func : backup_function)
    (source_dir backup_dir game_name : string)
    (max_backups compress_level : Z) : world -> M unit :=
  fun w =>
    print Banner ;;
    print ManualTriggered ;;
    print Banner ;;
    backup_func w source_dir backup_dir game_name max_backups compress_level ;;
    print (NextAutomaticIn backup_interval) ;;
    print Rule.

(** [time.sleep(secs)] raises for a negative length.  The time slept
    shows in the [world] of the next turn. *)
Definition time_sleep (secs : Z) : M unit :=
  if (secs <? 0)%Z then raise ValueError else ret tt.

(** One turn of the [while True] loop of the scheduler. *)
Definition scheduler_turn (backup_func : backup_function)
    (source_dir backup_dir game_name : string)
    (max_backups interval_minutes compress_level : Z) (w : world) : M unit :=
  let interval := (interval_minutes * 60)%Z in
  print (NextAutomaticIn interval_minutes) ;;
  time_sleep interval ;;
  print Banner ;;
  print AutomaticOnSchedule ;;
  print Banner ;;
  backup_func w source_dir backup_dir game_name max_backups compress_level ;;
  ret tt.

(** The scheduler loop, run for as many turns as there are wake-ups.
    An exception leaving [time.sleep] or the backup function leaves the
    loop. *)
Fixpoint auto_backup_scheduler (backup_func : backup_function)
    (source_dir backup_dir game_name : string)
    (max_backups interval_minutes compress_level : Z)
    (wakeups : list world) : M unit :=
  match wakeups with
  | [] => ret tt
  | w :: rest =>
      scheduler_turn backup_func source_dir backup_dir game_name
        max_backups interval_minutes compress_level w ;;
      auto_backup_scheduler backup_func source_dir backup_dir game_name
        max_backups interval_minutes compress_level rest
  end.

(** The settings as [main] reads them. *)
Record settings := {
  SAVE_DIR : string;
  BACKUP_DIR : string;
  GAME_NAME : string;
  MAX_BACKUPS : Z;
  BACKUP_INTERVAL : Z;
  COMPRESS_LEVEL : Z
}.

(** The handler [main] binds to F5. *)
Definition f5_hotkey (st : settings) : world -> M unit :=
  manual_backup_handler (BACKUP_INTERVAL st) create_backup
    (SAVE_DIR st) (BACKUP_DIR st) (GAME_NAME st)
    (MAX_BACKUPS st) (COMPRESS_LEVEL st).

(** The target of the scheduler thread [main] starts. *)
Definition scheduler_thread (st : settings) : list world -> M unit :=
  auto_backup_scheduler create_backup
    (SAVE_DIR st) (BACKUP_DIR st) (GAME_NAME st)
    (MAX_BACKUPS st) (BACKUP_INTERVAL st) (COMPRESS_LEVEL st).

(** How many scheduled cycles a run announced. *)
Fixpoint scheduled_cycles (log : list message) : nat :=
  match log with
  | [] => 0
  | AutomaticOnSchedule :: log' => S (scheduled_cycles log')
  | _ :: log' => scheduled_cycles log'
  end.

(* ------------------------------------------------------------------ *)
(** ** The threads of [main]

    [main] runs the initial backup on the main thread, the scheduler on
    a thread of its own, and the F5 handler on the thread of the keyboard
    hook.  A thread is either waiting or inside the backup function. *)

Module Threads.

Inductive thread := MainThread | SchedulerThread | HotkeyThread.

Inductive activity := Waiting | InCycle.

Record system := {
  main_thread : activity;
  scheduler : activity;
  hotkey : activity
}.

Definition activity_of (s : system) (t : thread) : activity :=
  match t with
  | MainThread => main_thread s
  | SchedulerThread => scheduler s
  | HotkeyThread => hotkey s
  end.

Definition set_activity (s : system) (t : thread) (a : activity) : system :=
  match t with
  | MainThread =>
      {| main_thread := a; scheduler := scheduler s; hotkey := hotkey s |}
  | SchedulerThread =>
      {| main_thread := main_thread s; scheduler := a; hotkey := hotkey s |}
  | HotkeyThread =>
      {| main_thread := main_thread s; scheduler := scheduler s; hotkey := a |}
  end.

(** A trigger reaches a thread (start-up for the main thread, the end of
    a sleep for the scheduler, F5 for the keyboard hook), or the backup
    function returns on it. *)
Inductive event :=
| Trigger (t : thread)
| Returns (t : thread).

(** On a trigger the thread calls the backup function, whatever the
    other threads are doing: neither [handler] nor the scheduler loop
    reads any shared flag.  A thread inside the backup function takes no
    trigger until the function returns. *)
Definition step (s : system) (ev : event) : option system :=
  match ev with
  | Trigger t =>
      match activity_of s t with
      | Waiting => Some (set_activity s t InCycle)
      | InCycle => None
      end
  | Returns t =>
      match activity_of s t with
      | InCycle => Some (set_activity s t Waiting)
      | Waiting => None
      end
  end.

Fixpoint run (s : system) (evs : list event) : option system :=
  match evs with
  | [] => Some s
  | ev :: rest =>
      match step s ev with
      | Some s' => run s' rest
      | None => None
      end
  end.

Definition in_cycle (a : activity) : nat :=
  match a with InCycle => 1 | Waiting => 0 end.

(** How many backup cycles are executing. *)
Definition running (s : system) : nat :=
  in_cycle (main_thread s) + in_cycle (scheduler s) + in_cycle (hotkey s).

Definition idle : system :=
  {| main_thread := Waiting; scheduler := Waiting; hotkey := Waiting |}.

End Threads.

(* ------------------------------------------------------------------ *)
(** ** Views of a directory used in the statements *)

Definition listing_of (l : directory) : list (string * Z) :=
  map (fun e => (e_name e, e_ctime e)) l.

(** The entries of a directory that the retention pass takes for
    backups of [game_name]. *)
Definition matching (game_name : string) (l : directory) : directory :=
  filter (fun e => is_backup_file game_name (e_name e)) l.

(** [backups] as it stands after the sort. *)
Definition sorted_backups (backup_dir game_name : string) (l : directory)
  : list (path * Z) :=
  sort_by_ctime (collect_backups backup_dir game_name (listing_of l)).

(** How many backups exceed the cap. *)
Definition excess (game_name : string) (l : directory) (keep : Z) : nat :=
  Z.to_nat (Z.max 0 (Z.of_nat (List.length (matching game_name l)) - keep)).

(** The backups popped by the loop: the head of the sorted list. *)
Definition selected (backup_dir game_name : string) (l : directory)
    (keep : Z) : list (path * Z) :=
  firstn (excess game_name l keep) (sorted_backups backup_dir game_name l).

Definition retained (backup_dir game_name : string) (l : directory)
    (keep : Z) : list (path * Z) :=
  skipn (excess game_name l keep) (sorted_backups backup_dir game_name l).

(** Whether the file of entry [e] of directory [d] is among [ps]. *)
Definition listed_in (d : string) (ps : list path) (e : entry) : bool :=
  existsb (path_eqb (os_path_join d (e_name e))) ps.

(** A directory with the files among [ps] taken out. *)
Definition minus (d : string) (ps : list path) (l : directory) : directory :=
  filter (fun e => negb (listed_in d ps e)) l.

Definition older_or_equal (a b : path * Z) : Prop := (snd a <= snd b)%Z.

(** An archive that was written out in full and holds nothing locked. *)
Definition snapshot (name : string) (ctime : Z) : entry :=
  {| e_name := name; e_ctime := ctime; e_locked := false;
     e_content := Zip {| z_comment := None; z_entries := [];
                         z_closed := true |} |}.

(** A file system with the one directory [d] holding [l]. *)
Definition only_dir (d : string) (l : directory) : filesystem :=
  fun d' => if d' =? d then Some l else None.

(** The destination of the retention scenario: three snapshots of "TLD"
    stamped [T1], [T2], [T3] and the one just written, stamped [T4], in
    some listing order. *)
Definition tld_dir (T1 T2 T3 T4 : Z) : directory :=
  [ snapshot "TLD_backup_20240103_120000.zip" T3;
    snapshot "TLD_backup_20240101_120000.zip" T1;
    snapshot "TLD_backup_20240104_120000.zip" T4;
    snapshot "TLD_backup_20240102_120000.zip" T2 ].

(** The same destination before the cycle that writes the fourth
    snapshot, with its three snapshots stamped 10, 20 and 30. *)
Definition tld_dir_before : directory :=
  [ snapshot "TLD_backup_20240103_120000.zip" 30;
    snapshot "TLD_backup_20240101_120000.zip" 10;
    snapshot "TLD_backup_20240102_120000.zip" 20 ].

(** Two snapshots of "TLD" with one and the same creation time, the
    later name listed first. *)
Definition tie_dir : directory :=
  [ snapshot "TLD_backup_20240101_120001.zip" 5;
    snapshot "TLD_backup_20240101_120000.zip" 5 ].

(** A destination shared with another label and with a stray archive. *)
Definition shared_dir : directory :=
  [ snapshot "TLD_backup_old_backup_20240101_000000.zip" 1;
    snapshot "TLD_backup_notes.zip" 2;
    snapshot "TLD_backup_20240101_120000.zip" 3 ].

(* ------------------------------------------------------------------ *)
(** ** The specification's wording, for comparison *)

Module Spec.

(** Retention order as the specification words it: creation time
    ascending, and for equal times file name in lexical order. *)
Definition time_then_name (a b : path * Z) : Prop :=
  (snd a < snd b)%Z \/
  (snd a = snd b /\ String.leb (p_name (fst a)) (p_name (fst b)) = true).

Definition is_digit (c : ascii) : bool :=
  (48 <=? nat_of_ascii c)%nat && (nat_of_ascii c <=? 57)%nat.

(** [YYYYMMDD_HHMMSS] *)
Definition is_timestamp (cs : list ascii) : bool :=
  (List.length cs =? 15)%nat
  && forallb is_digit (firstn 8 cs)
  && match nth_error cs 8 with
     | Some c => (c =? "_")%char
     | None => false
     end
  && forallb is_digit (skipn 9 cs).

Fixpoint strip_prefix (p s : string) : option string :=
  match p with
  | EmptyString => Some s
  | String c p' =>
      match s with
      | EmptyString => None
      | String d s' => if (c =? d)%char then strip_prefix p' s' else None
      end
  end.

(** The naming convention as the specification words it:
    [<label>_backup_<YYYYMMDD_HHMMSS>.zip]. *)
Definition follows_convention (label name : string) : bool :=
  match strip_prefix (label ++ "_backup_")%string name with
  | Some rest =>
      let cs := list_ascii_of_string rest in
      is_timestamp (firstn 15 cs)
      && (string_of_list_ascii (skipn 15 cs) =? ".zip")
  | None => false
  end.

End Spec.

(* ------------------------------------------------------------------ *)
(** ** Views of a cycle used in the statements *)

(** The destination as the cycle finds it: the listing, or nothing when
    the directory is not there yet. *)
Definition found (backup_dir : string) (fs : filesystem) : directory :=
  match fs backup_dir with
  | Some l => l
  | None => []
  end.

(** What [print] reports of the destination check. *)
Definition found_messages (backup_dir : string) (fs : filesystem)
  : list message :=
  match fs backup_dir with
  | Some _ => []
  | None => [BackupFolderCreated backup_dir]
  end.

(** The destination can be written into: it is there, or it can be
    created. *)
Definition dest_ready (w : world) (backup_dir : string) (fs : filesystem)
  : bool :=
  match fs backup_dir with
  | Some _ => true
  | None => w_makedirs_ok w
  end.

(** The file of the archive name is not locked in the destination. *)
Definition target_free (name : string) (l : directory) : bool :=
  match lookup name l with
  | Some e => negb (e_locked e)
  | None => true
  end.

(** The member [zipf.write] adds for a file, if it can read it. *)
Definition member_of (w : world) (zipf : ZipFile) (file_path : path)
  : list zip_entry :=
  match w_read w (p_name file_path) with
  | Some data =>
      [{| ze_arcname := p_name file_path; ze_data := data;
          ze_compress_type := zf_compression zipf;
          ze_compresslevel := zf_compresslevel zipf |}]
  | None => []
  end.

Definition failure_of (w : world) (file_path : path) : list message :=
  match w_read w (p_name file_path) with
  | Some _ => []
  | None => [FailedToAddFile file_path FileNotFoundError]
  end.

(** The object [ZipFile(backup_path, 'w', compression)] of a cycle. *)
Definition zipf_of (backup_path : path) : ZipFile :=
  {| zf_path := backup_path; zf_compression := ZIP_DEFLATED;
     zf_compresslevel := None; zf_comment := None |}.

(** The archive a cycle leaves when every step goes through. *)
Definition archive_of (w : world) (source_dir backup_dir game_name : string)
  : zip_archive :=
  {| z_comment := Some (game_name, w_now w);
     z_entries :=
       flat_map
         (member_of w
            (zipf_of (os_path_join backup_dir
                        (backup_filename_of game_name (w_now w)))))
         (map (os_path_join source_dir) (w_walk w));
     z_closed := true |}.

(** The members of the archive stored under [name], if there is one. *)
Definition members_at (name : string) (l : directory) : list zip_entry :=
  match lookup name l with
  | Some {| e_content := Zip z |} => z_entries z
  | _ => []
  end.

(** A directory of [fs'] holds [l'] and all others are as in [fs]. *)
Definition differs_at (d : string) (l' : directory) (fs fs' : filesystem)
  : Prop :=
  fs' d = Some l' /\ forall d', d' <> d -> fs' d' = fs d'.


(** An archive with further members. *)
Definition with_entries (z : zip_archive) (es : list zip_entry) : zip_archive :=
  {| z_comment := z_comment z; z_entries := z_entries z ++ es;
     z_closed := z_closed z |}.


(** The file system once the destination check has gone through. *)
Definition ensured (backup_dir : string) (fs : filesystem) : filesystem :=
  match fs backup_dir with
  | Some _ => fs
  | None => fs_set fs backup_dir (Some [])
  end.

(** The archive a cycle leaves when closing it fails: the members are in
    the file, the central directory is not. *)
Definition partial_archive_of (w : world)
    (source_dir backup_dir game_name : string) : zip_archive :=
  {| z_comment := None;
     z_entries := z_entries (archive_of w source_dir backup_dir game_name);
     z_closed := false |}.

(* ------------------------------------------------------------------ *)
(** ** Concrete surroundings used in the examples *)

(** 5 January 2024, 12:00:07 and [us] microseconds. *)
Definition at_noon (us : Z) : datetime :=
  {| year := 2024; month := 1; day := 5;
     hour := 12; minute := 0; second := 7; microsecond := us |}.

(** A save folder holding the one file "save.dat" with the bytes
    [data], and system calls that go through. *)
Definition saves_world (data : string) (now : datetime) (ctime : Z) : world :=
  {| w_source_exists := true;
     w_walk := ["save.dat"];
     w_read := fun n => if n =? "save.dat" then Some data else None;
     w_now := now;
     w_makedirs_ok := true;
     w_open_ok := true;
     w_close_ok := true;
     w_ctime := ctime |}.

(** The same, with the archive failing to close (a full disk). *)
Definition full_disk_world : world :=
  {| w_source_exists := true;
     w_walk := ["save.dat"];
     w_read := fun n => if n =? "save.dat" then Some "data" else None;
     w_now := at_noon 0;
     w_makedirs_ok := true;
     w_open_ok := true;
     w_close_ok := false;
     w_ctime := 100 |}.

(** A save folder that is there for the check and for [os.walk], and
    gone when the files are read. *)
Definition vanishing_world : world :=
  {| w_source_exists := true;
     w_walk := ["save.dat"];
     w_read := fun _ => None;
     w_now := at_noon 0;
     w_makedirs_ok := true;
     w_open_ok := true;
     w_close_ok := true;
     w_ctime := 100 |}.

(** A save folder that is there and holds no file. *)
Definition empty_world : world :=
  {| w_source_exists := true;
     w_walk := [];
     w_read := fun _ => None;
     w_now := at_noon 0;
     w_makedirs_ok := true;
     w_open_ok := true;
     w_close_ok := true;
     w_ctime := 100 |}.

(** A file system with no directory at all. *)
Definition no_fs : filesystem := fun _ => None.

(** Whether the file stored under [name] is a complete archive. *)
Definition complete_at (name : string) (l : directory) : bool :=
  match lookup name l with
  | Some {| e_content := Zip z |} => z_closed z
  | _ => false
  end.

(** [fs'] holds the files of [fs], no more and no fewer. *)
Definition keeps_files (fs fs' : filesystem) : Prop :=
  forall d, found d fs' = found d fs.

(** Two cycles started within one second, the second on what the first
    left: the save file reads "first", then "second". *)
Definition first_cycle : outcome bool * filesystem * list message :=
  create_backup (saves_world "first" (at_noon 250000) 100)
    "saves" "backups" "TLD" 50 6 no_fs.

Definition second_cycle : outcome bool * filesystem * list message :=
  create_backup (saves_world "second" (at_noon 750000) 101)
    "saves" "backups" "TLD" 50 6 (fs_after first_cycle).

(** The file system after one cycle for each wake-up, in turn. *)
Definition after_cycles (st : settings) (wakeups : list world)
    (fs : filesystem) : filesystem :=
  fold_left
    (fun f w =>
       fs_after (create_backup w (SAVE_DIR st) (BACKUP_DIR st) (GAME_NAME st)
                   (MAX_BACKUPS st) (COMPRESS_LEVEL st) f))
    wakeups fs.

(** Every step of a cycle goes through. *)
Definition all_goes_through (w : world) (backup_dir game_name : string)
    (fs : filesystem) : bool :=
  w_source_exists w
  && dest_ready w backup_dir fs
  && negb (match w_walk w with [] => true | _ :: _ => false end)
  && w_open_ok w
  && target_free (backup_filename_of game_name (w_now w)) (found backup_dir fs)
  && w_close_ok w.

(* ------------------------------------------------------------------ *)
(** ** Further views of the retention pass *)

(** Whether [os.remove(p)] goes through in the directory [l]: the file
    is there and not locked. *)
Definition removable (l : directory) (p : path) : bool :=
  match lookup (p_name p) l with
  | Some e => negb (e_locked e)
  | None => false
  end.

(** The path and creation time the retention pass records for an
    entry of [backup_dir]. *)
Definition stamped (backup_dir : string) (e : entry) : path * Z :=
  (os_path_join backup_dir (e_name e), e_ctime e).

(** The summary line of the retention pass for [n] deleted files. *)
Definition summary (n : nat) : list message :=
  match n with
  | O => []
  | S _ => [OldBackupsDeleted (Z.of_nat n)]
  end.

(** The failure lines among what the loop printed. *)
Fixpoint failed_deletions (log : list message) : list path :=
  match log with
  | [] => []
  | FailedToDelete p _ :: log' => p :: failed_deletions log'
  | _ :: log' => failed_deletions log'
  end.

(** The line the loop prints for the file [p] of the directory [l]. *)
Definition line_for (l : directory) (p : path) : message :=
  if removable l p then OldBackupDeleted p
  else FailedToDelete p PermissionError.

(** Three snapshots of "TLD", the oldest of them locked. *)
Definition locked_dir : directory :=
  [ {| e_name := "TLD_backup_20240101_120000.zip"; e_ctime := 10;
       e_locked := true;
       e_content := Zip {| z_comment := None; z_entries := [];
                           z_closed := true |} |};
    snapshot "TLD_backup_20240102_120000.zip" 20;
    snapshot "TLD_backup_20240103_120000.zip" 30 ].

(** What the retention pass prints after the loop, given how the loop
    ended: the count of deleted files when there were any, or the error. *)
Definition closing_lines (r : outcome Z) : list message :=
  match r with
  | Ret removed_count =>
      if (removed_count >? 0)%Z then [OldBackupsDeleted removed_count] else []
  | Raise e => [ErrorCleaningUp e]
  end.

(* ------------------------------------------------------------------ *)
(** ** Further views of a cycle *)

(** A save folder that is not there. *)
Definition missing_world : world :=
  {| w_source_exists := false;
     w_walk := [];
     w_read := fun _ => None;
     w_now := at_noon 0;
     w_makedirs_ok := true;
     w_open_ok := true;
     w_close_ok := true;
     w_ctime := 100 |}.

(* ------------------------------------------------------------------ *)
(** ** The order of archive names *)

(** Lexicographic combination of two comparisons. *)
Definition then_by (c1 c2 : comparison) : comparison :=
  match c1 with
  | Eq => c2
  | _ => c1
  end.

(** The order of two readings of the clock, down to the second. *)
Definition clock_compare (d1 d2 : datetime) : comparison :=
  then_by (year d1 ?= year d2)%Z
    (then_by (month d1 ?= month d2)%Z
       (then_by (day d1 ?= day d2)%Z
          (then_by (hour d1 ?= hour d2)%Z
             (then_by (minute d1 ?= minute d2)%Z
                (second d1 ?= second d2)%Z)))).

(* ------------------------------------------------------------------ *)
(** ** The settings file *)

(** [load_settings] goes through [configparser.ConfigParser].  The
    parser is modelled by what it holds after [config.read]: the
    options of the [DEFAULT] section and, per section, its options,
    each a dict in insertion order.  Reading and writing the text of
    the file are left out; a config is whatever the parser made of the
    file. *)
Module Config.
Local Open Scope list_scope.
Local Open Scope string_scope.

(** The exceptions met between lines 113 and 137. *)
Inductive error : Type :=
| ValueError
| DuplicateSectionError
| NoSectionError
| NoOptionError
| InterpolationSyntaxError
| InterpolationMissingOptionError
| InterpolationDepthError
| OSError.

Inductive result (A : Type) : Type :=
| Ok (a : A)
| Error (e : error).
Arguments Ok {A} a.
Arguments Error {A} e.

Definition and_then {A B} (r : result A) (k : A -> result B) : result B :=
  match r with
  | Ok a => k a
  | Error e => Error e
  end.

Declare Scope cfg_scope.
Delimit Scope cfg_scope with cfg.
Notation "x <- c1 ;; c2" := (and_then c1 (fun x => c2))
  (at level 61, c1 at next level, right associativity) : cfg_scope.
Local Open Scope cfg_scope.

(** *** Python dicts with string keys *)

Definition dict (V : Type) : Type := list (string * V).

(** [d[k]], [None] standing for [KeyError]. *)
Fixpoint item {V} (k : string) (d : dict V) : option V :=
  match d with
  | [] => None
  | (k', v) :: d' => if k' =? k then Some v else item k d'
  end.

(** [k in d] *)
Definition contains {V} (k : string) (d : dict V) : bool :=
  match item k d with
  | Some _ => true
  | None => false
  end.

(** [d[k] = v]: a key that is there keeps its place. *)
Fixpoint setitem {V} (k : string) (v : V) (d : dict V) : dict V :=
  match d with
  | [] => [(k, v)]
  | (k', v') :: d' =>
      if k' =? k then (k', v) :: d' else (k', v') :: setitem k v d'
  end.

(** *** Strings *)

(** ['%' in s] *)
Fixpoint has_percent (s : string) : bool :=
  match s with
  | "" => false
  | String a s' => Ascii.eqb a "%" || has_percent s'
  end.

(** [s.replace('%%', '')] *)
Fixpoint replace_escapes (s : string) : string :=
  match s with
  | "" => ""
  | String a s' =>
      if Ascii.eqb a "%" then
        match s' with
        | String b s'' =>
            if Ascii.eqb b "%" then replace_escapes s''
            else String a (replace_escapes s')
        | "" => String a ""
        end
      else String a (replace_escapes s')
  end.

(** The longest run of characters other than [")"] at the head of [s],
    and what follows the [")"] that ends it; [None] when no [")"]
    follows. *)
Fixpoint until_paren (s : string) : option (string * string) :=
  match s with
  | "" => None
  | String a s' =>
      if Ascii.eqb a ")" then Some ("", s')
      else match until_paren s' with
           | Some (run, rest) => Some (String a run, rest)
           | None => None
           end
  end.

(** [_KEYCRE.match(s)] for [_KEYCRE = re.compile(r"%\(([^)]+)\)s")]:
    group 1 and [s[m.end():]]. *)
Definition KEYCRE_match (s : string) : option (string * string) :=
  match s with
  | String a (String b s') =>
      if Ascii.eqb a "%" && Ascii.eqb b "(" then
        match until_paren s' with
        | Some (String c group1, String d rest) =>
            if Ascii.eqb d "s" then Some (String c group1, rest) else None
        | _ => None
        end
      else None
  | _ => None
  end.

(** [_KEYCRE.sub('', s)]: the matches are dropped from left to right;
    [fuel] bounds the characters still to scan. *)
Fixpoint KEYCRE_sub_from (fuel : nat) (s : string) : string :=
  match fuel with
  | O => s
  | S fuel' =>
      match KEYCRE_match s with
      | Some (_, rest) => KEYCRE_sub_from fuel' rest
      | None =>
          match s with
          | "" => ""
          | String a s' => String a (KEYCRE_sub_from fuel' s')
          end
      end
  end.

Definition KEYCRE_sub (s : string) : string :=
  KEYCRE_sub_from (String.length s) s.

(** [(s[:p], s[p:])] for [p = s.find("%")], [None] when [p < 0]. *)
Fixpoint split_percent (s : string) : option (string * string) :=
  match s with
  | "" => None
  | String a s' =>
      if Ascii.eqb a "%" then Some ("", s)
      else match split_percent s' with
           | Some (before, rest) => Some (String a before, rest)
           | None => None
           end
  end.

Definition among (chars : list ascii) (a : ascii) : bool :=
  existsb (Ascii.eqb a) chars.

Fixpoint lstrip (chars : list ascii) (s : string) : string :=
  match s with
  | "" => ""
  | String a s' => if among chars a then lstrip chars s' else s
  end.

Fixpoint rstrip (chars : list ascii) (s : string) : string :=
  match s with
  | "" => ""
  | String a s' =>
      match rstrip chars s' with
      | "" => if among chars a then "" else String a ""
      | kept => String a kept
      end
  end.

(** [s.strip(chars)] *)
Definition strip (chars : list ascii) (s : string) : string :=
  rstrip chars (lstrip chars s).

(** The characters [strip] is called with at lines 125 and 126: double
    quote, single quote, space. *)
Definition quotes_and_space : list ascii :=
  [ascii_of_nat 34; "'"%char; " "%char].

(** Whether the first ["%"] of [s] is followed by neither ["%"] nor
    ["("]. *)
Definition bare_percent (s : string) : bool :=
  match split_percent s with
  | Some (_, String _ (String c _)) =>
      negb (Ascii.eqb c "%") && negb (Ascii.eqb c "(")
  | Some _ => true
  | None => false
  end.

(** *** The parser *)

Record ConfigParser : Type := {
  defaults : dict string;
  sections : dict (dict string)
}.

Definition default_section : string := "DEFAULT".

Definition MAX_INTERPOLATION_DEPTH : nat := 10.

(** [BasicInterpolation.before_set] *)
Definition before_set (value : string) : result string :=
  let tmp_value := replace_escapes value in
  let tmp_value := KEYCRE_sub tmp_value in
  if has_percent tmp_value then Error ValueError else Ok value.

(** Whether [config.set] takes [value]: the empty string is not
    looked at. *)
Definition accepted (value : string) : bool :=
  if value =? "" then true
  else match before_set value with
       | Ok _ => true
       | Error _ => false
       end.

Definition has_section (self : ConfigParser) (section : string) : bool :=
  contains section (sections self).

Definition add_section (self : ConfigParser) (section : string)
  : result ConfigParser :=
  if section =? default_section then Error ValueError
  else if contains section (sections self) then Error DuplicateSectionError
  else Ok {| defaults := defaults self;
             sections := setitem section [] (sections self) |}.

(** A section name that stands for a section of its own: neither empty
    nor [DEFAULT]. *)
Definition proper (section : string) : Prop :=
  (section =? "") || (section =? default_section) = false.

(** Whether a table has an entry for the section. *)
Definition named (items : dict (dict string)) (section : string) : bool :=
  existsb (fun it => fst it =? section) items.

Section Parser.

(** [str.lower] unless overridden; the names are transformed on the way
    in and on the way out. *)
Variable optionxform : string -> string.

Definition has_option (self : ConfigParser) (section opt : string) : bool :=
  if (section =? "") || (section =? default_section) then
    contains (optionxform opt) (defaults self)
  else
    match item section (sections self) with
    | None => false
    | Some sectdict =>
        contains (optionxform opt) sectdict
        || contains (optionxform opt) (defaults self)
    end.

Definition set (self : ConfigParser) (section opt value : string)
  : result ConfigParser :=
  value <- (if value =? "" then Ok value else before_set value) ;;
  if (section =? "") || (section =? default_section) then
    Ok {| defaults := setitem (optionxform opt) value (defaults self);
          sections := sections self |}
  else
    match item section (sections self) with
    | None => Error NoSectionError
    | Some sectdict =>
        Ok {| defaults := defaults self;
              sections :=
                setitem section (setitem (optionxform opt) value sectdict)
                  (sections self) |}
    end.

(** [_unify_values(section, None)]: the section's options, then the
    defaults. *)
Definition unify_values (self : ConfigParser) (section : string)
  : result (dict string * dict string) :=
  match item section (sections self) with
  | Some sectiondict => Ok (sectiondict, defaults self)
  | None =>
      if section =? default_section then Ok ([], defaults self)
      else Error NoSectionError
  end.

(** Lookup in the chain map. *)
Definition chain_item (k : string) (d : dict string * dict string)
  : option string :=
  match item k (fst d) with
  | Some v => Some v
  | None => item k (snd d)
  end.

(** The [while rest:] loop of [_interpolate_some]; [recur] is the call
    of [_interpolate_some] one level down, [accum] the pieces joined so
    far, [fuel] a bound on the passes through the loop. *)
Fixpoint interpolate_while (recur : string -> string -> result string)
    (map : dict string * dict string) (fuel : nat) (accum rest : string)
  : result string :=
  match fuel with
  | O => Ok accum
  | S fuel' =>
      if rest =? "" then Ok accum
      else
        match split_percent rest with
        | None => Ok (accum ++ rest)
        | Some (before, rest) =>
            let accum := accum ++ before in
            match rest with
            | String _ (String c rest2) =>
                if Ascii.eqb c "%" then
                  interpolate_while recur map fuel' (accum ++ "%") rest2
                else if Ascii.eqb c "(" then
                  match KEYCRE_match rest with
                  | None => Error InterpolationSyntaxError
                  | Some (group1, rest) =>
                      match chain_item (optionxform group1) map with
                      | None => Error InterpolationMissingOptionError
                      | Some v =>
                          if has_percent v then
                            accum <- recur accum v ;;
                            interpolate_while recur map fuel' accum rest
                          else
                            interpolate_while recur map fuel' (accum ++ v)
                              rest
                      end
                  end
                else Error InterpolationSyntaxError
            | _ => Error InterpolationSyntaxError
            end
        end
  end.

(** [_interpolate_some] at depth [MAX_INTERPOLATION_DEPTH + 1 - levels]:
    no level left is [InterpolationDepthError]. *)
Fixpoint interpolate_some (map : dict string * dict string) (levels : nat)
    (accum rest : string) : result string :=
  match levels with
  | O => Error InterpolationDepthError
  | S levels' =>
      interpolate_while (interpolate_some map levels') map
        (String.length rest) accum rest
  end.

(** [BasicInterpolation.before_get] *)
Definition before_get (value : string) (d : dict string * dict string)
  : result string :=
  interpolate_some d MAX_INTERPOLATION_DEPTH "" value.

(** [config.get(section, opt, raw=raw)] *)
Definition get (self : ConfigParser) (section opt : string) (raw : bool)
  : result string :=
  d <- unify_values self section ;;
  match chain_item (optionxform opt) d with
  | None => Error NoOptionError
  | Some value => if raw then Ok value else before_get value d
  end.

(** [config.getint(section, opt)], [int] being Python's. *)
Definition getint (int : string -> option Z) (self : ConfigParser)
    (section opt : string) : result Z :=
  value <- get self section opt false ;;
  match int value with
  | Some n => Ok n
  | None => Error ValueError
  end.

(** What a lookup of [opt] under [section] finds, whether or not the
    section is there. *)
Definition stored (self : ConfigParser) (section opt : string)
  : option string :=
  match item section (sections self) with
  | Some sectdict => chain_item (optionxform opt) (sectdict, defaults self)
  | None => item (optionxform opt) (defaults self)
  end.

(** The text read for an option whose default is [default_value]: what
    the file gives it, or else the default. *)
Definition text_of (self : ConfigParser) (section opt default_value : string)
  : string :=
  match stored self section opt with
  | Some v => v
  | None => default_value
  end.

(** *** [load_settings] from line 112 on *)

(** The two folders [get_default_paths()] returned. *)
Variables default_save_dir default_backup_dir : string.

Definition default_settings : dict (dict string) :=
  [ ("Paths",
     [ ("save_dir", default_save_dir);
       ("backup_dir", default_backup_dir) ]);
    ("Backup",
     [ ("game_name", "TheLongDark_2.02");
       ("max_backups", "50");
       ("backup_interval", "20") ]);
    ("Advanced",
     [ ("log_level", "INFO");
       ("compress_level", "6") ]) ].

(** The inner loop, lines 116-118. *)
Fixpoint fill_keys (config : ConfigParser) (section : string)
    (keys : dict string) : result ConfigParser :=
  match keys with
  | [] => Ok config
  | (key, default_value) :: keys' =>
      config <- (if has_option config section key then Ok config
                 else set config section key default_value) ;;
      fill_keys config section keys'
  end.

(** The outer loop, lines 113-118. *)
Fixpoint fill_sections (config : ConfigParser)
    (items : dict (dict string)) : result ConfigParser :=
  match items with
  | [] => Ok config
  | (section, keys) :: items' =>
      config <- (if has_section config section then Ok config
                 else add_section config section) ;;
      config <- fill_keys config section keys ;;
      fill_sections config items'
  end.

Definition check_settings (config : ConfigParser) : result ConfigParser :=
  fill_sections config default_settings.

(** The dict [load_settings] returns. *)
Record settings_dict : Type := {
  SAVE_DIR : string;
  BACKUP_DIR : string;
  GAME_NAME : string;
  MAX_BACKUPS : Z;
  BACKUP_INTERVAL : Z;
  LOG_LEVEL : string;
  COMPRESS_LEVEL : Z
}.

(** [expand_path] and [int] as the platform has them, and whether the
    settings file can be written back. *)
Variable expand_path : string -> string.
Variable int : string -> option Z.
Variable write_ok : bool.

(** Lines 112-139, [config] being the parser after [config.read]. *)
Definition load_settings (config : ConfigParser) : result settings_dict :=
  config <- check_settings config ;;
  _ <- (if write_ok then Ok tt else Error OSError) ;;
  save_dir <- get config "Paths" "save_dir" false ;;
  let save_dir := expand_path (strip quotes_and_space save_dir) in
  backup_dir <- get config "Paths" "backup_dir" false ;;
  let backup_dir := expand_path (strip quotes_and_space backup_dir) in
  game_name <- get config "Backup" "game_name" false ;;
  max_backups <- getint int config "Backup" "max_backups" ;;
  backup_interval <- getint int config "Backup" "backup_interval" ;;
  log_level <- get config "Advanced" "log_level" false ;;
  compress_level <- getint int config "Advanced" "compress_level" ;;
  Ok {| SAVE_DIR := save_dir;
        BACKUP_DIR := backup_dir;
        GAME_NAME := game_name;
        MAX_BACKUPS := max_backups;
        BACKUP_INTERVAL := backup_interval;
        LOG_LEVEL := log_level;
        COMPRESS_LEVEL := compress_level |}.

(** The default a list of keys gives the option [opt]: that of the
    first key with the option's name. *)
Definition key_default (keys : dict string) (opt : string)
  : option string :=
  match find (fun kd => optionxform (fst kd) =? optionxform opt) keys with
  | Some kd => Some (snd kd)
  | None => None
  end.

(** The default a table gives the option [opt] of [section]: that of
    the first entry with the section's name and the option's. *)
Fixpoint default_of (items : dict (dict string)) (section opt : string)
  : option string :=
  match items with
  | [] => None
  | (section', keys) :: items' =>
      match (if section' =? section then key_default keys opt else None) with
      | Some default_value => Some default_value
      | None => default_of items' section opt
      end
  end.

(** The option names of the table are written the way the parser keeps
    option names. *)
Definition names_kept : Prop :=
  forall section keys key default_value,
    In (section, keys) default_settings ->
    In (key, default_value) keys ->
    optionxform key = key.

End Parser.

(** *** A platform to run the model on *)

(** [str.lower] on the letters A to Z. *)
Definition lower_char (a : ascii) : ascii :=
  let n := nat_of_ascii a in
  if (65 <=? n)%nat && (n <=? 90)%nat then ascii_of_nat (n + 32) else a.

Fixpoint lower (s : string) : string :=
  match s with
  | "" => ""
  | String a s' => String (lower_char a) (lower s')
  end.

(** [int] on the strings of decimal digits. *)
Fixpoint digits_value (acc : Z) (s : string) : option Z :=
  match s with
  | "" => Some acc
  | String a s' =>
      let n := nat_of_ascii a in
      if (48 <=? n)%nat && (n <=? 57)%nat
      then digits_value (10 * acc + Z.of_nat (n - 48)) s'
      else None
  end.

Definition int_of_digits (s : string) : option Z :=
  match s with
  | "" => None
  | _ => digits_value 0 s
  end.

(** The folders [get_default_paths()] returns for a Linux user [u]. *)
Definition home_save_dir : string := "/home/u/.local/share/Hinterland".
Definition home_backup_dir : string := "/home/u/TLD_Backups".

(** The config after lines 113-118 on that platform. *)
Definition filled (config : ConfigParser) : ConfigParser :=
  match check_settings lower home_save_dir home_backup_dir config with
  | Ok config' => config'
  | Error _ => config
  end.

(** [expand_path] where there is nothing to expand. *)
Definition as_written (path : string) : string := path.

(** A settings file with no section at all. *)
Definition empty_file : ConfigParser :=
  {| defaults := []; sections := [] |}.

(** A settings file whose backup folder is the example [show_help]
    prints, the other options being left to the defaults. *)
Definition userprofile_file : ConfigParser :=
  {| defaults := [];
     sections :=
       [ ("Paths",
          [ ("backup_dir", "%USERPROFILE%\Documents\TLD_Backups") ]) ] |}.

(** A settings file that sets the cap and the game, and the interval
    for every section. *)
Definition partial_file : ConfigParser :=
  {| defaults := [ ("backup_interval", "5") ];
     sections :=
       [ ("Backup", [ ("max_backups", "3"); ("game_name", "TLD") ]) ] |}.

(** The settings that file loads as on that platform. *)
Definition partial_settings : settings_dict :=
  {| SAVE_DIR := home_save_dir;
     BACKUP_DIR := home_backup_dir;
     GAME_NAME := "TLD";
     MAX_BACKUPS := 3;
     BACKUP_INTERVAL := 5;
     LOG_LEVEL := "INFO";
     COMPRESS_LEVEL := 6 |}.

End Config.

(* ------------------------------------------------------------------ *)
(** ** Labels that name a file of the destination *)

(** The characters that end a path component: the two separators and
    the colon of a drive. *)
Definition separators : list ascii := ["/"%char; "\"%char; ":"%char].

(** A label that is a single path component.  [os_path_join] keeps a
    directory and a file name as a pair, which is the file of that name
    in that directory when the name has no separator; the archive name
    [<label>_backup_<timestamp>.zip] has one exactly when the label has
    one. *)
Definition plain_label (game_name : string) : bool :=
  forallb (fun c => negb (existsb (Ascii.eqb c) separators))
    (list_ascii_of_string game_name).

(* ------------------------------------------------------------------ *)
(** ** The snapshots of a label, as the specification counts them *)

(** The files whose names follow the naming convention for the label. *)
Definition descriptors (label : string) (l : directory) : directory :=
  filter (fun e => Spec.follows_convention label (e_name e)) l.

(** A destination shared with the label "TLD_backup_old": one snapshot
    of "TLD" and, younger, one of the other label. *)
Definition mixed_dir : directory :=
  [ snapshot "TLD_backup_20240101_120000.zip" 1;
    snapshot "TLD_backup_old_backup_20240102_000000.zip" 2 ].

(* ------------------------------------------------------------------ *)
(** ** Printing, sleeping and zipping that can fail

    [print], [time.sleep] and [zipf.write] as the platform has them:
    - [pf_stdout m]: the exception [print] raises on the message [m],
      [None] when the message is printed; [sys.stdout] raises
      [UnicodeEncodeError] on a message it cannot encode;
    - [pf_max_sleep]: the longest time, in seconds, [time.sleep] takes;
      beyond it [time.sleep] raises [OverflowError];
    - [pf_write_error f]: the exception [zipf.write] raises for the file
      [f] of the save folder although it is there, [None] when it takes
      the file. *)
Record platform := {
  pf_stdout : message -> option exn;
  pf_max_sleep : Z;
  pf_write_error : string -> option exn
}.

Section OnPlatform.

Variable pf : platform.

(** [print(m)]: nothing is written when the message is refused. *)
Definition print_on (m : message) : M unit :=
  fun fs =>
    match pf_stdout pf m with
    | None => (Ret tt, fs, [m])
    | Some e => (Raise e, fs, [])
    end.

(** [time.sleep(secs)] *)
Definition time_sleep_on (secs : Z) : M unit :=
  if (secs <? 0)%Z then raise ValueError
  else if (pf_max_sleep pf <? secs)%Z then raise OverflowError
  else ret tt.

(** [zipf.write(filename, arcname)] *)
Definition ZipFile_write_on (w : world) (zipf : ZipFile) (filename : path)
    (arcname : string) : M unit :=
  match pf_write_error pf (p_name filename) with
  | Some e => raise e
  | None => ZipFile_write w zipf filename arcname None None
  end.

(** Lines 223-229, one pass through the [while] loop after the pop.
    [removed_count] is incremented between [os.remove] and [print], so
    it counts a file whose deletion could not be printed. *)
Definition remove_old_backup_on (old_backup : path * Z) (removed_count : Z)
  : M Z :=
  failure <-
    try_except (os_remove (fst old_backup) ;; ret None)
      (fun e => ret (Some e)) ;;
  match failure with
  | Some e =>
      print_on (FailedToDelete (fst old_backup) e) ;;
      ret removed_count
  | None =>
      try_except
        (print_on (OldBackupDeleted (fst old_backup)))
        (fun e => print_on (FailedToDelete (fst old_backup) e)) ;;
      ret (removed_count + 1)%Z
  end.

(** The [while len(backups) > max_backups] loop. *)
Fixpoint removal_loop_on (max_backups : Z) (backups : list (path * Z))
    (removed_count : Z) : M Z :=
  if (Z.of_nat (List.length backups) >? max_backups)%Z then
    match backups with
    | [] => raise IndexError
    | old_backup :: backups' =>
        removed_count' <- remove_old_backup_on old_backup removed_count ;;
        removal_loop_on max_backups backups' removed_count'
    end
  else ret removed_count.

Definition cleanup_old_backups_on (backup_dir game_name : string)
    (max_backups : Z) : M unit :=
  try_except
    (listing <- os_listdir backup_dir ;;
     let backups := collect_backups backup_dir game_name listing in
     let backups := sort_by_ctime backups in
     removed_count <- removal_loop_on max_backups backups 0%Z ;;
     if (removed_count >? 0)%Z
     then print_on (OldBackupsDeleted removed_count)
     else ret tt)
    (fun e => print_on (ErrorCleaningUp e)).

(** The [for file_path in files_to_backup] loop of the [with] block,
    lines 179-184. *)
Fixpoint add_files_on (w : world) (zipf : ZipFile) (source_dir : string)
    (files_to_backup : list path) : M unit :=
  match files_to_backup with
  | [] => ret tt
  | file_path :: rest =>
      try_except
        (let arcname := os_path_relpath file_path source_dir in
         ZipFile_write_on w zipf file_path arcname)
        (fun e => print_on (FailedToAddFile file_path e)) ;;
      add_files_on w zipf source_dir rest
  end.

(** [with opened as zipf: zipf.comment = c; body]: the archive is closed
    on the way out, with the comment it was given, also when the body
    raised. *)
Definition with_commented_ZipFile {A} (w : world) (opened : M ZipFile)
    (c : string * datetime) (body : ZipFile -> M A) : M A :=
  zipf <- opened ;;
  let zipf := set_comment zipf c in
  fun fs =>
    match body zipf fs with
    | (Ret a, fs', out) =>
        match ZipFile_close w zipf fs' with
        | (Ret _, fs'', out') => (Ret a, fs'', out ++ out')
        | (Raise e, fs'', out') => (Raise e, fs'', out ++ out')
        end
    | (Raise e, fs', out) =>
        match ZipFile_close w zipf fs' with
        | (Ret _, fs'', out') => (Raise e, fs'', out ++ out')
        | (Raise e', fs'', out') => (Raise e', fs'', out ++ out')
        end
    end.

(** Lines 167-199 of [create_backup]. *)
Definition write_and_clean_on (w : world)
    (source_dir backup_dir game_name : string)
    (max_backups compress_level : Z) (files_to_backup : list path) : M bool :=
  let timestamp := strftime (w_now w) in
  let backup_filename :=
    (game_name ++ "_backup_" ++ timestamp ++ ".zip")%string in
  let backup_path := os_path_join backup_dir backup_filename in
  let compression := ZIP_DEFLATED in
  let compress_level := clamp_level compress_level in
  with_commented_ZipFile w (ZipFile_open w backup_path compression None)
    (game_name, w_now w)
    (fun zipf => add_files_on w zipf source_dir files_to_backup) ;;
  written <- os_path_exists backup_path ;;
  if written then
    print_on (BackupCreated backup_filename) ;;
    print_on (SizeAndFiles (List.length files_to_backup)) ;;
    cleanup_old_backups_on backup_dir game_name max_backups ;;
    ret true
  else
    print_on (FailedToCreateBackup backup_path) ;;
    ret false.

(** Lines 145-203: the [print] of the handler at line 202 is not inside
    any [try]. *)
Definition create_backup_on (w : world)
    (source_dir backup_dir game_name : string)
    (max_backups compress_level : Z) : M bool :=
  try_except
    (if negb (w_source_exists w) then
       print_on (SaveFolderNotFound source_dir) ;;
       print_on CheckThePath ;;
       ret false
     else
       dest_exists <- os_path_exists_dir backup_dir ;;
       (if negb dest_exists
        then os_makedirs w backup_dir ;;
             print_on (BackupFolderCreated backup_dir)
        else ret tt) ;;
       let files_to_backup := map (os_path_join source_dir) (w_walk w) in
       if match files_to_backup with [] => true | _ :: _ => false end then
         print_on (NoFilesInSaveFolder source_dir) ;;
         ret false
       else
         write_and_clean_on w source_dir backup_dir game_name
           max_backups compress_level files_to_backup)
    (fun e => print_on (ErrorCreatingBackup e) ;; ret false).

(** The closure [handler] of [manual_backup_handler], lines 239-245. *)
Definition manual_backup_handler_on (backup_interval : Z)
    (backup_func : backup_function)
    (source_dir backup_dir game_name : string)
    (max_backups compress_level : Z) : world -> M unit :=
  fun w =>
    print_on Banner ;;
    print_on ManualTriggered ;;
    print_on Banner ;;
    backup_func w source_dir backup_dir game_name max_backups compress_level ;;
    print_on (NextAutomaticIn backup_interval) ;;
    print_on Rule.

(** One turn of the [while True] loop of the scheduler, lines 254-264. *)
Definition scheduler_turn_on (backup_func : backup_function)
    (source_dir backup_dir game_name : string)
    (max_backups interval_minutes compress_level : Z) (w : world) : M unit :=
  let interval := (interval_minutes * 60)%Z in
  print_on (NextAutomaticIn interval_minutes) ;;
  time_sleep_on interval ;;
  print_on Banner ;;
  print_on AutomaticOnSchedule ;;
  print_on Banner ;;
  backup_func w source_dir backup_dir game_name max_backups compress_level ;;
  ret tt.

(** The scheduler loop, run for as many turns as there are wake-ups.
    Only [KeyboardInterrupt] is caught around the loop, so an exception
    of a turn leaves it. *)
Fixpoint auto_backup_scheduler_on (backup_func : backup_function)
    (source_dir backup_dir game_name : string)
    (max_backups interval_minutes compress_level : Z)
    (wakeups : list world) : M unit :=
  match wakeups with
  | [] => ret tt
  | w :: rest =>
      scheduler_turn_on backup_func source_dir backup_dir game_name
        max_backups interval_minutes compress_level w ;;
      auto_backup_scheduler_on backup_func source_dir backup_dir game_name
        max_backups interval_minutes compress_level rest
  end.

(** The handler [main] binds to F5. *)
Definition f5_hotkey_on (st : settings) : world -> M unit :=
  manual_backup_handler_on (BACKUP_INTERVAL st) create_backup_on
    (SAVE_DIR st) (BACKUP_DIR st) (GAME_NAME st)
    (MAX_BACKUPS st) (COMPRESS_LEVEL st).

(** The target of the scheduler thread [main] starts. *)
Definition scheduler_thread_on (st : settings) : list world -> M unit :=
  auto_backup_scheduler_on create_backup_on
    (SAVE_DIR st) (BACKUP_DIR st) (GAME_NAME st)
    (MAX_BACKUPS st) (BACKUP_INTERVAL st) (COMPRESS_LEVEL st).

(** The console prints every message and [zipf.write] takes every file
    that is there. *)
Definition obliging : Prop :=
  (forall m, pf_stdout pf m = None) /\
  (forall f, pf_write_error pf f = None).

(** What [zipf.write] does with a file of the walk: the bytes it stores,
    or the exception it raises. *)
Definition written_or_refused (w : world) (f : string) : string + exn :=
  match pf_write_error pf f with
  | Some e => inr e
  | None =>
      match w_read w f with
      | Some data => inl data
      | None => inr FileNotFoundError
      end
  end.

(** The members the loop of lines 179-184 adds for a list of files. *)
Definition added_members (w : world) (zipf : ZipFile) (source_dir : string)
    (files : list path) : list zip_entry :=
  flat_map
    (fun file_path =>
       match written_or_refused w (p_name file_path) with
       | inl data =>
           [{| ze_arcname := os_path_relpath file_path source_dir;
               ze_data := data;
               ze_compress_type := zf_compression zipf;
               ze_compresslevel := zf_compresslevel zipf |}]
       | inr _ => []
       end)
    files.

(** The lines the loop prints for a list of files. *)
Definition refusal_lines (w : world) (files : list path) : list message :=
  flat_map
    (fun file_path =>
       match written_or_refused w (p_name file_path) with
       | inl _ => []
       | inr e => [FailedToAddFile file_path e]
       end)
    files.

End OnPlatform.

(** A platform on which nothing of the three fails, [time.sleep] taking
    what CPython 3.11 takes on a 64-bit clock. *)
Definition obliging_platform : platform :=
  {| pf_stdout := fun _ => None;
     pf_max_sleep := 9223372036;
     pf_write_error := fun _ => None |}.

(** A console that encodes ASCII only: the three messages without a
    symbol are printed, every other raises. *)
Definition ascii_console (m : message) : option exn :=
  match m with
  | CheckThePath | Banner | Rule => None
  | _ => Some UnicodeEncodeError
  end.

Definition ascii_platform : platform :=
  {| pf_stdout := ascii_console;
     pf_max_sleep := 9223372036;
     pf_write_error := fun _ => None |}.

(** A platform whose [zipf.write] refuses the file "old.sav", stamped
    before 1980. *)
Definition strict_zip_platform : platform :=
  {| pf_stdout := fun _ => None;
     pf_max_sleep := 9223372036;
     pf_write_error :=
       fun f => if f =? "old.sav" then Some ValueError else None |}.

(** Settings with the default cap, interval and level. *)
Definition usual_settings : settings :=
  {| SAVE_DIR := "saves";
     BACKUP_DIR := "backups";
     GAME_NAME := "TLD";
     MAX_BACKUPS := 50;
     BACKUP_INTERVAL := 20;
     COMPRESS_LEVEL := 6 |}.

(** The same with the shortest interval, in minutes, whose length in
    seconds [time.sleep] refuses on that platform. *)
Definition long_interval_settings : settings :=
  {| SAVE_DIR := "saves";
     BACKUP_DIR := "backups";
     GAME_NAME := "TLD";
     MAX_BACKUPS := 50;
     BACKUP_INTERVAL := 153722868;
     COMPRESS_LEVEL := 6 |}.

(** A save folder of three files, the second of which [zipf.write]
    refuses on [strict_zip_platform] and the third of which is gone. *)
Definition dated_world : world :=
  {| w_source_exists := true;
     w_walk := ["a.sav"; "old.sav"; "gone.sav"];
     w_read := fun n => if n =? "gone.sav" then None else Some n;
     w_now := at_noon 0;
     w_makedirs_ok := true;
     w_open_ok := true;
     w_close_ok := true;
     w_ctime := 100 |}.

(** A destination in which the archive of a cycle has just been opened,
    and the object it was opened as. *)
Definition opened_fs : filesystem :=
  only_dir "backups"
    (put_file "TLD_backup_20240105_120007.zip" 100 (Zip empty_archive) []).

Definition opened_zipf : ZipFile :=
  zipf_of (os_path_join "backups" "TLD_backup_20240105_120007.zip").

(* ================================================================== *)
(** * Facts *)

(** ** Strings *)

Section StringFacts.
Local Open Scope string_scope.

Lemma length_append (a b : string) :
  String.length (a ++ b) = (String.length a + String.length b)%nat.
Proof. induction a as [|c a IH]; simpl; [reflexivity | now rewrite IH]. Qed.

Lemma prefix_refl_append (p s : string) : prefix p (p ++ s) = true.
Proof.
  induction p as [|c p IH]; simpl.
  - now destruct s.
  - destruct (ascii_dec c c) as [_|n]; [exact IH | now elim n].
Qed.

Lemma substring_whole (s : string) : substring 0 (String.length s) s = s.
Proof. induction s as [|c s IH]; simpl; [reflexivity | now rewrite IH]. Qed.

Lemma substring_skip_append (a s : string) (m : nat) :
  substring (String.length a) m (a ++ s) = substring 0 m s.
Proof. induction a as [|c a IH]; simpl; [reflexivity | exact IH]. Qed.

Lemma startswith_append (p s : string) : startswith (p ++ s) p = true.
Proof. apply prefix_refl_append. Qed.

Lemma endswith_append (a suf : string) : endswith (a ++ suf) suf = true.
Proof.
  unfold endswith. rewrite length_append.
  replace (String.length a + String.length suf - String.length suf)%nat
    with (String.length a) by lia.
  rewrite substring_skip_append, substring_whole, String.eqb_refl.
  rewrite andb_true_r. apply Nat.leb_le. lia.
Qed.

Lemma append_assoc (a b c : string) : (a ++ b) ++ c = a ++ (b ++ c).
Proof. induction a as [|x a IH]; simpl; [reflexivity | now rewrite IH]. Qed.

Lemma append_inj_l (p a b : string) : p ++ a = p ++ b -> a = b.
Proof.
  induction p as [|c p IH]; simpl; intros H; [exact H|].
  injection H as H. now apply IH.
Qed.

End StringFacts.

(** ** Paths and the file system *)

Lemma path_eqb_eq p q : path_eqb p q = true <-> p = q.
Proof.
  destruct p as [d n], q as [d' n']; unfold path_eqb; simpl.
  rewrite andb_true_iff, !String.eqb_eq. split.
  - intros [-> ->]; reflexivity.
  - intros H; injection H; auto.
Qed.

Lemma path_eqb_refl p : path_eqb p p = true.
Proof. now apply path_eqb_eq. Qed.

Lemma fs_set_same fs d l : fs_set fs d l d = l.
Proof. unfold fs_set. now rewrite String.eqb_refl. Qed.

Lemma fs_set_other fs d l d' : d' <> d -> fs_set fs d l d' = fs d'.
Proof. unfold fs_set. intros H. apply String.eqb_neq in H. now rewrite H. Qed.


(** ** The monad *)

Lemma deletion_attempts_app (a b : list message) :
  deletion_attempts (a ++ b) = deletion_attempts a ++ deletion_attempts b.
Proof.
  induction a as [|m a IH]; simpl; [reflexivity|].
  destruct m; simpl; rewrite ?IH; reflexivity.
Qed.

Lemma deletions_app (a b : list message) :
  deletions (a ++ b) = deletions a ++ deletions b.
Proof.
  induction a as [|m a IH]; simpl; [reflexivity|].
  destruct m; simpl; rewrite ?IH; reflexivity.
Qed.

Lemma deletions_are_attempts (log : list message) (p : path) :
  In p (deletions log) -> In p (deletion_attempts log).
Proof.
  induction log as [|m log IH]; simpl; [tauto|].
  destruct m; simpl; try exact IH.
  - intros [H|H]; auto.
  - intros H; auto.
Qed.

(** ** The stable sort *)

Section SortFacts.

Lemma insert_by_ctime_perm x l : Permutation (insert_by_ctime x l) (x :: l).
Proof.
  induction l as [|y l IH]; simpl; [apply Permutation_refl|].
  destruct (snd x <=? snd y)%Z.
  - apply Permutation_refl.
  - eapply perm_trans; [apply perm_skip, IH | apply perm_swap].
Qed.

Lemma sort_by_ctime_perm l : Permutation (sort_by_ctime l) l.
Proof.
  induction l as [|x l IH]; simpl; [constructor|].
  eapply perm_trans; [apply insert_by_ctime_perm | now apply perm_skip].
Qed.

Lemma sort_by_ctime_length l :
  List.length (sort_by_ctime l) = List.length l.
Proof. apply Permutation_length, sort_by_ctime_perm. Qed.

Lemma insert_by_ctime_sorted x l :
  StronglySorted older_or_equal l ->
  StronglySorted older_or_equal (insert_by_ctime x l).
Proof.
  intros Hsorted.
  induction Hsorted as [|y l Hs IH Hall]; simpl.
  - repeat constructor.
  - destruct (Z.leb_spec (snd x) (snd y)) as [Hle|Hlt].
    + constructor; [now constructor|].
      constructor; [exact Hle|].
      eapply Forall_impl; [|exact Hall].
      unfold older_or_equal; intros; lia.
    + constructor; [exact IH|].
      eapply Permutation_Forall.
      * apply Permutation_sym, insert_by_ctime_perm.
      * constructor; [unfold older_or_equal; lia | exact Hall].
Qed.

Lemma sort_by_ctime_sorted l : StronglySorted older_or_equal (sort_by_ctime l).
Proof.
  induction l as [|x l IH]; simpl; [constructor|].
  now apply insert_by_ctime_sorted.
Qed.

(** Stability: among the items stamped [t], the order is the one before
    the sort. *)
Lemma insert_by_ctime_stable (t : Z) x l :
  filter (fun y => (snd y =? t)%Z) (insert_by_ctime x l)
  = filter (fun y => (snd y =? t)%Z) (x :: l).
Proof.
  induction l as [|y l IH]; [reflexivity|].
  simpl insert_by_ctime.
  destruct (Z.leb_spec (snd x) (snd y)) as [Hle|Hlt]; [reflexivity|].
  cbn [filter]. rewrite IH. cbn [filter].
  destruct (Z.eqb_spec (snd y) t) as [Hy|Hy];
    destruct (Z.eqb_spec (snd x) t) as [Hx|Hx]; simpl; try reflexivity.
  lia.
Qed.

Lemma sort_by_ctime_stable (t : Z) l :
  filter (fun y => (snd y =? t)%Z) (sort_by_ctime l)
  = filter (fun y => (snd y =? t)%Z) l.
Proof.
  induction l as [|x l IH]; [reflexivity|].
  simpl sort_by_ctime. rewrite insert_by_ctime_stable.
  simpl. now rewrite IH.
Qed.

Lemma StronglySorted_app_le {A} (R : A -> A -> Prop) (l1 l2 : list A) :
  StronglySorted R (l1 ++ l2) ->
  forall x y, In x l1 -> In y l2 -> R x y.
Proof.
  induction l1 as [|a l1 IH]; simpl; intros Hs x y Hx Hy; [contradiction|].
  inversion Hs as [|? ? Hs' Hall]; subst.
  destruct Hx as [->|Hx].
  - rewrite Forall_forall in Hall. apply Hall, in_or_app. now right.
  - now apply IH.
Qed.

Lemma StronglySorted_app_l {A} (R : A -> A -> Prop) (l1 l2 : list A) :
  StronglySorted R (l1 ++ l2) -> StronglySorted R l1.
Proof.
  induction l1 as [|a l1 IH]; simpl; intros Hs; [constructor|].
  inversion Hs as [|? ? Hs' Hall]; subst.
  constructor; [now apply IH|].
  apply Forall_app in Hall. tauto.
Qed.

End SortFacts.

(** ** Collecting the backups of a directory *)

Lemma collect_backups_matching backup_dir game_name l :
  collect_backups backup_dir game_name (listing_of l)
  = map (fun e => (os_path_join backup_dir (e_name e), e_ctime e))
      (matching game_name l).
Proof.
  induction l as [|e l IH]; simpl; [reflexivity|].
  destruct (is_backup_file game_name (e_name e)); simpl; now rewrite IH.
Qed.

Lemma sorted_backups_length backup_dir game_name l :
  List.length (sorted_backups backup_dir game_name l)
  = List.length (matching game_name l).
Proof.
  unfold sorted_backups.
  now rewrite sort_by_ctime_length, collect_backups_matching, length_map.
Qed.

Lemma sorted_backups_in backup_dir game_name l x :
  In x (sorted_backups backup_dir game_name l) ->
  exists e, In e l /\ is_backup_file game_name (e_name e) = true /\
            x = (os_path_join backup_dir (e_name e), e_ctime e).
Proof.
  unfold sorted_backups. intros H.
  apply (Permutation_in _ (sort_by_ctime_perm _)) in H.
  rewrite collect_backups_matching in H.
  apply in_map_iff in H. destruct H as [e [<- He]].
  unfold matching in He. apply filter_In in He.
  exists e. tauto.
Qed.

(** ** One pass of the removal loop *)

Section RemovalLoop.

Lemma bind_ret_run {A B} (m : M A) (k : A -> M B) fs a fs1 o1 :
  m fs = (Ret a, fs1, o1) ->
  bind m k fs
  = (result_of (k a fs1), fs_after (k a fs1), o1 ++ printed (k a fs1)).
Proof.
  intros H. unfold bind, result_of, fs_after, printed. rewrite H.
  now destruct (k a fs1) as [[r f] o].
Qed.

Lemma bind_run {A B} (m : M A) (k : A -> M B) fs a fs1 o1 r fs2 o2 :
  m fs = (Ret a, fs1, o1) ->
  k a fs1 = (r, fs2, o2) ->
  bind m k fs = (r, fs2, o1 ++ o2).
Proof. intros H1 H2. unfold bind. now rewrite H1, H2. Qed.

(** Run the rest of the loop after the attempt recorded in [Hrun], and
    bring the induction hypothesis [IH] to that run. *)
Ltac loop_step Hrun IH d :=
  match type of Hrun with
  | _ = (Ret ?a, ?f, ?o) =>
      let Hk := fresh "Hk" in
      let r2 := fresh "r" in
      let f2 := fresh "f" in
      let o2 := fresh "o" in
      pose proof (IH a f d) as IH;
      destruct (removal_loop _ _ a f) as [[r2 f2] o2] eqn:Hk;
      match type of Hk with
      | removal_loop ?mx ?bs _ _ = _ =>
          rewrite (bind_run _ (fun x => removal_loop mx bs x)
                     _ _ _ _ _ _ _ Hrun Hk)
      end;
      unfold fs_after, printed, result_of in *; cbn [fst snd] in *
  end.

Lemma printed_run {A} (r : outcome A) f o : printed (r, f, o) = o.
Proof. reflexivity. Qed.

Lemma fs_after_run {A} (r : outcome A) f o : fs_after (r, f, o) = f.
Proof. reflexivity. Qed.

Lemma result_of_run {A} (r : outcome A) f o : result_of (r, f, o) = r.
Proof. reflexivity. Qed.

Lemma run_eta {A} (r : outcome A * filesystem * list message) :
  r = (result_of r, fs_after r, printed r).
Proof. now destruct r as [[a b] c]. Qed.

(** The [try: os.remove ... except] block either deletes the file and
    counts it, or prints the failure and leaves everything as it was. *)
Lemma remove_attempt_run (p : path) (rc : Z) (fs : filesystem) :
  (exists l e,
      fs (p_dir p) = Some l /\ lookup (p_name p) l = Some e /\
      e_locked e = false /\
      try_except
        (os_remove p ;; print (OldBackupDeleted p) ;; ret (rc + 1)%Z)
        (fun e => print (FailedToDelete p e) ;; ret rc) fs
      = (Ret (rc + 1)%Z,
         fs_set fs (p_dir p) (Some (without (p_name p) l)),
         [OldBackupDeleted p]))
  \/
  (exists ex,
      try_except
        (os_remove p ;; print (OldBackupDeleted p) ;; ret (rc + 1)%Z)
        (fun e => print (FailedToDelete p e) ;; ret rc) fs
      = (Ret rc, fs, [FailedToDelete p ex]) /\
      forall l e, fs (p_dir p) = Some l ->
                  lookup (p_name p) l = Some e -> e_locked e = true).
Proof.
  unfold try_except, bind, os_remove, print, ret.
  destruct (fs (p_dir p)) as [l|] eqn:Hd.
  - destruct (lookup (p_name p) l) as [e|] eqn:Hl.
    + destruct (e_locked e) eqn:Hk.
      * right. exists PermissionError. split; [reflexivity|].
        intros l' e' H1 H2. injection H1 as <-. rewrite Hl in H2.
        now injection H2 as <-.
      * left. exists l, e. auto.
    + right. exists FileNotFoundError. split; [reflexivity|].
      intros l' e' H1 H2. injection H1 as <-. rewrite Hl in H2. discriminate.
  - right. exists FileNotFoundError. split; [reflexivity|].
    intros l' e' H1. discriminate.
Qed.

Lemma removal_loop_nil max rc fs :
  fs_after (removal_loop max [] rc fs) = fs /\
  printed (removal_loop max [] rc fs) = [] /\
  ((0 <= max)%Z -> result_of (removal_loop max [] rc fs) = Ret rc).
Proof.
  simpl. destruct (Z.gtb_spec 0 max); repeat split; try reflexivity.
  intros; lia.
Qed.

Lemma removal_loop_stop max b bs rc fs :
  (Z.of_nat (List.length (b :: bs)) <= max)%Z ->
  removal_loop max (b :: bs) rc fs = (Ret rc, fs, []).
Proof.
  intros H. cbn [removal_loop].
  destruct (Z.gtb_spec (Z.of_nat (List.length (b :: bs))) max); [lia|].
  reflexivity.
Qed.

Lemma removal_loop_go max b bs rc fs :
  (Z.of_nat (List.length (b :: bs)) > max)%Z ->
  removal_loop max (b :: bs) rc fs
  = bind
      (try_except
         (os_remove (fst b) ;; print (OldBackupDeleted (fst b)) ;;
          ret (rc + 1)%Z)
         (fun e => print (FailedToDelete (fst b) e) ;; ret rc))
      (fun rc' => removal_loop max bs rc') fs.
Proof.
  intros H. cbn [removal_loop].
  destruct (Z.gtb_spec (Z.of_nat (List.length (b :: bs))) max); [|lia].
  reflexivity.
Qed.

(** The loop pops exactly the excess, from the head. *)
Lemma removal_loop_attempts max backups : forall rc fs,
  deletion_attempts (printed (removal_loop max backups rc fs))
  = map fst
      (firstn (Z.to_nat (Z.of_nat (List.length backups) - max)) backups).
Proof.
  induction backups as [|b bs IH]; intros rc fs.
  - destruct (removal_loop_nil max rc fs) as [_ [-> _]]. now rewrite firstn_nil.
  - destruct (Z.le_gt_cases (Z.of_nat (List.length (b :: bs))) max) as [Hle|Hgt].
    + rewrite removal_loop_stop by exact Hle.
      replace (Z.to_nat _) with 0%nat by lia. reflexivity.
    + rewrite removal_loop_go by lia.
      replace (Z.to_nat (Z.of_nat (List.length (b :: bs)) - max))
        with (S (Z.to_nat (Z.of_nat (List.length bs) - max)))
        by (cbn [List.length] in *; lia).
      cbn [firstn map].
      destruct (remove_attempt_run (fst b) rc fs)
        as [(l & e & _ & _ & _ & Hrun) | (ex & Hrun & _)];
        rewrite (bind_ret_run _ _ _ _ _ _ Hrun); unfold printed at 1;
        cbn [snd]; rewrite deletion_attempts_app, IH; reflexivity.
Qed.

(** With a cap that is not negative the loop ends without raising. *)
Lemma removal_loop_returns max backups : (0 <= max)%Z -> forall rc fs,
  exists rc', result_of (removal_loop max backups rc fs) = Ret rc'.
Proof.
  intros Hmax. induction backups as [|b bs IH]; intros rc fs.
  - exists rc. now apply removal_loop_nil.
  - destruct (Z.le_gt_cases (Z.of_nat (List.length (b :: bs))) max) as [Hle|Hgt].
    + rewrite removal_loop_stop by exact Hle. now exists rc.
    + rewrite removal_loop_go by lia.
      destruct (remove_attempt_run (fst b) rc fs)
        as [(l & e & _ & _ & _ & Hrun) | (ex & Hrun & _)];
        rewrite (bind_ret_run _ _ _ _ _ _ Hrun); unfold result_of at 1;
        cbn [fst]; apply IH.
Qed.

Lemma minus_nil d l : minus d [] l = l.
Proof.
  unfold minus, listed_in. simpl.
  induction l as [|e l IH]; simpl; [reflexivity | now rewrite IH].
Qed.

Lemma filter_twice {A} (f g : A -> bool) (l : list A) :
  filter f (filter g l) = filter (fun x => g x && f x) l.
Proof.
  induction l as [|x l IH]; simpl; [reflexivity|].
  destruct (g x); simpl; [destruct (f x)|]; now rewrite IH.
Qed.

Lemma minus_cons_same p ps l :
  minus (p_dir p) (p :: ps) l = minus (p_dir p) ps (without (p_name p) l).
Proof.
  unfold minus, without. rewrite filter_twice. apply filter_ext. intros e.
  unfold listed_in. cbn [existsb].
  unfold path_eqb at 1, os_path_join at 1. cbn [p_dir p_name].
  rewrite String.eqb_refl. cbn [andb].
  now rewrite negb_orb.
Qed.

Lemma minus_cons_other d p ps l :
  d <> p_dir p -> minus d (p :: ps) l = minus d ps l.
Proof.
  intros Hne. unfold minus, listed_in. apply filter_ext. intros e.
  cbn [existsb]. unfold path_eqb at 1, os_path_join at 1. cbn [p_dir p_name].
  apply String.eqb_neq in Hne. now rewrite Hne.
Qed.

(** What the loop leaves of every directory: the listing it found, less
    the files it reports deleted. *)
Lemma removal_loop_fs max backups : forall rc fs d,
  fs_after (removal_loop max backups rc fs) d
  = option_map
      (minus d (deletions (printed (removal_loop max backups rc fs))))
      (fs d).
Proof.
  induction backups as [|b bs IH]; intros rc fs d.
  - destruct (removal_loop_nil max rc fs) as [-> [-> _]]. cbn [deletions].
    destruct (fs d); cbn [option_map]; [now rewrite minus_nil | reflexivity].
  - destruct (Z.le_gt_cases (Z.of_nat (List.length (b :: bs))) max) as [Hle|Hgt].
    + rewrite removal_loop_stop by exact Hle.
      unfold fs_after, printed. cbn [fst snd deletions].
      destruct (fs d); cbn [option_map]; [now rewrite minus_nil | reflexivity].
    + rewrite removal_loop_go by lia.
      destruct (remove_attempt_run (fst b) rc fs)
        as [(l & e & Hd & _ & _ & Hrun) | (ex & Hrun & _)];
        loop_step Hrun IH d; rewrite deletions_app, IH;
        cbn [deletions app].
      * destruct (String.eqb_spec d (p_dir (fst b))) as [->|Hne].
        -- rewrite fs_set_same, Hd. cbn [option_map].
           now rewrite minus_cons_same.
        -- rewrite fs_set_other by exact Hne.
           destruct (fs d); cbn [option_map]; [|reflexivity].
           now rewrite minus_cons_other.
      * reflexivity.
Qed.

End RemovalLoop.

(** ** The whole retention pass *)

Section Cleanup.

Lemma lookup_without_other n m l :
  n <> m -> lookup n (without m l) = lookup n l.
Proof.
  intros Hne. unfold lookup, without.
  induction l as [|e l IH]; simpl; [reflexivity|].
  destruct (String.eqb_spec (e_name e) m) as [Hm|Hm]; simpl.
  - destruct (String.eqb_spec (e_name e) n) as [Hn|Hn]; [congruence | exact IH].
  - destruct (e_name e =? n); [reflexivity | exact IH].
Qed.

Lemma lookup_in n l e : In e l -> e_name e = n ->
  exists e', lookup n l = Some e' /\ In e' l /\ e_name e' = n.
Proof.
  intros Hin Hn. unfold lookup.
  destruct (find (fun e0 => e_name e0 =? n) l) as [e'|] eqn:Hf.
  - apply find_some in Hf. destruct Hf as [H1 H2].
    apply String.eqb_eq in H2. eauto.
  - apply (find_none _ _ Hf) in Hin. apply String.eqb_neq in Hin. contradiction.
Qed.

(** When every file to pop is there and free, every attempt deletes. *)
Lemma removal_loop_all_deleted max backups : forall rc fs d l,
  fs d = Some l ->
  NoDup (map fst backups) ->
  (forall p, In p (map fst backups) ->
     p_dir p = d /\
     exists e, lookup (p_name p) l = Some e /\ e_locked e = false) ->
  deletions (printed (removal_loop max backups rc fs))
  = deletion_attempts (printed (removal_loop max backups rc fs)).
Proof.
  induction backups as [|b bs IH]; intros rc fs d l Hd Hnd Hall.
  - now destruct (removal_loop_nil max rc fs) as [_ [-> _]].
  - destruct (Z.le_gt_cases (Z.of_nat (List.length (b :: bs))) max) as [Hle|Hgt].
    + now rewrite removal_loop_stop by exact Hle.
    + rewrite removal_loop_go by lia.
      cbn [map] in Hnd, Hall. inversion Hnd as [|? ? Hnotin Hnd']; subst.
      destruct (Hall (fst b) (or_introl eq_refl)) as [Hdir (e & Hl & Hk)].
      destruct (remove_attempt_run (fst b) rc fs)
        as [(l0 & e0 & Hd0 & _ & _ & Hrun) | (ex & Hrun & Hfail)].
      * rewrite Hdir, Hd in Hd0. injection Hd0 as <-.
        match type of Hrun with
        | _ = (Ret ?a, ?f, ?o) =>
            specialize (IH a f d (without (p_name (fst b)) l))
        end.
        rewrite Hdir in IH. rewrite fs_set_same in IH.
        specialize (IH eq_refl Hnd').
        assert (Hrest : forall p, In p (map fst bs) ->
                  p_dir p = d /\
                  exists e, lookup (p_name p) (without (p_name (fst b)) l)
                            = Some e /\ e_locked e = false).
        { intros p Hp. destruct (Hall p (or_intror Hp)) as [Hpd Hpe].
          split; [exact Hpd|].
          rewrite lookup_without_other; [exact Hpe|].
          intros Heq. apply Hnotin.
          replace (fst b) with p; [exact Hp|].
          destruct p as [pd pn], (fst b) as [bd bn]. simpl in *. congruence. }
        specialize (IH Hrest).
        destruct (removal_loop max bs _ _) as [[r2 f2] o2] eqn:Hk2.
        rewrite Hdir in Hrun.
        rewrite (bind_run _ (fun x => removal_loop max bs x)
                   _ _ _ _ _ _ _ Hrun Hk2).
        unfold printed in *. cbn [snd] in *.
        rewrite deletions_app, deletion_attempts_app, IH. reflexivity.
      * rewrite Hdir in Hfail. rewrite (Hfail l e Hd Hl) in Hk. discriminate.
Qed.

(** The retention pass never raises; it prints the attempts of the loop
    and nothing else that names a file. *)
Lemma cleanup_run backup_dir game_name keep fs l :
  fs backup_dir = Some l ->
  exists tail,
    cleanup_old_backups backup_dir game_name keep fs
    = (Ret tt,
       fs_after (removal_loop keep
                   (sorted_backups backup_dir game_name l) 0%Z fs),
       printed (removal_loop keep
                  (sorted_backups backup_dir game_name l) 0%Z fs) ++ tail)
    /\ deletion_attempts tail = [] /\ deletions tail = [].
Proof.
  intros Hd. unfold cleanup_old_backups, try_except, bind, os_listdir.
  rewrite Hd. fold (listing_of l).
  fold (sorted_backups backup_dir game_name l).
  destruct (removal_loop keep _ 0%Z fs) as [[r f] o].
  unfold fs_after, printed. cbn [fst snd].
  destruct r as [rc|e].
  - destruct (rc >? 0)%Z.
    + exists [OldBackupsDeleted rc]. repeat split.
    + exists []. repeat split.
  - exists [ErrorCleaningUp e]. repeat split.
Qed.

Lemma cleanup_missing_dir backup_dir game_name keep fs :
  fs backup_dir = None ->
  cleanup_old_backups backup_dir game_name keep fs
  = (Ret tt, fs, [ErrorCleaningUp FileNotFoundError]).
Proof.
  intros Hd. unfold cleanup_old_backups, try_except, bind, os_listdir.
  now rewrite Hd.
Qed.

Lemma cleanup_returns backup_dir game_name keep fs :
  result_of (cleanup_old_backups backup_dir game_name keep fs) = Ret tt.
Proof.
  destruct (fs backup_dir) as [l|] eqn:Hd.
  - destruct (cleanup_run backup_dir game_name keep fs l Hd) as [t [-> _]].
    reflexivity.
  - now rewrite cleanup_missing_dir.
Qed.

Lemma excess_spec game_name backup_dir l keep :
  (0 <= keep)%Z ->
  Z.to_nat (Z.of_nat (List.length (sorted_backups backup_dir game_name l))
            - keep)
  = excess game_name l keep.
Proof.
  intros _. unfold excess. rewrite sorted_backups_length. lia.
Qed.

Lemma cleanup_attempts backup_dir game_name keep fs l :
  (0 <= keep)%Z ->
  fs backup_dir = Some l ->
  deletion_attempts (printed (cleanup_old_backups backup_dir game_name keep fs))
  = map fst (selected backup_dir game_name l keep).
Proof.
  intros Hk Hd.
  destruct (cleanup_run backup_dir game_name keep fs l Hd) as [t [-> [Ht _]]].
  rewrite printed_run.
  rewrite deletion_attempts_app, Ht, app_nil_r, removal_loop_attempts.
  unfold selected. now rewrite excess_spec.
Qed.

Lemma cleanup_fs backup_dir game_name keep fs d :
  fs_after (cleanup_old_backups backup_dir game_name keep fs) d
  = option_map
      (minus d (deletions
                  (printed (cleanup_old_backups backup_dir game_name keep fs))))
      (fs d).
Proof.
  destruct (fs backup_dir) as [l|] eqn:Hd.
  - destruct (cleanup_run backup_dir game_name keep fs l Hd) as [t [-> [_ Ht]]].
    rewrite fs_after_run, printed_run.
    rewrite deletions_app, Ht, app_nil_r. apply removal_loop_fs.
  - rewrite cleanup_missing_dir by exact Hd.
    unfold fs_after, printed. cbn [fst snd deletions].
    destruct (fs d); cbn [option_map]; [now rewrite minus_nil | reflexivity].
Qed.

Lemma selected_length backup_dir game_name l keep :
  (0 <= keep)%Z ->
  List.length (selected backup_dir game_name l keep) = excess game_name l keep.
Proof.
  intros Hk. unfold selected. rewrite length_firstn, sorted_backups_length.
  unfold excess.
  generalize (List.length (matching game_name l)). intros n.
  apply Nat.min_l. lia.
Qed.

Lemma selected_retained backup_dir game_name l keep :
  selected backup_dir game_name l keep ++ retained backup_dir game_name l keep
  = sorted_backups backup_dir game_name l.
Proof. apply firstn_skipn. Qed.

Lemma join_names_NoDup backup_dir (l : directory) :
  NoDup (map e_name l) ->
  NoDup (map (fun e => os_path_join backup_dir (e_name e)) l).
Proof.
  intros H. rewrite <- (map_map e_name (os_path_join backup_dir)).
  apply Finite.Injective_map_NoDup; [|exact H].
  intros a b Hab. now injection Hab.
Qed.

Lemma matching_names_NoDup game_name (l : directory) :
  NoDup (map e_name l) -> NoDup (map e_name (matching game_name l)).
Proof.
  induction l as [|e l IH]; simpl; intros H; [constructor|].
  inversion H as [|? ? Hn Hr]; subst.
  destruct (is_backup_file game_name (e_name e)); simpl; [|now apply IH].
  constructor; [|now apply IH].
  intros Hin. apply Hn. apply in_map_iff in Hin.
  destruct Hin as [x [Hx Hxin]]. unfold matching in Hxin.
  apply filter_In in Hxin. apply in_map_iff. exists x. tauto.
Qed.

Lemma sorted_backups_NoDup backup_dir game_name l :
  NoDup (map e_name l) ->
  NoDup (map fst (sorted_backups backup_dir game_name l)).
Proof.
  intros H. unfold sorted_backups.
  eapply Permutation_NoDup.
  - apply Permutation_map, Permutation_sym, sort_by_ctime_perm.
  - rewrite collect_backups_matching, map_map. cbn [fst].
    apply join_names_NoDup, matching_names_NoDup, H.
Qed.

Lemma cleanup_all_deleted backup_dir game_name keep fs l :
  (0 <= keep)%Z ->
  fs backup_dir = Some l ->
  NoDup (map e_name l) ->
  (forall e, In e l -> is_backup_file game_name (e_name e) = true ->
             e_locked e = false) ->
  deletions (printed (cleanup_old_backups backup_dir game_name keep fs))
  = map fst (selected backup_dir game_name l keep).
Proof.
  intros Hk Hd Hnd Hfree.
  rewrite <- (cleanup_attempts backup_dir game_name keep fs l Hk Hd).
  destruct (cleanup_run backup_dir game_name keep fs l Hd) as [t [-> [Ht1 Ht2]]].
  rewrite printed_run.
  rewrite deletions_app, deletion_attempts_app, Ht1, Ht2.
  f_equal.
  apply (removal_loop_all_deleted keep _ 0%Z fs backup_dir l Hd).
  - now apply sorted_backups_NoDup.
  - intros p Hp. apply in_map_iff in Hp. destruct Hp as [x [<- Hx]].
    apply sorted_backups_in in Hx. destruct Hx as (e & Hin & Hm & ->).
    cbn [fst os_path_join p_dir p_name]. split; [reflexivity|].
    destruct (lookup_in (e_name e) l e Hin eq_refl) as (e' & Hl & Hin' & Hn').
    exists e'. split; [exact Hl|]. apply Hfree; [exact Hin'|]. now rewrite Hn'.
Qed.

End Cleanup.

(** ** The naming convention and the test of the retention pass *)

Section Convention.
Local Open Scope string_scope.

Lemma strip_prefix_append p s rest :
  Spec.strip_prefix p s = Some rest -> s = p ++ rest.
Proof.
  revert s. induction p as [|c p IH]; simpl; intros s H.
  - now injection H.
  - destruct s as [|d s]; [discriminate|].
    destruct (Ascii.eqb_spec c d) as [->|]; [|discriminate].
    now rewrite (IH s H).
Qed.

Lemma string_of_list_ascii_app (a b : list ascii) :
  string_of_list_ascii (a ++ b)%list
  = string_of_list_ascii a ++ string_of_list_ascii b.
Proof. induction a as [|c a IH]; simpl; [reflexivity | now rewrite IH]. Qed.

Lemma convention_passes_test label name :
  Spec.follows_convention label name = true ->
  is_backup_file label name = true.
Proof.
  unfold Spec.follows_convention, is_backup_file.
  destruct (Spec.strip_prefix (label ++ "_backup_") name) as [rest|] eqn:Hp;
    [|discriminate].
  intros H. apply andb_true_iff in H. destruct H as [_ Hz].
  apply String.eqb_eq in Hz.
  apply strip_prefix_append in Hp.
  assert (Hrest : rest
                  = string_of_list_ascii (firstn 15 (list_ascii_of_string rest))
                    ++ ".zip").
  { rewrite <- Hz, <- string_of_list_ascii_app, firstn_skipn.
    now rewrite string_of_list_ascii_of_string. }
  rewrite Hp, Hrest. apply andb_true_iff. split.
  - apply startswith_append.
  - rewrite <- append_assoc. apply endswith_append.
Qed.

End Convention.

Lemma minus_other_dir d ps l :
  (forall p, In p ps -> p_dir p <> d) -> minus d ps l = l.
Proof.
  intros H. unfold minus.
  rewrite <- (minus_nil d l) at 2. unfold minus. apply filter_ext.
  intros e. f_equal. unfold listed_in. cbn [existsb].
  apply not_true_is_false. intros Hex. apply existsb_exists in Hex.
  destruct Hex as [p [Hin Heq]]. apply path_eqb_eq in Heq.
  apply (H p Hin). now rewrite <- Heq.
Qed.

Lemma minus_keeps d ps l e :
  In e l -> ~ In (os_path_join d (e_name e)) ps -> In e (minus d ps l).
Proof.
  intros Hin Hno. unfold minus. apply filter_In. split; [exact Hin|].
  apply negb_true_iff, not_true_is_false. intros Hex.
  unfold listed_in in Hex. apply existsb_exists in Hex.
  destruct Hex as [p [Hp Heq]]. apply path_eqb_eq in Heq. now subst p.
Qed.

Lemma in_firstn {A} (n : nat) (l : list A) (x : A) :
  In x (firstn n l) -> In x l.
Proof.
  intros H. rewrite <- (firstn_skipn n l). apply in_or_app. now left.
Qed.

Lemma attempts_are_backups backup_dir game_name keep fs p :
  In p (deletion_attempts
          (printed (cleanup_old_backups backup_dir game_name keep fs))) ->
  exists l e, fs backup_dir = Some l /\ In e l /\
              is_backup_file game_name (e_name e) = true /\
              p = os_path_join backup_dir (e_name e).
Proof.
  destruct (fs backup_dir) as [l|] eqn:Hd.
  - destruct (cleanup_run backup_dir game_name keep fs l Hd) as [t [-> [Ht _]]].
    rewrite printed_run, deletion_attempts_app, Ht, app_nil_r.
    rewrite removal_loop_attempts. intros Hin.
    apply in_map_iff in Hin. destruct Hin as [x [<- Hx]].
    apply in_firstn in Hx. apply sorted_backups_in in Hx.
    destruct Hx as (e & Hin & Hm & ->). exists l, e. auto.
  - rewrite cleanup_missing_dir by exact Hd. simpl. contradiction.
Qed.

(** ** Writing the archive *)

Section ArchiveWrite.

Lemma overwrite_none n t c l : lookup n l = None -> overwrite n t c l = l.
Proof.
  unfold lookup, overwrite. induction l as [|e l IH]; simpl; [reflexivity|].
  destruct (e_name e =? n)%string; [discriminate|].
  intros H. now rewrite IH.
Qed.

Lemma lookup_overwrite n t c l e :
  lookup n l = Some e ->
  lookup n (overwrite n t c l)
  = Some {| e_name := e_name e; e_ctime := t; e_locked := e_locked e;
            e_content := c |}.
Proof.
  unfold lookup, overwrite. induction l as [|x l IH]; simpl; [discriminate|].
  destruct (e_name x =? n)%string eqn:Hx; simpl; rewrite Hx.
  - intros H. now injection H as <-.
  - exact IH.
Qed.

Lemma overwrite_twice n t c t' c' l :
  overwrite n t' c' (overwrite n t c l) = overwrite n t' c' l.
Proof.
  unfold overwrite. rewrite map_map. apply map_ext. intros e.
  destruct (e_name e =? n)%string eqn:He; simpl; now rewrite He.
Qed.

Lemma lookup_app_none n l x :
  lookup n l = None -> lookup n (l ++ [x]) = lookup n [x].
Proof.
  unfold lookup. induction l as [|e l IH]; simpl; [reflexivity|].
  destruct (e_name e =? n)%string; [discriminate | exact IH].
Qed.

Lemma overwrite_app n t c l l' :
  overwrite n t c (l ++ l') = overwrite n t c l ++ overwrite n t c l'.
Proof. unfold overwrite. apply map_app. Qed.

Lemma lookup_put_file n t c l :
  exists e, lookup n (put_file n t c l) = Some e /\
            e_name e = n /\ e_ctime e = t /\ e_content e = c.
Proof.
  unfold put_file. destruct (lookup n l) as [e|] eqn:Hl.
  - rewrite (lookup_overwrite n t c l e Hl). eexists. split; [reflexivity|].
    cbn. repeat split. unfold lookup in Hl. apply find_some in Hl.
    now apply String.eqb_eq.
  - rewrite lookup_app_none by exact Hl. unfold lookup. cbn.
    rewrite String.eqb_refl. eexists. split; [reflexivity|]. now cbn.
Qed.

Lemma overwrite_put_file n t c c' l :
  overwrite n t c' (put_file n t c l) = put_file n t c' l.
Proof.
  unfold put_file. destruct (lookup n l) as [e|] eqn:Hl.
  - apply overwrite_twice.
  - rewrite overwrite_app, (overwrite_none n t c' l Hl).
    unfold overwrite. cbn. now rewrite String.eqb_refl.
Qed.

Lemma update_archive_put p f fs t z l :
  fs (p_dir p) = Some (put_file (p_name p) t (Zip z) l) ->
  update_archive p f fs
  = (Ret tt,
     fs_set fs (p_dir p) (Some (put_file (p_name p) t (Zip (f z)) l)), []).
Proof.
  intros Hd. unfold update_archive. rewrite Hd.
  destruct (lookup_put_file (p_name p) t (Zip z) l)
    as (e & -> & _ & Ht & Hc).
  destruct e as [en et ek ec]. cbn in Ht, Hc. subst et ec.
  now rewrite overwrite_put_file.
Qed.

Lemma differs_at_set d l' fs : differs_at d l' fs (fs_set fs d (Some l')).
Proof.
  split; [apply fs_set_same | intros d' H; now apply fs_set_other].
Qed.

Lemma differs_at_trans d l1 l2 fs fs1 fs2 :
  differs_at d l1 fs fs1 -> differs_at d l2 fs1 fs2 -> differs_at d l2 fs fs2.
Proof.
  intros [_ H1] [H2 H3]. split; [exact H2|].
  intros d' Hd. now rewrite H3, H1.
Qed.

(** The loop adds the member of every file it can read and prints a
    failure for every other; it never raises. *)
Lemma add_files_run w zipf source_dir files : forall fs t z l,
  fs (p_dir (zf_path zipf))
  = Some (put_file (p_name (zf_path zipf)) t (Zip z) l) ->
  exists fs',
    add_files w zipf source_dir files fs
    = (Ret tt, fs', flat_map (failure_of w) files) /\
    differs_at (p_dir (zf_path zipf))
      (put_file (p_name (zf_path zipf)) t
         (Zip (with_entries z (flat_map (member_of w zipf) files))) l)
      fs fs'.
Proof.
  induction files as [|file rest IH]; intros fs t z l Hd.
  - exists fs. split; [reflexivity|]. split; [|reflexivity].
    rewrite Hd. unfold with_entries. cbn. rewrite app_nil_r.
    now destruct z.
  - cbn [add_files flat_map]. unfold member_of at 1, failure_of at 1.
    unfold bind, try_except, ZipFile_write, os_path_relpath.
    destruct (w_read w (p_name file)) as [data|] eqn:Hr.
    + rewrite (update_archive_put _ _ _ _ _ _ Hd).
      match goal with
      | |- context [add_files w zipf source_dir rest ?f] =>
          destruct (IH f t
                      {| z_comment := z_comment z;
                         z_entries := z_entries z ++
                           [{| ze_arcname := p_name file; ze_data := data;
                               ze_compress_type := zf_compression zipf;
                               ze_compresslevel := zf_compresslevel zipf |}];
                         z_closed := z_closed z |} l)
            as (fs' & Hrun & Hdiff); [apply fs_set_same|]
      end.
      rewrite Hrun. exists fs'. split; [reflexivity|].
      eapply differs_at_trans; [apply differs_at_set|].
      unfold with_entries in *. cbn in *. rewrite <- app_assoc in Hdiff.
      exact Hdiff.
    + unfold raise, print.
      destruct (IH fs t z l Hd) as (fs' & Hrun & Hdiff).
      rewrite Hrun. exists fs'. split; [reflexivity|]. exact Hdiff.
Qed.

End ArchiveWrite.

(** ** The cycle, case by case *)

Section Cycle.

Variable w : world.
Variables source_dir backup_dir game_name : string.
Variables max_backups compress_level : Z.
Variable fs : filesystem.

Local Abbreviation name := (backup_filename_of game_name (w_now w)).
Local Abbreviation backup_path := (os_path_join backup_dir name).
Local Abbreviation files := (map (os_path_join source_dir) (w_walk w)).
Local Abbreviation cycle :=
  (create_backup w source_dir backup_dir game_name max_backups compress_level
     fs).
Local Abbreviation write :=
  (write_and_clean w source_dir backup_dir game_name max_backups
     compress_level files).

Lemma cycle_source_missing :
  w_source_exists w = false ->
  cycle = (Ret false, fs, [SaveFolderNotFound source_dir; CheckThePath]).
Proof.
  intros H. unfold create_backup, try_except. now rewrite H.
Qed.

Lemma cycle_dest_refused :
  w_source_exists w = true ->
  dest_ready w backup_dir fs = false ->
  cycle = (Ret false, fs, [ErrorCreatingBackup PermissionError]).
Proof.
  intros Hs Hd. unfold dest_ready in Hd.
  unfold create_backup, try_except, bind, os_path_exists_dir, os_makedirs.
  rewrite Hs. cbn [negb].
  destruct (fs backup_dir) eqn:Hb; [discriminate|].
  cbn [negb]. rewrite Hb, Hd. reflexivity.
Qed.

Lemma ensured_found : ensured backup_dir fs backup_dir
                      = Some (found backup_dir fs).
Proof.
  unfold ensured, found. destruct (fs backup_dir) eqn:H; [exact H|].
  apply fs_set_same.
Qed.

Lemma ensured_elsewhere d : d <> backup_dir -> ensured backup_dir fs d = fs d.
Proof.
  intros H. unfold ensured. destruct (fs backup_dir); [reflexivity|].
  now apply fs_set_other.
Qed.

Lemma cycle_empty :
  w_source_exists w = true ->
  dest_ready w backup_dir fs = true ->
  w_walk w = [] ->
  cycle = (Ret false, ensured backup_dir fs,
           found_messages backup_dir fs ++ [NoFilesInSaveFolder source_dir]).
Proof.
  intros Hs Hd Hw. unfold dest_ready in Hd.
  unfold create_backup, try_except, bind, os_path_exists_dir, os_makedirs,
    ensured, found_messages.
  rewrite Hs, Hw. cbn [negb map].
  destruct (fs backup_dir) eqn:Hb; cbn [negb]; [reflexivity|].
  rewrite Hb, Hd. reflexivity.
Qed.

(** Past the checks the cycle is [write_and_clean] on the destination,
    with an exception turned into a failed cycle. *)
Lemma cycle_writes :
  w_source_exists w = true ->
  dest_ready w backup_dir fs = true ->
  w_walk w <> [] ->
  cycle
  = match write (ensured backup_dir fs) with
    | (Ret b, fs', out) => (Ret b, fs', found_messages backup_dir fs ++ out)
    | (Raise e, fs', out) =>
        (Ret false, fs',
         found_messages backup_dir fs ++ out ++ [ErrorCreatingBackup e])
    end.
Proof.
  intros Hs Hd Hw. unfold dest_ready in Hd.
  unfold create_backup, try_except, bind, os_path_exists_dir, os_makedirs,
    ensured, found_messages, ret, print.
  rewrite Hs. cbn [negb].
  destruct (w_walk w) as [|f0 rest] eqn:Hwalk; [congruence|]. cbn [map].
  destruct (fs backup_dir) eqn:Hb; cbn [negb].
  - destruct (write_and_clean _ _ _ _ _ _ _ fs) as [[[b|e] f] o]; reflexivity.
  - rewrite Hb, Hd.
    destruct (write_and_clean _ _ _ _ _ _ _ _) as [[[b|e] f] o]; reflexivity.
Qed.

Variable l : directory.
Variable fs1 : filesystem.
Hypothesis Hdir : fs1 backup_dir = Some l.

Lemma write_open_refused :
  w_open_ok w && target_free name l = false ->
  write fs1 = (Raise PermissionError, fs1, []).
Proof.
  intros H. unfold write_and_clean, with_ZipFile, bind, ZipFile_open.
  cbn [p_dir p_name os_path_join]. fold name. rewrite Hdir.
  unfold target_free in H.
  destruct (w_open_ok w); cbn [negb andb] in *; [|reflexivity].
  destruct (lookup name l) as [e|]; [|discriminate].
  destruct (e_locked e); [reflexivity | discriminate].
Qed.

Lemma write_opened :
  w_open_ok w && target_free name l = true ->
  ZipFile_open w backup_path ZIP_DEFLATED None fs1
  = (Ret (zipf_of backup_path),
     fs_set fs1 backup_dir
       (Some (put_file name (w_ctime w) (Zip empty_archive) l)), []).
Proof.
  intros H. unfold ZipFile_open. cbn [p_dir p_name os_path_join].
  rewrite Hdir. apply andb_true_iff in H. destruct H as [-> Hfree].
  unfold target_free in Hfree. cbn [negb].
  destruct (lookup name l) as [e|]; [|reflexivity].
  apply negb_true_iff in Hfree. now rewrite Hfree.
Qed.

(** The [with] block: the members go into the file as they are added,
    and closing completes the archive or raises. *)
Lemma with_block_run :
  w_open_ok w && target_free name l = true ->
  exists fs',
    differs_at backup_dir
      (put_file name (w_ctime w)
         (Zip (partial_archive_of w source_dir backup_dir game_name)) l)
      fs1 fs' /\
    with_ZipFile w (ZipFile_open w backup_path ZIP_DEFLATED None)
      (fun zipf =>
         add_files w (set_comment zipf (game_name, w_now w)) source_dir files ;;
         ret (set_comment zipf (game_name, w_now w), tt)) fs1
    = if w_close_ok w
      then (Ret tt,
            fs_set fs' backup_dir
              (Some (put_file name (w_ctime w)
                       (Zip (archive_of w source_dir backup_dir game_name))
                       l)),
            flat_map (failure_of w) files)
      else (Raise OSError, fs', flat_map (failure_of w) files).
Proof.
  intros Hopen.
  destruct (add_files_run w
              (set_comment (zipf_of backup_path) (game_name, w_now w))
              source_dir files
              (fs_set fs1 backup_dir
                 (Some (put_file name (w_ctime w) (Zip empty_archive) l)))
              (w_ctime w) empty_archive l)
    as (fs' & Hrun & Hdiff); [apply fs_set_same|].
  cbn [set_comment zf_path zipf_of p_dir p_name os_path_join] in Hdiff.
  exists fs'. split.
  - eapply differs_at_trans; [apply differs_at_set | exact Hdiff].
  - unfold with_ZipFile. unfold bind at 1. rewrite (write_opened Hopen).
    unfold bind. rewrite Hrun. unfold ret, ZipFile_close.
    destruct (w_close_ok w).
    + destruct Hdiff as [Hd' _].
      cbn [set_comment zf_path zipf_of].
      rewrite (update_archive_put backup_path _ fs' _ _ _ Hd').
      cbn [set_comment zf_path zipf_of p_dir p_name os_path_join zf_comment].
      rewrite !app_nil_r. reflexivity.
    + unfold raise. rewrite !app_nil_r. reflexivity.
Qed.

Lemma os_path_exists_put fs2 c :
  fs2 backup_dir = Some (put_file name (w_ctime w) c l) ->
  os_path_exists backup_path fs2 = (Ret true, fs2, []).
Proof.
  intros H. unfold os_path_exists. cbn [p_dir p_name os_path_join].
  rewrite H.
  destruct (lookup_put_file name (w_ctime w) c l) as (e & -> & _).
  reflexivity.
Qed.

Lemma write_close_fails :
  w_open_ok w && target_free name l = true ->
  w_close_ok w = false ->
  exists fs2,
    differs_at backup_dir
      (put_file name (w_ctime w)
         (Zip (partial_archive_of w source_dir backup_dir game_name)) l)
      fs1 fs2 /\
    write fs1 = (Raise OSError, fs2, flat_map (failure_of w) files).
Proof.
  intros Hopen Hclose.
  destruct (with_block_run Hopen) as (fs2 & Hdiff & Hrun).
  rewrite Hclose in Hrun. exists fs2. split; [exact Hdiff|].
  unfold write_and_clean, bind at 1. unfold backup_filename_of in Hrun.
  now rewrite Hrun.
Qed.

Lemma write_success :
  w_open_ok w && target_free name l = true ->
  w_close_ok w = true ->
  exists fs2,
    differs_at backup_dir
      (put_file name (w_ctime w)
         (Zip (archive_of w source_dir backup_dir game_name)) l)
      fs1 fs2 /\
    write fs1
    = (Ret true,
       fs_after (cleanup_old_backups backup_dir game_name max_backups fs2),
       flat_map (failure_of w) files
       ++ [BackupCreated name; SizeAndFiles (List.length files)]
       ++ printed (cleanup_old_backups backup_dir game_name max_backups fs2)).
Proof.
  intros Hopen Hclose.
  destruct (with_block_run Hopen) as (fs' & Hdiff & Hrun).
  rewrite Hclose in Hrun.
  eexists. split.
  - eapply differs_at_trans; [exact Hdiff | apply differs_at_set].
  - unfold write_and_clean, bind at 1. unfold backup_filename_of in Hrun.
    rewrite Hrun. unfold bind at 1.
    fold (backup_filename_of game_name (w_now w)).
    rewrite (os_path_exists_put _ _ (fs_set_same _ _ _)).
    unfold bind, print, ret.
    rewrite (run_eta (cleanup_old_backups _ _ _ _)), cleanup_returns.
    cbn [app]. rewrite !app_nil_r. reflexivity.
Qed.

End Cycle.

(** The cycle from the checks to the end, for each way it can go. *)
Section CycleCases.

Variable w : world.
Variables source_dir backup_dir game_name : string.
Variables max_backups compress_level : Z.
Variable fs : filesystem.

Local Abbreviation name := (backup_filename_of game_name (w_now w)).
Local Abbreviation files := (map (os_path_join source_dir) (w_walk w)).
Local Abbreviation cycle :=
  (create_backup w source_dir backup_dir game_name max_backups compress_level
     fs).

Hypothesis Hsource : w_source_exists w = true.
Hypothesis Hready : dest_ready w backup_dir fs = true.
Hypothesis Hwalk : w_walk w <> [].

Lemma cycle_open_refused :
  w_open_ok w && target_free name (found backup_dir fs) = false ->
  cycle = (Ret false, ensured backup_dir fs,
           found_messages backup_dir fs
           ++ [ErrorCreatingBackup PermissionError]).
Proof.
  intros H.
  rewrite (cycle_writes _ _ _ _ _ _ _ Hsource Hready Hwalk).
  now rewrite (write_open_refused _ _ _ _ _ _ _ _ (ensured_found _ _) H).
Qed.

Lemma differs_from_ensured l' fs2 :
  differs_at backup_dir l' (ensured backup_dir fs) fs2 ->
  differs_at backup_dir l' fs fs2.
Proof.
  intros [H1 H2]. split; [exact H1|]. intros d Hd.
  rewrite H2 by exact Hd. now apply ensured_elsewhere.
Qed.

Lemma cycle_close_fails :
  w_open_ok w && target_free name (found backup_dir fs) = true ->
  w_close_ok w = false ->
  exists fs2,
    differs_at backup_dir
      (put_file name (w_ctime w)
         (Zip (partial_archive_of w source_dir backup_dir game_name))
         (found backup_dir fs))
      fs fs2 /\
    cycle = (Ret false, fs2,
             found_messages backup_dir fs ++ flat_map (failure_of w) files
             ++ [ErrorCreatingBackup OSError]).
Proof.
  intros Hopen Hclose.
  destruct (write_close_fails w source_dir backup_dir game_name max_backups
              compress_level _ _ (ensured_found _ _) Hopen Hclose)
    as (fs2 & Hdiff & Hrun).
  exists fs2. split; [now apply differs_from_ensured|].
  rewrite (cycle_writes _ _ _ _ _ _ _ Hsource Hready Hwalk).
  now rewrite Hrun.
Qed.

Lemma cycle_success :
  w_open_ok w && target_free name (found backup_dir fs) = true ->
  w_close_ok w = true ->
  exists fs2,
    differs_at backup_dir
      (put_file name (w_ctime w)
         (Zip (archive_of w source_dir backup_dir game_name))
         (found backup_dir fs))
      fs fs2 /\
    cycle
    = (Ret true,
       fs_after (cleanup_old_backups backup_dir game_name max_backups fs2),
       found_messages backup_dir fs
       ++ flat_map (failure_of w) files
       ++ [BackupCreated name; SizeAndFiles (List.length files)]
       ++ printed (cleanup_old_backups backup_dir game_name max_backups fs2)).
Proof.
  intros Hopen Hclose.
  destruct (write_success w source_dir backup_dir game_name max_backups
              compress_level _ _ (ensured_found _ _) Hopen Hclose)
    as (fs2 & Hdiff & Hrun).
  exists fs2. split; [now apply differs_from_ensured|].
  rewrite (cycle_writes _ _ _ _ _ _ _ Hsource Hready Hwalk).
  now rewrite Hrun.
Qed.

End CycleCases.

(** ** The archive name *)

Section Naming.
Local Open Scope Z_scope.

Lemma digit_code (n : Z) :
  nat_of_ascii (digit n) = Z.to_nat (48 + n mod 10).
Proof.
  unfold digit. apply nat_ascii_embedding.
  pose proof (Z.mod_pos_bound n 10 ltac:(lia)). lia.
Qed.

Lemma digit_inj (a b : Z) : digit a = digit b -> a mod 10 = b mod 10.
Proof.
  intros H. apply (f_equal nat_of_ascii) in H. rewrite !digit_code in H.
  pose proof (Z.mod_pos_bound a 10 ltac:(lia)).
  pose proof (Z.mod_pos_bound b 10 ltac:(lia)). lia.
Qed.

Lemma is_digit_digit (n : Z) : Spec.is_digit (digit n) = true.
Proof.
  unfold Spec.is_digit. rewrite digit_code.
  pose proof (Z.mod_pos_bound n 10 ltac:(lia)).
  apply andb_true_iff. split; apply Nat.leb_le; lia.
Qed.

Lemma pad2_inj (a b : Z) :
  0 <= a < 100 -> 0 <= b < 100 -> pad2 a = pad2 b -> a = b.
Proof.
  intros Ha Hb H. unfold pad2 in H. injection H as H1 H2.
  apply digit_inj in H1, H2.
  rewrite (Z.div_mod a 10), (Z.div_mod b 10) by lia.
  rewrite (Z.mod_small (a / 10) 10) in H1
    by (split; [apply Z.div_pos | apply Z.div_lt_upper_bound]; lia).
  rewrite (Z.mod_small (b / 10) 10) in H1
    by (split; [apply Z.div_pos | apply Z.div_lt_upper_bound]; lia).
  congruence.
Qed.

Lemma pad4_inj (a b : Z) :
  0 <= a < 10000 -> 0 <= b < 10000 -> pad4 a = pad4 b -> a = b.
Proof.
  intros Ha Hb H. unfold pad4, pad2 in H. injection H as H1 H2 H3 H4.
  apply digit_inj in H1, H2, H3, H4.
  assert (Hdec : forall n, 0 <= n < 10000 ->
            n = 1000 * ((n / 1000) mod 10) + 100 * ((n / 100) mod 10)
                + 10 * ((n / 10) mod 10) + n mod 10).
  { intros n Hn.
    pose proof (Z.div_mod n 10 ltac:(lia)).
    pose proof (Z.div_mod (n / 10) 10 ltac:(lia)).
    pose proof (Z.div_mod (n / 10 / 10) 10 ltac:(lia)).
    rewrite (Z.div_div n 10 10) in * by lia.
    rewrite (Z.div_div n (10 * 10) 10) in * by lia.
    change (10 * 10) with 100 in *. change (100 * 10) with 1000 in *.
    assert (0 <= n / 1000 < 10)
      by (split; [apply Z.div_pos | apply Z.div_lt_upper_bound]; lia).
    rewrite (Z.mod_small (n / 1000) 10) by lia. lia. }
  rewrite (Hdec a Ha), (Hdec b Hb). congruence.
Qed.

Lemma append_inj_len (a a' b b' : string) :
  String.length a = String.length a' ->
  (a ++ b)%string = (a' ++ b')%string -> a = a' /\ b = b'.
Proof.
  revert a'. induction a as [|c a IH]; intros [|c' a'] Hlen H;
    try discriminate.
  - now split.
  - cbn in Hlen, H. injection Hlen as Hlen. injection H as -> H.
    destruct (IH a' Hlen H) as [-> ->]. now split.
Qed.

Lemma datetime_ok_bounds d :
  datetime_ok d = true ->
  1000 <= year d <= 9999 /\ 1 <= month d <= 12 /\ 1 <= day d <= 31 /\
  0 <= hour d < 24 /\ 0 <= minute d < 60 /\ 0 <= second d < 60 /\
  0 <= microsecond d < 1000000.
Proof.
  unfold datetime_ok. rewrite !andb_true_iff.
  rewrite !Z.leb_le, !Z.ltb_lt. tauto.
Qed.

(** The time stamp shows the clock down to the second. *)
Lemma strftime_inj d1 d2 :
  datetime_ok d1 = true -> datetime_ok d2 = true ->
  strftime d1 = strftime d2 ->
  year d1 = year d2 /\ month d1 = month d2 /\ day d1 = day d2 /\
  hour d1 = hour d2 /\ minute d1 = minute d2 /\ second d1 = second d2.
Proof.
  intros H1 H2 H.
  apply datetime_ok_bounds in H1, H2.
  unfold strftime in H.
  apply append_inj_len in H; [destruct H as [Hy H] | reflexivity].
  apply append_inj_len in H; [destruct H as [Hm H] | reflexivity].
  apply append_inj_len in H; [destruct H as [Hd H] | reflexivity].
  apply append_inj_len in H; [destruct H as [_ H] | reflexivity].
  apply append_inj_len in H; [destruct H as [Hh H] | reflexivity].
  apply append_inj_len in H; [destruct H as [Hmi H] | reflexivity].
  apply pad4_inj in Hy; [|lia|lia].
  apply pad2_inj in Hm; [|lia|lia].
  apply pad2_inj in Hd; [|lia|lia].
  apply pad2_inj in Hh; [|lia|lia].
  apply pad2_inj in Hmi; [|lia|lia].
  apply pad2_inj in H; [|lia|lia].
  repeat split; assumption.
Qed.

Lemma backup_filename_inj game_name d1 d2 :
  backup_filename_of game_name d1 = backup_filename_of game_name d2 ->
  strftime d1 = strftime d2.
Proof.
  unfold backup_filename_of. intros H.
  apply append_inj_l in H. apply append_inj_l in H.
  apply (f_equal (substring 0 15)) in H.
  assert (Hs : forall d, substring 0 15 (strftime d ++ ".zip")%string
                         = strftime d) by (intros d; reflexivity).
  now rewrite !Hs in H.
Qed.

(** Two readings of the clock a second or more apart differ in a field
    the time stamp shows. *)
Lemma names_differ_a_second_apart game_name d1 d2 :
  datetime_ok d1 = true -> datetime_ok d2 = true ->
  1000000 <= Z.abs (to_microseconds d2 - to_microseconds d1) ->
  backup_filename_of game_name d1 <> backup_filename_of game_name d2.
Proof.
  intros H1 H2 Hfar Heq.
  apply backup_filename_inj in Heq.
  destruct (strftime_inj d1 d2 H1 H2 Heq) as (Hy & Hm & Hd & Hh & Hmi & Hs).
  apply datetime_ok_bounds in H1, H2.
  unfold to_microseconds in Hfar.
  rewrite Hy, Hm, Hd, Hh, Hmi, Hs in Hfar. lia.
Qed.

Lemma names_agree_within_a_second game_name d1 d2 :
  year d1 = year d2 -> month d1 = month d2 -> day d1 = day d2 ->
  hour d1 = hour d2 -> minute d1 = minute d2 -> second d1 = second d2 ->
  backup_filename_of game_name d1 = backup_filename_of game_name d2.
Proof.
  intros Hy Hm Hd Hh Hmi Hs. unfold backup_filename_of, strftime.
  now rewrite Hy, Hm, Hd, Hh, Hmi, Hs.
Qed.

Lemma strip_prefix_of_append p r :
  Spec.strip_prefix p (p ++ r)%string = Some r.
Proof.
  induction p as [|c p IH]; simpl; [reflexivity|].
  now rewrite Ascii.eqb_refl.
Qed.

(** The name of an archive follows the naming convention. *)
Lemma backup_filename_follows_convention game_name d :
  Spec.follows_convention game_name (backup_filename_of game_name d) = true.
Proof.
  unfold Spec.follows_convention, backup_filename_of.
  rewrite <- append_assoc, strip_prefix_of_append.
  unfold strftime, pad4, pad2.
  cbn [append list_ascii_of_string firstn skipn string_of_list_ascii].
  unfold Spec.is_timestamp.
  cbn [List.length Nat.eqb firstn skipn nth_error forallb andb].
  rewrite !is_digit_digit. reflexivity.
Qed.

End Naming.

(** ** Every way a cycle can go *)

Section CycleOutcome.

Variable w : world.
Variables source_dir backup_dir game_name : string.
Variables max_backups compress_level : Z.
Variable fs : filesystem.

Local Abbreviation name := (backup_filename_of game_name (w_now w)).
Local Abbreviation files := (map (os_path_join source_dir) (w_walk w)).
Local Abbreviation cycle :=
  (create_backup w source_dir backup_dir game_name max_backups compress_level
     fs).

Lemma ensured_keeps_files : keeps_files fs (ensured backup_dir fs).
Proof.
  intros d. unfold found, ensured.
  destruct (fs backup_dir) eqn:Hb; [reflexivity|].
  destruct (String.eqb_spec d backup_dir) as [->|Hne].
  - now rewrite fs_set_same, Hb.
  - now rewrite fs_set_other.
Qed.

Lemma cycle_outcome :
  (* the archive was never opened *)
  (result_of cycle = Ret false /\ keeps_files fs (fs_after cycle) /\
   (w_source_exists w = false \/ dest_ready w backup_dir fs = false \/
    w_walk w = [] \/
    w_open_ok w && target_free name (found backup_dir fs) = false))
  \/
  (* closing the archive failed *)
  (w_close_ok w = false /\ result_of cycle = Ret false /\
   differs_at backup_dir
     (put_file name (w_ctime w)
        (Zip (partial_archive_of w source_dir backup_dir game_name))
        (found backup_dir fs))
     fs (fs_after cycle))
  \/
  (* the archive was written *)
  (w_source_exists w = true /\ w_walk w <> [] /\ w_close_ok w = true /\
   exists fs2,
     differs_at backup_dir
       (put_file name (w_ctime w)
          (Zip (archive_of w source_dir backup_dir game_name))
          (found backup_dir fs))
       fs fs2 /\
     cycle
     = (Ret true,
        fs_after (cleanup_old_backups backup_dir game_name max_backups fs2),
        found_messages backup_dir fs
        ++ flat_map (failure_of w) files
        ++ [BackupCreated name; SizeAndFiles (List.length files)]
        ++ printed (cleanup_old_backups backup_dir game_name max_backups
                      fs2))).
Proof.
  destruct (w_source_exists w) eqn:Hs.
  2:{ left. rewrite (cycle_source_missing _ _ _ _ _ _ _ Hs).
      split; [reflexivity|]. split; [intros d; reflexivity | auto]. }
  destruct (dest_ready w backup_dir fs) eqn:Hd.
  2:{ left. rewrite (cycle_dest_refused _ _ _ _ _ _ _ Hs Hd).
      split; [reflexivity|]. split; [intros d; reflexivity | auto]. }
  destruct (w_walk w) as [|f0 rest] eqn:Hw.
  { left. rewrite (cycle_empty _ _ _ _ _ _ _ Hs Hd Hw).
    split; [reflexivity|]. split; [apply ensured_keeps_files | auto]. }
  assert (Hne : w_walk w <> []) by (rewrite Hw; discriminate).
  rewrite <- Hw.
  destruct (w_open_ok w && target_free name (found backup_dir fs)) eqn:Ho.
  2:{ left. rewrite (cycle_open_refused _ _ _ _ _ _ _ Hs Hd Hne Ho).
      split; [reflexivity|]. split; [apply ensured_keeps_files | auto]. }
  destruct (w_close_ok w) eqn:Hc.
  - right. right. repeat split; auto.
    apply (cycle_success _ _ _ _ _ _ _ Hs Hd Hne Ho Hc).
  - right. left. split; [reflexivity|].
    destruct (cycle_close_fails w source_dir backup_dir game_name max_backups
                compress_level fs Hs Hd Hne Ho Hc) as (fs2 & Hdiff & ->).
    split; [reflexivity | exact Hdiff].
Qed.

(** A cycle that ran through found the destination ready and the
    archive free to open. *)
Lemma differs_at_ready fs2 out :
  w_source_exists w = true ->
  w_walk w <> [] ->
  cycle = (Ret true, fs2, out) ->
  dest_ready w backup_dir fs = true /\
  w_open_ok w && target_free name (found backup_dir fs) = true.
Proof.
  intros Hs Hw Hrun.
  destruct (dest_ready w backup_dir fs) eqn:Hd.
  2:{ rewrite (cycle_dest_refused _ _ _ _ _ _ _ Hs Hd) in Hrun.
      discriminate. }
  split; [reflexivity|].
  destruct (w_open_ok w && target_free name (found backup_dir fs)) eqn:Ho;
    [reflexivity|].
  rewrite (cycle_open_refused _ _ _ _ _ _ _ Hs Hd Hw Ho) in Hrun.
  discriminate.
Qed.

Lemma cycle_fails_early :
  w_source_exists w = false \/ dest_ready w backup_dir fs = false \/
  w_walk w = [] \/
  w_open_ok w && target_free name (found backup_dir fs) = false ->
  result_of cycle = Ret false /\ keeps_files fs (fs_after cycle).
Proof.
  intros Hearly.
  destruct (w_source_exists w) eqn:Hs.
  2:{ rewrite (cycle_source_missing _ _ _ _ _ _ _ Hs).
      split; [reflexivity | intros d; reflexivity]. }
  destruct (dest_ready w backup_dir fs) eqn:Hd.
  2:{ rewrite (cycle_dest_refused _ _ _ _ _ _ _ Hs Hd).
      split; [reflexivity | intros d; reflexivity]. }
  destruct (w_walk w) as [|f0 rest] eqn:Hw.
  { rewrite (cycle_empty _ _ _ _ _ _ _ Hs Hd Hw).
    split; [reflexivity | apply ensured_keeps_files]. }
  assert (Hne : w_walk w <> []) by (rewrite Hw; discriminate).
  destruct Hearly as [H | [H | [H | Ho]]]; try discriminate.
  rewrite (cycle_open_refused _ _ _ _ _ _ _ Hs Hd Hne Ho).
  split; [reflexivity | apply ensured_keeps_files].
Qed.

End CycleOutcome.

(** ** The trigger paths *)

Section Triggers.

Lemma create_backup_returns w source_dir backup_dir game_name
    max_backups compress_level fs :
  exists b,
    result_of (create_backup w source_dir backup_dir game_name
                 max_backups compress_level fs) = Ret b.
Proof.
  unfold create_backup, try_except.
  match goal with
  | |- context [match ?body fs with _ => _ end] =>
      destruct (body fs) as [[[b|e] f] o]
  end.
  - now exists b.
  - exists false. unfold bind, print, ret. reflexivity.
Qed.

Lemma create_backup_run w source_dir backup_dir game_name
    max_backups compress_level fs :
  exists b,
    create_backup w source_dir backup_dir game_name
      max_backups compress_level fs
    = (Ret b,
       fs_after (create_backup w source_dir backup_dir game_name
                   max_backups compress_level fs),
       printed (create_backup w source_dir backup_dir game_name
                  max_backups compress_level fs)).
Proof.
  destruct (create_backup_returns w source_dir backup_dir game_name
              max_backups compress_level fs) as [b Hb].
  exists b. rewrite <- Hb. apply run_eta.
Qed.

Lemma scheduler_turn_run w source_dir backup_dir game_name
    max_backups interval_minutes compress_level fs :
  (0 <= interval_minutes)%Z ->
  scheduler_turn create_backup source_dir backup_dir game_name
    max_backups interval_minutes compress_level w fs
  = (Ret tt,
     fs_after (create_backup w source_dir backup_dir game_name
                 max_backups compress_level fs),
     [NextAutomaticIn interval_minutes; Banner; AutomaticOnSchedule; Banner]
     ++ printed (create_backup w source_dir backup_dir game_name
                   max_backups compress_level fs)).
Proof.
  destruct (create_backup_run w source_dir backup_dir game_name
              max_backups compress_level fs) as [b Hb].
  intros Hi. unfold scheduler_turn, time_sleep, bind, print, ret, raise.
  destruct (Z.ltb_spec (interval_minutes * 60) 0) as [Hneg|_]; [lia|].
  rewrite Hb. rewrite fs_after_run, printed_run. cbn [app].
  rewrite ?app_nil_r. reflexivity.
Qed.

Lemma manual_handler_run backup_interval w source_dir backup_dir game_name
    max_backups compress_level fs :
  manual_backup_handler backup_interval create_backup source_dir backup_dir
    game_name max_backups compress_level w fs
  = (Ret tt,
     fs_after (create_backup w source_dir backup_dir game_name
                 max_backups compress_level fs),
     [Banner; ManualTriggered; Banner]
     ++ printed (create_backup w source_dir backup_dir game_name
                   max_backups compress_level fs)
     ++ [NextAutomaticIn backup_interval; Rule]).
Proof.
  destruct (create_backup_run w source_dir backup_dir game_name
              max_backups compress_level fs) as [b Hb].
  unfold manual_backup_handler, bind, print, ret. rewrite Hb.
  rewrite fs_after_run, printed_run. reflexivity.
Qed.

Lemma scheduler_thread_run st wakeups :
  (0 <= BACKUP_INTERVAL st)%Z -> forall fs,
  result_of (scheduler_thread st wakeups fs) = Ret tt /\
  fs_after (scheduler_thread st wakeups fs) = after_cycles st wakeups fs /\
  scheduled_cycles (printed (scheduler_thread st wakeups fs))
  >= List.length wakeups.
Proof.
  intros Hi. unfold scheduler_thread, after_cycles.
  induction wakeups as [|w rest IH]; intros fs.
  - repeat split. cbn. lia.
  - cbn [auto_backup_scheduler fold_left List.length].
    match goal with
    | |- context [bind ?m ?k fs] =>
        rewrite (bind_run m k fs tt _ _ _ _ _
                   (scheduler_turn_run _ _ _ _ _ _ _ _ Hi) (run_eta _))
    end.
    rewrite result_of_run, fs_after_run, printed_run.
    destruct (IH (fs_after (create_backup w (SAVE_DIR st) (BACKUP_DIR st)
                              (GAME_NAME st) (MAX_BACKUPS st)
                              (COMPRESS_LEVEL st) fs)))
      as (H1 & H2 & H3).
    split; [exact H1|]. split; [exact H2|].
    cbn [app scheduled_cycles].
    assert (Happ : forall a b,
              scheduled_cycles (a ++ b) >= scheduled_cycles b).
    { intros a b. induction a as [|m a IHa]; cbn; [lia|].
      destruct m; cbn; lia. }
    specialize (Happ (printed (create_backup w (SAVE_DIR st) (BACKUP_DIR st)
                                 (GAME_NAME st) (MAX_BACKUPS st)
                                 (COMPRESS_LEVEL st) fs))
                  (printed (auto_backup_scheduler create_backup (SAVE_DIR st)
                     (BACKUP_DIR st) (GAME_NAME st) (MAX_BACKUPS st)
                     (BACKUP_INTERVAL st) (COMPRESS_LEVEL st) rest
                     (fs_after (create_backup w (SAVE_DIR st) (BACKUP_DIR st)
                                  (GAME_NAME st) (MAX_BACKUPS st)
                                  (COMPRESS_LEVEL st) fs))))).
    lia.
Qed.

End Triggers.

(* ================================================================== *)
(** * The platform that can fail *)

Section Agreement.

Lemma bind_ext {A B} (m m' : M A) (k k' : A -> M B) :
  (forall fs, m fs = m' fs) -> (forall a fs, k a fs = k' a fs) ->
  forall fs, bind m k fs = bind m' k' fs.
Proof.
  intros Hm Hk fs. unfold bind. rewrite Hm.
  destruct (m' fs) as [[[a|e] fs'] out]; [rewrite Hk|]; reflexivity.
Qed.

Lemma try_except_ext {A} (body body' : M A) (h h' : exn -> M A) :
  (forall fs, body fs = body' fs) -> (forall e fs, h e fs = h' e fs) ->
  forall fs, try_except body h fs = try_except body' h' fs.
Proof.
  intros Hb Hh fs. unfold try_except. rewrite Hb.
  destruct (body' fs) as [[[a|e] fs'] out]; [|rewrite Hh]; reflexivity.
Qed.

(** With a [print] that cannot fail the loop of the [with] block never
    raises. *)
Lemma add_files_returns w zipf source_dir files : forall fs,
  result_of (add_files w zipf source_dir files fs) = Ret tt.
Proof.
  induction files as [|file rest IH]; intros fs; [reflexivity|].
  cbn [add_files]. unfold bind at 1.
  destruct (try_except _ _ fs) as [[[u|e] fs1] o1] eqn:Ht.
  - specialize (IH fs1).
    destruct (add_files w zipf source_dir rest fs1) as [[r f2] o2].
    exact IH.
  - exfalso. unfold try_except in Ht.
    destruct (ZipFile_write _ _ _ _ _ _ fs) as [[[u|e0] f] o];
      [discriminate|].
    unfold print in Ht. discriminate.
Qed.

Variable pf : platform.
Hypothesis Hob : obliging pf.

Lemma print_on_obliging m fs : print_on pf m fs = print m fs.
Proof. unfold print_on, print. now rewrite (proj1 Hob m). Qed.

Lemma remove_old_backup_on_obliging old_backup removed_count fs :
  remove_old_backup_on pf old_backup removed_count fs
  = try_except
      (os_remove (fst old_backup) ;;
       print (OldBackupDeleted (fst old_backup)) ;;
       ret (removed_count + 1)%Z)
      (fun e =>
         print (FailedToDelete (fst old_backup) e) ;;
         ret removed_count) fs.
Proof.
  unfold remove_old_backup_on, try_except, bind, print_on, print, ret.
  destruct (os_remove (fst old_backup) fs) as [[[u|e] fs1] o1];
    rewrite ?(proj1 Hob); cbn; rewrite ?app_nil_r; reflexivity.
Qed.

Lemma removal_loop_on_obliging max_backups backups :
  forall removed_count fs,
    removal_loop_on pf max_backups backups removed_count fs
    = removal_loop max_backups backups removed_count fs.
Proof.
  induction backups as [|old_backup backups IH]; intros rc fs;
    cbn [removal_loop_on removal_loop];
    destruct (_ >? max_backups)%Z; try reflexivity.
  apply bind_ext; [|exact IH].
  intros fs'. apply remove_old_backup_on_obliging.
Qed.

Lemma cleanup_on_obliging backup_dir game_name max_backups fs :
  cleanup_old_backups_on pf backup_dir game_name max_backups fs
  = cleanup_old_backups backup_dir game_name max_backups fs.
Proof.
  unfold cleanup_old_backups_on, cleanup_old_backups.
  apply try_except_ext; [|intros e fs'; apply print_on_obliging].
  intros fs1. apply bind_ext; [reflexivity|]. intros listing fs2. cbv zeta.
  apply bind_ext; [intros fs3; apply removal_loop_on_obliging|].
  intros rc fs3. destruct (rc >? 0)%Z;
    [apply print_on_obliging|reflexivity].
Qed.

Lemma add_files_on_obliging w zipf source_dir files : forall fs,
  add_files_on pf w zipf source_dir files fs
  = add_files w zipf source_dir files fs.
Proof.
  induction files as [|file rest IH]; intros fs; [reflexivity|].
  cbn [add_files_on add_files].
  apply bind_ext; [|intros _ fs'; apply IH].
  apply try_except_ext; [|intros e fs'; apply print_on_obliging].
  intros fs'. cbv zeta. unfold ZipFile_write_on.
  now rewrite (proj2 Hob).
Qed.

Lemma with_block_obliging w opened c source_dir files fs :
  with_commented_ZipFile w opened c
    (fun zipf => add_files_on pf w zipf source_dir files) fs
  = with_ZipFile w opened
      (fun zipf =>
         let zipf := set_comment zipf c in
         add_files w zipf source_dir files ;;
         ret (zipf, tt)) fs.
Proof.
  unfold with_commented_ZipFile, with_ZipFile.
  apply bind_ext; [reflexivity|]. intros zipf fs1. cbv zeta.
  rewrite add_files_on_obliging. unfold bind, ret.
  pose proof (add_files_returns w (set_comment zipf c) source_dir files fs1)
    as Hret.
  destruct (add_files w (set_comment zipf c) source_dir files fs1)
    as [[[[]|e] fs2] o2]; [|discriminate].
  rewrite app_nil_r. reflexivity.
Qed.

Lemma write_and_clean_on_obliging w source_dir backup_dir game_name
    max_backups compress_level files fs :
  write_and_clean_on pf w source_dir backup_dir game_name
    max_backups compress_level files fs
  = write_and_clean w source_dir backup_dir game_name
      max_backups compress_level files fs.
Proof.
  unfold write_and_clean_on, write_and_clean. cbv zeta.
  apply bind_ext; [intros fs1; apply with_block_obliging|].
  intros _ fs1. apply bind_ext; [reflexivity|].
  intros written fs2. destruct written.
  - apply bind_ext; [intros fs3; apply print_on_obliging|].
    intros _ fs3. apply bind_ext; [intros fs4; apply print_on_obliging|].
    intros _ fs4. apply bind_ext; [intros fs5; apply cleanup_on_obliging|].
    reflexivity.
  - apply bind_ext; [intros fs3; apply print_on_obliging|]. reflexivity.
Qed.

(** On an obliging platform a cycle is the cycle of [create_backup]. *)
Lemma create_backup_on_obliging w source_dir backup_dir game_name
    max_backups compress_level fs :
  create_backup_on pf w source_dir backup_dir game_name
    max_backups compress_level fs
  = create_backup w source_dir backup_dir game_name
      max_backups compress_level fs.
Proof.
  unfold create_backup_on, create_backup.
  apply try_except_ext.
  - intros fs1. destruct (negb (w_source_exists w)).
    + apply bind_ext; [intros fs2; apply print_on_obliging|].
      intros _ fs2. apply bind_ext; [intros fs3; apply print_on_obliging|].
      reflexivity.
    + apply bind_ext; [reflexivity|]. intros dest_exists fs2.
      apply bind_ext.
      * intros fs3. destruct (negb dest_exists); [|reflexivity].
        apply bind_ext; [reflexivity|].
        intros _ fs4. apply print_on_obliging.
      * intros _ fs3. cbv zeta.
        destruct (map (os_path_join source_dir) (w_walk w)).
        -- apply bind_ext; [intros fs4; apply print_on_obliging|].
           reflexivity.
        -- apply write_and_clean_on_obliging.
  - intros e fs1. apply bind_ext; [intros fs2; apply print_on_obliging|].
    reflexivity.
Qed.

Lemma f5_hotkey_on_obliging st w fs :
  f5_hotkey_on pf st w fs = f5_hotkey st w fs.
Proof.
  unfold f5_hotkey_on, f5_hotkey, manual_backup_handler_on,
    manual_backup_handler.
  apply bind_ext; [intros fs1; apply print_on_obliging|]. intros _ fs1.
  apply bind_ext; [intros fs2; apply print_on_obliging|]. intros _ fs2.
  apply bind_ext; [intros fs3; apply print_on_obliging|]. intros _ fs3.
  apply bind_ext; [intros fs4; apply create_backup_on_obliging|].
  intros _ fs4.
  apply bind_ext; [intros fs5; apply print_on_obliging|]. intros _ fs5.
  apply print_on_obliging.
Qed.

Lemma time_sleep_on_in_range secs fs :
  (secs <= pf_max_sleep pf)%Z -> time_sleep_on pf secs fs = time_sleep secs fs.
Proof.
  intros H. unfold time_sleep_on, time_sleep.
  destruct (secs <? 0)%Z; [reflexivity|].
  destruct (Z.ltb_spec (pf_max_sleep pf) secs); [lia|reflexivity].
Qed.

Lemma scheduler_thread_on_obliging st wakeups :
  (BACKUP_INTERVAL st * 60 <= pf_max_sleep pf)%Z ->
  forall fs,
    scheduler_thread_on pf st wakeups fs = scheduler_thread st wakeups fs.
Proof.
  intros Hsleep. unfold scheduler_thread_on, scheduler_thread.
  induction wakeups as [|w rest IH]; intros fs; [reflexivity|].
  cbn [auto_backup_scheduler_on auto_backup_scheduler].
  apply bind_ext; [|intros _ fs1; apply IH].
  intros fs1. unfold scheduler_turn_on, scheduler_turn. cbv zeta.
  apply bind_ext; [intros fs2; apply print_on_obliging|]. intros _ fs2.
  apply bind_ext; [intros fs3; now apply time_sleep_on_in_range|].
  intros _ fs3.
  apply bind_ext; [intros fs4; apply print_on_obliging|]. intros _ fs4.
  apply bind_ext; [intros fs5; apply print_on_obliging|]. intros _ fs5.
  apply bind_ext; [intros fs6; apply print_on_obliging|]. intros _ fs6.
  apply bind_ext; [intros fs7; apply create_backup_on_obliging|].
  reflexivity.
Qed.

End Agreement.

Section Escapes.

Variable pf : platform.

(** An exception leaves a cycle only through the [print] of the handler
    at line 202. *)
Lemma create_backup_on_raises w source_dir backup_dir game_name
    max_backups compress_level fs e :
  result_of (create_backup_on pf w source_dir backup_dir game_name
               max_backups compress_level fs) = Raise e ->
  exists e0, pf_stdout pf (ErrorCreatingBackup e0) = Some e.
Proof.
  unfold create_backup_on, try_except.
  match goal with
  | |- context [match ?body fs with _ => _ end] =>
      destruct (body fs) as [[[b|e0] f] o]
  end.
  - discriminate.
  - unfold bind, print_on, ret.
    destruct (pf_stdout pf (ErrorCreatingBackup e0)) as [e1|] eqn:E.
    + cbn. intros [= <-]. now exists e0.
    + cbn. discriminate.
Qed.

Lemma create_backup_on_returns w source_dir backup_dir game_name
    max_backups compress_level fs :
  (forall e0, pf_stdout pf (ErrorCreatingBackup e0) = None) ->
  exists b,
    result_of (create_backup_on pf w source_dir backup_dir game_name
                 max_backups compress_level fs) = Ret b.
Proof.
  intros Hprint.
  destruct (result_of (create_backup_on pf w source_dir backup_dir game_name
                         max_backups compress_level fs)) as [b|e] eqn:E.
  - now exists b.
  - apply create_backup_on_raises in E. destruct E as [e0 E].
    rewrite Hprint in E. discriminate.
Qed.

(** The loop of lines 179-184 on a console that prints: the archive
    gains the member of every file [zipf.write] takes, one line is
    printed for every file it refuses, and the loop never raises. *)
Lemma add_files_on_run w zipf source_dir files :
  (forall m, pf_stdout pf m = None) ->
  forall fs t z l,
    fs (p_dir (zf_path zipf))
    = Some (put_file (p_name (zf_path zipf)) t (Zip z) l) ->
    exists fs',
      add_files_on pf w zipf source_dir files fs
      = (Ret tt, fs', refusal_lines pf w files) /\
      differs_at (p_dir (zf_path zipf))
        (put_file (p_name (zf_path zipf)) t
           (Zip (with_entries z
                   (added_members pf w zipf source_dir files))) l)
        fs fs'.
Proof.
  intros Hprint.
  induction files as [|file rest IH]; intros fs t z l Hd.
  - exists fs. split; [reflexivity|]. split; [|reflexivity].
    rewrite Hd. unfold with_entries, added_members. cbn.
    rewrite app_nil_r. now destruct z.
  - cbn [add_files_on]. unfold added_members, refusal_lines.
    cbn [flat_map]. fold (added_members pf w zipf source_dir rest).
    fold (refusal_lines pf w rest).
    unfold written_or_refused.
    unfold bind, try_except, ZipFile_write_on, ZipFile_write,
      os_path_relpath.
    destruct (pf_write_error pf (p_name file)) as [e|] eqn:He.
    + unfold raise, print_on. rewrite Hprint.
      destruct (IH fs t z l Hd) as (fs' & Hrun & Hdiff).
      rewrite Hrun. exists fs'. split; [reflexivity|]. exact Hdiff.
    + destruct (w_read w (p_name file)) as [data|] eqn:Hr.
      * rewrite (update_archive_put _ _ _ _ _ _ Hd).
        match goal with
        | |- context [add_files_on pf w zipf source_dir rest ?f] =>
            destruct (IH f t
                        {| z_comment := z_comment z;
                           z_entries := z_entries z ++
                             [{| ze_arcname := p_name file; ze_data := data;
                                 ze_compress_type := zf_compression zipf;
                                 ze_compresslevel := zf_compresslevel zipf |}];
                           z_closed := z_closed z |} l)
              as (fs' & Hrun & Hdiff); [apply fs_set_same|]
        end.
        rewrite Hrun. exists fs'. split; [reflexivity|].
        eapply differs_at_trans; [apply differs_at_set|].
        unfold with_entries in *. cbn in *. rewrite <- app_assoc in Hdiff.
        exact Hdiff.
      * unfold raise, print_on. rewrite Hprint.
        destruct (IH fs t z l Hd) as (fs' & Hrun & Hdiff).
        rewrite Hrun. exists fs'. split; [reflexivity|]. exact Hdiff.
Qed.

(** Every file is either added or reported. *)
Lemma added_or_refused w zipf source_dir files :
  List.length (added_members pf w zipf source_dir files)
  + List.length (refusal_lines pf w files)
  = List.length files.
Proof.
  unfold added_members, refusal_lines.
  induction files as [|file rest IH]; [reflexivity|].
  cbn [flat_map]. rewrite !length_app. cbn [List.length].
  destruct (written_or_refused pf w (p_name file)); cbn [List.length]; lia.
Qed.

End Escapes.

Lemma obliging_platform_obliging : obliging obliging_platform.
Proof. split; reflexivity. Qed.

(* ================================================================== *)
(** * Retention *)

Lemma tld_selected (T1 T2 T3 T4 : Z) :
  (T1 < T2)%Z -> (T2 < T3)%Z -> (T3 < T4)%Z ->
  selected "backups" "TLD" (tld_dir T1 T2 T3 T4) 2
  = [ (os_path_join "backups" "TLD_backup_20240101_120000.zip", T1);
      (os_path_join "backups" "TLD_backup_20240102_120000.zip", T2) ].
Proof.
  intros H12 H23 H34.
  assert (Hm : matching "TLD" (tld_dir T1 T2 T3 T4) = tld_dir T1 T2 T3 T4)
    by (vm_compute; reflexivity).
  unfold selected, excess, sorted_backups.
  rewrite collect_backups_matching, Hm.
  cbn [tld_dir List.length map snapshot e_name e_ctime sort_by_ctime
       insert_by_ctime snd].
  repeat match goal with
         | |- context [(?a <=? ?b)%Z] =>
             destruct (Z.leb_spec a b); try lia;
             cbn [insert_by_ctime snd]
         end.
  reflexivity.
Qed.

Lemma cleanup_free_fs backup_dir game_name keep fs l :
  (0 <= keep)%Z ->
  fs backup_dir = Some l ->
  NoDup (map e_name l) ->
  (forall e, In e l -> is_backup_file game_name (e_name e) = true ->
             e_locked e = false) ->
  fs_after (cleanup_old_backups backup_dir game_name keep fs) backup_dir
  = Some (minus backup_dir
            (map fst (selected backup_dir game_name l keep)) l).
Proof.
  intros Hk Hd Hnd Hfree.
  rewrite cleanup_fs, Hd. cbn [option_map].
  now rewrite (cleanup_all_deleted backup_dir game_name keep fs l).
Qed.

Lemma tld_dir_NoDup T1 T2 T3 T4 : NoDup (map e_name (tld_dir T1 T2 T3 T4)).
Proof.
  cbn [tld_dir map snapshot e_name].
  repeat constructor; cbn [In]; intuition discriminate.
Qed.

Lemma tld_dir_free T1 T2 T3 T4 e :
  In e (tld_dir T1 T2 T3 T4) -> e_locked e = false.
Proof.
  cbn [tld_dir In]. intros H.
  repeat (destruct H as [<-|H]; [reflexivity|]). contradiction.
Qed.

Lemma tld_scenario (T1 T2 T3 T4 : Z) :
  (T1 < T2)%Z -> (T2 < T3)%Z -> (T3 < T4)%Z ->
  deletions
    (printed (cleanup_old_backups "backups" "TLD" 2
                (only_dir "backups" (tld_dir T1 T2 T3 T4))))
  = [ os_path_join "backups" "TLD_backup_20240101_120000.zip";
      os_path_join "backups" "TLD_backup_20240102_120000.zip" ]
  /\
  fs_after
    (cleanup_old_backups "backups" "TLD" 2
       (only_dir "backups" (tld_dir T1 T2 T3 T4))) "backups"
  = Some [ snapshot "TLD_backup_20240103_120000.zip" T3;
           snapshot "TLD_backup_20240104_120000.zip" T4 ].
Proof.
  intros H12 H23 H34.
  assert (Hd : only_dir "backups" (tld_dir T1 T2 T3 T4) "backups"
               = Some (tld_dir T1 T2 T3 T4)) by reflexivity.
  assert (Hk : (0 <= 2)%Z) by lia.
  split.
  - rewrite (cleanup_all_deleted _ _ _ _ _ Hk Hd (tld_dir_NoDup _ _ _ _)).
    + now rewrite tld_selected.
    + intros e He _. exact (tld_dir_free _ _ _ _ e He).
  - rewrite (cleanup_free_fs _ _ _ _ _ Hk Hd (tld_dir_NoDup _ _ _ _)).
    + rewrite tld_selected by assumption. vm_compute. reflexivity.
    + intros e He _. exact (tld_dir_free _ _ _ _ e He).
Qed.

(** C1, as the specification words it, fails.  The specification counts
    the snapshots of the label; the code counts the files that pass its
    test of the name.  In a destination shared with the label
    "TLD_backup_old" the label "TLD" has one snapshot, so with a cap of 1
    the specification has nothing deleted; the retention pass counts two
    files, deletes the older, and "TLD" is left without a snapshot. *)
Lemma retention_counts_files_of_other_labels :
  map e_name (descriptors "TLD" mixed_dir)
  = ["TLD_backup_20240101_120000.zip"] /\
  Z.max 0 (Z.of_nat (List.length (descriptors "TLD" mixed_dir)) - 1) = 0%Z /\
  deletions
    (printed (cleanup_old_backups "backups" "TLD" 1
                (only_dir "backups" mixed_dir)))
  = [ os_path_join "backups" "TLD_backup_20240101_120000.zip" ] /\
  fs_after
    (cleanup_old_backups "backups" "TLD" 1 (only_dir "backups" mixed_dir))
    "backups"
  = Some [ snapshot "TLD_backup_old_backup_20240102_000000.zip" 2 ] /\
  descriptors "TLD"
    (found "backups"
       (fs_after (cleanup_old_backups "backups" "TLD" 1
                    (only_dir "backups" mixed_dir))))
  = [].
Proof. repeat split; vm_compute; reflexivity. Qed.

(** C1, amended.  For a cap [keep >= 0] and a destination holding [N]
    files whose names pass the test of the retention pass for the label
    (they start with [<label>_backup_] and end with [.zip]), the pass ends
    normally and tries to delete exactly [max 0 (N - keep)] of them: the
    head of these files ordered by creation time, oldest first, so nothing
    it pops is younger than anything it keeps.  When none of them is
    locked each attempt deletes, and the directory is left with the popped
    files gone.  With a cap of 2 and snapshots stamped
    [T1 < T2 < T3 < T4], the two stamped [T1] and [T2] are deleted and the
    two stamped [T3] and [T4] remain; and a cycle run with a cap of 2 on a
    destination of three snapshots deletes the two oldest and leaves the
    third and the one it wrote.  [N] is the number of snapshots of the
    label when every file passing the test follows the naming convention
    for the label. *)
Theorem retention_deletes_oldest_excess
    (backup_dir game_name : string) (keep : Z) (fs : filesystem)
    (l : directory) :
  (0 <= keep)%Z ->
  fs backup_dir = Some l ->
  let run := cleanup_old_backups backup_dir game_name keep fs in
  let sel := selected backup_dir game_name l keep in
  let kept := retained backup_dir game_name l keep in
  let N := Z.of_nat (List.length (matching game_name l)) in
  result_of run = Ret tt /\
  deletion_attempts (printed run) = map fst sel /\
  Z.of_nat (List.length sel) = Z.max 0 (N - keep) /\
  Permutation (sel ++ kept)
    (map (fun e => (os_path_join backup_dir (e_name e), e_ctime e))
       (matching game_name l)) /\
  (forall x y, In x sel -> In y kept -> older_or_equal x y) /\
  StronglySorted older_or_equal sel /\
  (NoDup (map e_name l) ->
   (forall e, In e l -> is_backup_file game_name (e_name e) = true ->
              e_locked e = false) ->
   deletions (printed run) = map fst sel /\
   fs_after run backup_dir = Some (minus backup_dir (map fst sel) l)) /\
  (forall T1 T2 T3 T4 : Z,
     (T1 < T2)%Z -> (T2 < T3)%Z -> (T3 < T4)%Z ->
     deletions
       (printed (cleanup_old_backups "backups" "TLD" 2
                   (only_dir "backups" (tld_dir T1 T2 T3 T4))))
     = [ os_path_join "backups" "TLD_backup_20240101_120000.zip";
         os_path_join "backups" "TLD_backup_20240102_120000.zip" ]
     /\
     fs_after
       (cleanup_old_backups "backups" "TLD" 2
          (only_dir "backups" (tld_dir T1 T2 T3 T4))) "backups"
     = Some [ snapshot "TLD_backup_20240103_120000.zip" T3;
              snapshot "TLD_backup_20240104_120000.zip" T4 ]) /\
  (deletions
     (printed (create_backup (saves_world "data" (at_noon 0) 40)
                 "saves" "backups" "TLD" 2 6
                 (only_dir "backups" tld_dir_before)))
   = [ os_path_join "backups" "TLD_backup_20240101_120000.zip";
       os_path_join "backups" "TLD_backup_20240102_120000.zip" ]
   /\
   map e_name
     (found "backups"
        (fs_after (create_backup (saves_world "data" (at_noon 0) 40)
                     "saves" "backups" "TLD" 2 6
                     (only_dir "backups" tld_dir_before))))
   = [ "TLD_backup_20240103_120000.zip";
       "TLD_backup_20240105_120007.zip" ]) /\
  ((forall e, In e l -> is_backup_file game_name (e_name e) = true ->
              Spec.follows_convention game_name (e_name e) = true) ->
   matching game_name l = descriptors game_name l).
Proof.
  intros Hk Hd run sel kept N.
  assert (Hsorted : StronglySorted older_or_equal (sel ++ kept)).
  { unfold sel, kept. rewrite selected_retained. apply sort_by_ctime_sorted. }
  split; [apply cleanup_returns|].
  split; [now apply cleanup_attempts|].
  split.
  { unfold sel. rewrite selected_length by exact Hk. unfold excess, N. lia. }
  split.
  { unfold sel, kept. rewrite selected_retained. unfold sorted_backups.
    rewrite <- collect_backups_matching. apply sort_by_ctime_perm. }
  split; [exact (StronglySorted_app_le _ _ _ Hsorted)|].
  split; [exact (StronglySorted_app_l _ _ _ Hsorted)|].
  split.
  { intros Hnd Hfree. split.
    - now apply cleanup_all_deleted.
    - now apply cleanup_free_fs. }
  split; [exact tld_scenario|].
  split; [split; vm_compute; reflexivity|].
  intros Hconv. unfold matching, descriptors. apply filter_ext_in.
  intros e He.
  destruct (is_backup_file game_name (e_name e)) eqn:Hb.
  - symmetry. now apply Hconv.
  - destruct (Spec.follows_convention game_name (e_name e)) eqn:Hf;
      [|reflexivity].
    apply convention_passes_test in Hf. congruence.
Qed.

(** The scenario of C1 run on time stamps 10, 20, 30 and 40. *)
Lemma retention_deletes_oldest_excess_witness :
  (0 <= 2)%Z /\
  only_dir "backups" (tld_dir 10 20 30 40) "backups"
  = Some (tld_dir 10 20 30 40) /\
  deletion_attempts
    (printed (cleanup_old_backups "backups" "TLD" 2
                (only_dir "backups" (tld_dir 10 20 30 40))))
  = map fst (selected "backups" "TLD" (tld_dir 10 20 30 40) 2).
Proof.
  split; [lia|]. split; [reflexivity|].
  assert (Hk : (0 <= 2)%Z) by lia.
  exact (proj1 (proj2
           (retention_deletes_oldest_excess "backups" "TLD" 2
              (only_dir "backups" (tld_dir 10 20 30 40))
              (tld_dir 10 20 30 40) Hk eq_refl))).
Defined.

(** C6, as the specification words it, fails: two snapshots with one
    creation time come out of the sort in listing order, the later name
    first, and with a cap of 1 it is the later name that is deleted. *)
Lemma retention_ties_not_by_name :
  sorted_backups "backups" "TLD" tie_dir
  = [ (os_path_join "backups" "TLD_backup_20240101_120001.zip", 5%Z);
      (os_path_join "backups" "TLD_backup_20240101_120000.zip", 5%Z) ]
  /\ ~ StronglySorted Spec.time_then_name
         (sorted_backups "backups" "TLD" tie_dir)
  /\ deletion_attempts
       (printed (cleanup_old_backups "backups" "TLD" 1
                   (only_dir "backups" tie_dir)))
     = [ os_path_join "backups" "TLD_backup_20240101_120001.zip" ].
Proof.
  assert (Hs : sorted_backups "backups" "TLD" tie_dir
               = [ (os_path_join "backups" "TLD_backup_20240101_120001.zip",
                    5%Z);
                   (os_path_join "backups" "TLD_backup_20240101_120000.zip",
                    5%Z) ]) by (vm_compute; reflexivity).
  split; [exact Hs|]. split.
  - rewrite Hs. intros H. inversion H as [|? ? _ Hall]; subst.
    inversion Hall as [|? ? Hhd _]; subst.
    destruct Hhd as [Hlt | [_ Hname]].
    + simpl in Hlt. lia.
    + vm_compute in Hname. discriminate.
  - vm_compute. reflexivity.
Qed.

(** C6, amended.  The retention pass orders the matching files by
    creation time ascending, oldest first; the ordered list holds the
    matching files and nothing else; and files with one and the same
    creation time stay in the order in which the directory listed them. *)
Theorem retention_order_is_by_ctime_and_stable
    (backup_dir game_name : string) (l : directory) :
  StronglySorted older_or_equal (sorted_backups backup_dir game_name l) /\
  Permutation (sorted_backups backup_dir game_name l)
    (collect_backups backup_dir game_name (listing_of l)) /\
  forall t : Z,
    filter (fun b => (snd b =? t)%Z) (sorted_backups backup_dir game_name l)
    = filter (fun b => (snd b =? t)%Z)
        (collect_backups backup_dir game_name (listing_of l)).
Proof.
  unfold sorted_backups. split; [apply sort_by_ctime_sorted|].
  split; [apply sort_by_ctime_perm|].
  intros t. apply sort_by_ctime_stable.
Qed.

(** C8, as the specification words it, fails: run for the label "TLD"
    with a cap of 0, the retention pass deletes a snapshot of the label
    "TLD_backup_old" and an archive that carries no time stamp, neither of
    which follows the naming convention for "TLD". *)
Lemma retention_deletes_outside_convention :
  deletions
    (printed (cleanup_old_backups "backups" "TLD" 0
                (only_dir "backups" shared_dir)))
  = [ os_path_join "backups" "TLD_backup_old_backup_20240101_000000.zip";
      os_path_join "backups" "TLD_backup_notes.zip";
      os_path_join "backups" "TLD_backup_20240101_120000.zip" ]
  /\ Spec.follows_convention "TLD"
       "TLD_backup_old_backup_20240101_000000.zip" = false
  /\ Spec.follows_convention "TLD_backup_old"
       "TLD_backup_old_backup_20240101_000000.zip" = true
  /\ Spec.follows_convention "TLD" "TLD_backup_notes.zip" = false.
Proof. repeat split; vm_compute; reflexivity. Qed.

(** C8, amended.  The retention pass only ever tries to delete files of
    the destination directory whose names start with [<label>_backup_] and
    end with [.zip]; a file whose name fails that test is still there
    afterwards, and every other directory is left as it was.  Every name
    that follows the naming convention for the label passes the test. *)
Theorem retention_touches_only_tested_names
    (backup_dir game_name : string) (keep : Z) (fs : filesystem) :
  (forall p,
     In p (deletion_attempts
             (printed (cleanup_old_backups backup_dir game_name keep fs))) ->
     exists l e, fs backup_dir = Some l /\ In e l /\
                 is_backup_file game_name (e_name e) = true /\
                 p = os_path_join backup_dir (e_name e)) /\
  (forall l e,
     fs backup_dir = Some l -> In e l ->
     is_backup_file game_name (e_name e) = false ->
     exists l',
       fs_after (cleanup_old_backups backup_dir game_name keep fs) backup_dir
       = Some l' /\ In e l') /\
  (forall d, d <> backup_dir ->
     fs_after (cleanup_old_backups backup_dir game_name keep fs) d = fs d) /\
  (forall name, Spec.follows_convention game_name name = true ->
                is_backup_file game_name name = true).
Proof.
  split; [intros p; apply attempts_are_backups|].
  split.
  { intros l e Hd Hin Hno. rewrite cleanup_fs, Hd. cbn [option_map].
    eexists. split; [reflexivity|].
    apply minus_keeps; [exact Hin|]. intros Hdel.
    apply deletions_are_attempts, attempts_are_backups in Hdel.
    destruct Hdel as (l0 & e0 & _ & _ & Hm & Heq).
    injection Heq as Heq. rewrite Heq, Hm in Hno. discriminate. }
  split.
  { intros d Hne. rewrite cleanup_fs.
    destruct (fs d) as [l|]; cbn [option_map]; [|reflexivity].
    f_equal. apply minus_other_dir. intros p Hp.
    apply deletions_are_attempts, attempts_are_backups in Hp.
    destruct Hp as (l0 & e0 & _ & _ & _ & ->). cbn [os_path_join p_dir].
    congruence. }
  intros name. apply convention_passes_test.
Qed.

(* ================================================================== *)
(** * The archive writer *)

(** C3, as the specification words it, fails: of two cycles started
    within one second both succeed, the second prints no error and adds
    no suffix, and the destination holds one archive, whose member is the
    save file as the second cycle read it. *)
Lemma same_second_cycle_overwrites :
  result_of first_cycle = Ret true /\
  map e_name (found "backups" (fs_after first_cycle))
  = ["TLD_backup_20240105_120007.zip"] /\
  map ze_data
    (members_at "TLD_backup_20240105_120007.zip"
       (found "backups" (fs_after first_cycle)))
  = ["first"] /\
  result_of second_cycle = Ret true /\
  printed second_cycle
  = [BackupCreated "TLD_backup_20240105_120007.zip"; SizeAndFiles 1] /\
  map e_name (found "backups" (fs_after second_cycle))
  = ["TLD_backup_20240105_120007.zip"] /\
  map ze_data
    (members_at "TLD_backup_20240105_120007.zip"
       (found "backups" (fs_after second_cycle)))
  = ["second"].
Proof. repeat split; vm_compute; reflexivity. Qed.

(** C3, amended.  An archive is named
    [<label>_backup_<YYYYMMDD_HHMMSS>.zip] after the clock read to the
    second.  Two cycles whose clock readings lie a second or more apart
    get different names.  Two cycles started within one and the same
    second get one and the same name, and a cycle that finds an unlocked
    file of its archive name in the destination succeeds and replaces the
    content of that file: nothing detects the collision and no suffix is
    added. *)
Theorem archive_names_by_the_second
    (game_name : string) (d1 d2 : datetime) :
  datetime_ok d1 = true ->
  datetime_ok d2 = true ->
  backup_filename_of game_name d1
  = (game_name ++ "_backup_" ++ strftime d1 ++ ".zip")%string /\
  String.length (strftime d1) = 15 /\
  Spec.follows_convention game_name (backup_filename_of game_name d1) = true /\
  ((1000000 <= Z.abs (to_microseconds d2 - to_microseconds d1))%Z ->
   backup_filename_of game_name d1 <> backup_filename_of game_name d2) /\
  (year d1 = year d2 -> month d1 = month d2 -> day d1 = day d2 ->
   hour d1 = hour d2 -> minute d1 = minute d2 -> second d1 = second d2 ->
   backup_filename_of game_name d1 = backup_filename_of game_name d2) /\
  (forall (w : world) (source_dir backup_dir : string)
          (max_backups compress_level : Z) (fs : filesystem) (e : entry),
     w_now w = d1 ->
     all_goes_through w backup_dir game_name fs = true ->
     lookup (backup_filename_of game_name d1) (found backup_dir fs) = Some e ->
     exists fs2,
       differs_at backup_dir
         (overwrite (backup_filename_of game_name d1) (w_ctime w)
            (Zip (archive_of w source_dir backup_dir game_name))
            (found backup_dir fs))
         fs fs2 /\
       result_of (create_backup w source_dir backup_dir game_name
                    max_backups compress_level fs) = Ret true /\
       fs_after (create_backup w source_dir backup_dir game_name
                   max_backups compress_level fs)
       = fs_after (cleanup_old_backups backup_dir game_name max_backups fs2)).
Proof.
  intros H1 H2.
  split; [reflexivity|]. split; [reflexivity|].
  split; [apply backup_filename_follows_convention|].
  split; [now apply names_differ_a_second_apart|].
  split; [apply names_agree_within_a_second|].
  intros w source_dir backup_dir max_backups compress_level fs e Hnow Hall Hl.
  subst d1. unfold all_goes_through in Hall.
  rewrite !andb_true_iff in Hall.
  destruct Hall as [[[[[Hs Hd] Hw] Ho] Hf] Hc].
  assert (Hwalk : w_walk w <> [])
    by (destruct (w_walk w); [discriminate | discriminate]).
  assert (Hopen : w_open_ok w
                  && target_free (backup_filename_of game_name (w_now w))
                       (found backup_dir fs) = true)
    by (now rewrite Ho, Hf).
  destruct (cycle_success w source_dir backup_dir game_name max_backups
              compress_level fs Hs Hd Hwalk Hopen Hc) as (fs2 & Hdiff & Hrun).
  exists fs2. unfold put_file in Hdiff. rewrite Hl in Hdiff.
  split; [exact Hdiff|]. now rewrite Hrun.
Qed.

(** C3 amended, at two readings of the clock half a second apart. *)
Lemma archive_names_by_the_second_witness :
  datetime_ok (at_noon 0) = true /\
  datetime_ok (at_noon 500000) = true /\
  Spec.follows_convention "TLD" (backup_filename_of "TLD" (at_noon 0)) = true.
Proof.
  split; [reflexivity|]. split; [reflexivity|].
  exact (proj1 (proj2 (proj2
           (archive_names_by_the_second "TLD" (at_noon 0) (at_noon 500000)
              eq_refl eq_refl)))).
Defined.

(** C4.  The level is clamped into [0,9], and the clamped level goes
    nowhere: a cycle does the same whatever level it is given, and every
    member of the archive carries [zipfile]'s default level, here for the
    configured levels 9 and 0. *)
Theorem compress_level_never_reaches_the_archive :
  (forall c : Z, (0 <= clamp_level c <= 9)%Z) /\
  (forall (w : world) (source_dir backup_dir game_name : string)
          (max_backups c1 c2 : Z) (fs : filesystem),
     create_backup w source_dir backup_dir game_name max_backups c1 fs
     = create_backup w source_dir backup_dir game_name max_backups c2 fs) /\
  clamp_level 9 = 9%Z /\
  map ze_compresslevel
    (members_at "TLD_backup_20240105_120007.zip"
       (found "backups"
          (fs_after (create_backup (saves_world "data" (at_noon 0) 100)
                       "saves" "backups" "TLD" 50 9 no_fs))))
  = [None] /\
  clamp_level 0 = 0%Z /\
  map ze_compresslevel
    (members_at "TLD_backup_20240105_120007.zip"
       (found "backups"
          (fs_after (create_backup (saves_world "data" (at_noon 0) 100)
                       "saves" "backups" "TLD" 50 0 no_fs))))
  = [None].
Proof.
  split; [intros c; unfold clamp_level; lia|].
  split; [reflexivity|].
  repeat split; vm_compute; reflexivity.
Qed.

(** C5, as the specification words it, fails.  When closing the archive
    fails the cycle fails and the destination holds, under the final
    name, an archive without its central directory.  When the save folder
    vanishes after it was walked the cycle reports success and leaves an
    archive with no member. *)
Lemma failed_cycle_leaves_partial_archive :
  result_of (create_backup full_disk_world "saves" "backups" "TLD" 50 6 no_fs)
  = Ret false /\
  map e_name
    (found "backups"
       (fs_after (create_backup full_disk_world
                    "saves" "backups" "TLD" 50 6 no_fs)))
  = ["TLD_backup_20240105_120007.zip"] /\
  complete_at "TLD_backup_20240105_120007.zip"
    (found "backups"
       (fs_after (create_backup full_disk_world
                    "saves" "backups" "TLD" 50 6 no_fs)))
  = false /\
  result_of (create_backup vanishing_world "saves" "backups" "TLD" 50 6 no_fs)
  = Ret true /\
  map e_name
    (found "backups"
       (fs_after (create_backup vanishing_world
                    "saves" "backups" "TLD" 50 6 no_fs)))
  = ["TLD_backup_20240105_120007.zip"] /\
  members_at "TLD_backup_20240105_120007.zip"
    (found "backups"
       (fs_after (create_backup vanishing_world
                    "saves" "backups" "TLD" 50 6 no_fs)))
  = [].
Proof. repeat split; vm_compute; reflexivity. Qed.

(** C5, amended.  For a label that is a single path component, a
    successful cycle writes one archive into the
    destination directory, straight under its final name and complete: the
    retention pass starts from the destination as it was found with that
    one file put in, a new entry when no file of the name was there.  No
    temporary name is used and nothing is renamed or cleaned up.  A cycle
    that fails without having opened the archive (save folder missing,
    destination not creatable, no file found, which is what a save folder
    gone before the walk comes to, archive not openable) leaves every file
    of the destination as it was. *)
Theorem cycle_writes_archive_in_place
    (w : world) (source_dir backup_dir game_name : string)
    (max_backups compress_level : Z) (fs : filesystem) :
  plain_label game_name = true ->
  (result_of (create_backup w source_dir backup_dir game_name
                max_backups compress_level fs) = Ret true ->
   exists fs2,
     differs_at backup_dir
       (put_file (backup_filename_of game_name (w_now w)) (w_ctime w)
          (Zip (archive_of w source_dir backup_dir game_name))
          (found backup_dir fs))
       fs fs2 /\
     z_closed (archive_of w source_dir backup_dir game_name) = true /\
     fs_after (create_backup w source_dir backup_dir game_name
                 max_backups compress_level fs)
     = fs_after (cleanup_old_backups backup_dir game_name max_backups fs2)) /\
  (forall c,
     lookup (backup_filename_of game_name (w_now w)) (found backup_dir fs)
     = None ->
     put_file (backup_filename_of game_name (w_now w)) (w_ctime w) c
       (found backup_dir fs)
     = found backup_dir fs
       ++ [{| e_name := backup_filename_of game_name (w_now w);
              e_ctime := w_ctime w; e_locked := false; e_content := c |}]) /\
  (w_source_exists w = false \/ dest_ready w backup_dir fs = false \/
   w_walk w = [] \/
   w_open_ok w
   && target_free (backup_filename_of game_name (w_now w))
        (found backup_dir fs) = false ->
   result_of (create_backup w source_dir backup_dir game_name
                max_backups compress_level fs) = Ret false /\
   keeps_files fs
     (fs_after (create_backup w source_dir backup_dir game_name
                  max_backups compress_level fs))).
Proof.
  intros _.
  pose proof (cycle_outcome w source_dir backup_dir game_name max_backups
                compress_level fs) as Hc.
  split; [|split].
  - intros Htrue.
    destruct Hc as [(Hf & _) | [(_ & Hf & _) | (_ & _ & _ & fs2 & Hd & Hrun)]];
      try (rewrite Hf in Htrue; discriminate).
    exists fs2. split; [exact Hd|]. split; [reflexivity|]. now rewrite Hrun.
  - intros c Hl. unfold put_file. now rewrite Hl.
  - apply cycle_fails_early.
Qed.

(** C5 amended, at the label "TLD" and a save folder that is missing. *)
Lemma cycle_writes_archive_in_place_witness :
  plain_label "TLD" = true /\
  result_of (create_backup missing_world "saves" "backups" "TLD" 50 6 no_fs)
  = Ret false /\
  keeps_files no_fs
    (fs_after (create_backup missing_world "saves" "backups" "TLD" 50 6
                 no_fs)).
Proof.
  split; [reflexivity|].
  exact (proj2 (proj2
           (cycle_writes_archive_in_place missing_world "saves" "backups"
              "TLD" 50 6 no_fs eq_refl))
           (or_introl eq_refl)).
Defined.

(** C7.  When the save folder exists, the destination is or can be made a
    directory, and walking the save folder finds no file, the cycle fails,
    the last thing it prints is that there are no files in the save
    folder, and no file is put into the destination: every directory
    holds the files it held. *)
Theorem empty_source_is_refused
    (w : world) (source_dir backup_dir game_name : string)
    (max_backups compress_level : Z) (fs : filesystem) :
  w_source_exists w = true ->
  dest_ready w backup_dir fs = true ->
  w_walk w = [] ->
  result_of (create_backup w source_dir backup_dir game_name
               max_backups compress_level fs) = Ret false /\
  printed (create_backup w source_dir backup_dir game_name
             max_backups compress_level fs)
  = found_messages backup_dir fs ++ [NoFilesInSaveFolder source_dir] /\
  keeps_files fs
    (fs_after (create_backup w source_dir backup_dir game_name
                 max_backups compress_level fs)) /\
  forall name,
    lookup name
      (found backup_dir
         (fs_after (create_backup w source_dir backup_dir game_name
                      max_backups compress_level fs)))
    = lookup name (found backup_dir fs).
Proof.
  intros Hs Hd Hw.
  rewrite (cycle_empty _ _ _ _ _ _ _ Hs Hd Hw).
  rewrite result_of_run, printed_run, fs_after_run.
  split; [reflexivity|]. split; [reflexivity|].
  split; [apply ensured_keeps_files|].
  intros name. now rewrite (ensured_keeps_files backup_dir fs backup_dir).
Qed.

(** C7 on a save folder without files and a destination not yet there. *)
Lemma empty_source_is_refused_witness :
  w_source_exists empty_world = true /\
  dest_ready empty_world "backups" no_fs = true /\
  w_walk empty_world = [] /\
  result_of (create_backup empty_world "saves" "backups" "TLD" 50 6 no_fs)
  = Ret false.
Proof.
  split; [reflexivity|]. split; [reflexivity|]. split; [reflexivity|].
  exact (proj1 (empty_source_is_refused empty_world "saves" "backups" "TLD"
                  50 6 no_fs eq_refl eq_refl eq_refl)).
Defined.

(* ================================================================== *)
(** * The trigger paths *)




(** C10.  The F5 handler and a turn of the scheduler call the same
    backup function with the same source directory, backup directory,
    label, cap and level.  They leave the same file system and print the
    same about the cycle, hence the same deletions; what differs is the
    lines printed around the cycle.  (The scheduler reaches its call once
    it has slept, which takes an interval that is not negative.) *)
Theorem manual_and_scheduled_cycles_agree
    (st : settings) (w : world) (fs : filesystem) :
  (forall (backup_func : backup_function)
          (source_dir backup_dir game_name : string)
          (max_backups interval compress_level : Z),
     fs_after (manual_backup_handler interval backup_func source_dir
                 backup_dir game_name max_backups compress_level w fs)
     = fs_after (backup_func w source_dir backup_dir game_name
                   max_backups compress_level fs) /\
     ((0 <= interval)%Z ->
      fs_after (scheduler_turn backup_func source_dir backup_dir game_name
                  max_backups interval compress_level w fs)
      = fs_after (backup_func w source_dir backup_dir game_name
                    max_backups compress_level fs))) /\
  f5_hotkey st w fs
  = (Ret tt,
     fs_after (create_backup w (SAVE_DIR st) (BACKUP_DIR st) (GAME_NAME st)
                 (MAX_BACKUPS st) (COMPRESS_LEVEL st) fs),
     [Banner; ManualTriggered; Banner]
     ++ printed (create_backup w (SAVE_DIR st) (BACKUP_DIR st) (GAME_NAME st)
                   (MAX_BACKUPS st) (COMPRESS_LEVEL st) fs)
     ++ [NextAutomaticIn (BACKUP_INTERVAL st); Rule]) /\
  ((0 <= BACKUP_INTERVAL st)%Z ->
   scheduler_thread st [w] fs
   = (Ret tt,
      fs_after (create_backup w (SAVE_DIR st) (BACKUP_DIR st) (GAME_NAME st)
                  (MAX_BACKUPS st) (COMPRESS_LEVEL st) fs),
      [NextAutomaticIn (BACKUP_INTERVAL st); Banner; AutomaticOnSchedule;
       Banner]
      ++ printed (create_backup w (SAVE_DIR st) (BACKUP_DIR st) (GAME_NAME st)
                    (MAX_BACKUPS st) (COMPRESS_LEVEL st) fs)) /\
   deletions (printed (f5_hotkey st w fs))
   = deletions (printed (scheduler_thread st [w] fs))).
Proof.
  assert (Hm := manual_handler_run (BACKUP_INTERVAL st) w (SAVE_DIR st)
                  (BACKUP_DIR st) (GAME_NAME st) (MAX_BACKUPS st)
                  (COMPRESS_LEVEL st) fs).
  split.
  { intros backup_func source_dir backup_dir game_name max_backups interval
      compress_level.
    unfold manual_backup_handler, scheduler_turn, time_sleep, bind, print,
      ret, raise, fs_after.
    split.
    - destruct (backup_func w source_dir backup_dir game_name max_backups
                  compress_level fs) as [[[b|e] f] o]; reflexivity.
    - intros Hi.
      destruct (Z.ltb_spec (interval * 60) 0) as [Hneg|_]; [lia|].
      destruct (backup_func w source_dir backup_dir game_name max_backups
                  compress_level fs) as [[[b|e] f] o]; reflexivity. }
  split; [exact Hm|].
  intros Hi.
  assert (Hs : scheduler_thread st [w] fs
               = (Ret tt,
                  fs_after (create_backup w (SAVE_DIR st) (BACKUP_DIR st)
                              (GAME_NAME st) (MAX_BACKUPS st)
                              (COMPRESS_LEVEL st) fs),
                  [NextAutomaticIn (BACKUP_INTERVAL st); Banner;
                   AutomaticOnSchedule; Banner]
                  ++ printed (create_backup w (SAVE_DIR st) (BACKUP_DIR st)
                                (GAME_NAME st) (MAX_BACKUPS st)
                                (COMPRESS_LEVEL st) fs))).
  { unfold scheduler_thread. cbn [auto_backup_scheduler].
    unfold bind at 1. rewrite scheduler_turn_run by exact Hi. unfold ret.
    now rewrite app_nil_r. }
  split; [exact Hs|].
  unfold f5_hotkey. rewrite Hm, Hs, !printed_run.
  rewrite !deletions_app. cbn [deletions app]. now rewrite app_nil_r.
Qed.

(* ================================================================== *)
(** * Cycles at the same time *)

(** C2, as the specification words it, fails: with the scheduler inside
    a cycle, F5 is taken and a second cycle runs at the same time. *)
Lemma two_cycles_run_at_once :
  Threads.run Threads.idle
    [Threads.Trigger Threads.SchedulerThread;
     Threads.Trigger Threads.HotkeyThread]
  = Some {| Threads.main_thread := Threads.Waiting;
            Threads.scheduler := Threads.InCycle;
            Threads.hotkey := Threads.InCycle |}
  /\ Threads.running
       {| Threads.main_thread := Threads.Waiting;
          Threads.scheduler := Threads.InCycle;
          Threads.hotkey := Threads.InCycle |} = 2.
Proof. split; reflexivity. Qed.

(** C2, amended.  No trigger is ever turned down as busy: a trigger that
    reaches a thread not itself inside the backup function starts a cycle
    on it whatever the other threads are doing, which adds one to the
    cycles running and leaves the other threads as they are.  A thread
    runs its own cycles one after the other, so at most three cycles, one
    per thread, run at once. *)
Theorem triggers_are_never_turned_down
    (s : Threads.system) (t : Threads.thread) :
  Threads.activity_of s t = Threads.Waiting ->
  exists s',
    Threads.step s (Threads.Trigger t) = Some s' /\
    Threads.activity_of s' t = Threads.InCycle /\
    Threads.running s' = S (Threads.running s) /\
    (forall t', t' <> t ->
                Threads.activity_of s' t' = Threads.activity_of s t') /\
    Threads.step s' (Threads.Trigger t) = None /\
    Threads.running s' <= 3.
Proof.
  intros Hw. unfold Threads.step. rewrite Hw. eexists. split; [reflexivity|].
  destruct s as [m sc hk], t; cbn in Hw; subst;
    (split; [reflexivity|]);
    (split; [unfold Threads.running; cbn; lia|]);
    (split; [intros t' Ht; destruct t'; cbn; congruence|]);
    (split; [reflexivity|]);
    unfold Threads.running; cbn;
    repeat match goal with a : Threads.activity |- _ => destruct a end;
    cbn; lia.
Qed.

(** C2 amended, at F5 pressed while the scheduler is inside a cycle. *)
Lemma triggers_are_never_turned_down_witness :
  Threads.activity_of
    {| Threads.main_thread := Threads.Waiting;
       Threads.scheduler := Threads.InCycle;
       Threads.hotkey := Threads.Waiting |} Threads.HotkeyThread
  = Threads.Waiting /\
  exists s',
    Threads.step
      {| Threads.main_thread := Threads.Waiting;
         Threads.scheduler := Threads.InCycle;
         Threads.hotkey := Threads.Waiting |}
      (Threads.Trigger Threads.HotkeyThread) = Some s' /\
    Threads.running s' = 2.
Proof.
  split; [reflexivity|].
  destruct (triggers_are_never_turned_down
              {| Threads.main_thread := Threads.Waiting;
                 Threads.scheduler := Threads.InCycle;
                 Threads.hotkey := Threads.Waiting |}
              Threads.HotkeyThread eq_refl)
    as (s' & Hstep & _ & Hrun & _).
  exists s'. split; [exact Hstep | exact Hrun].
Defined.

(* ================================================================== *)
(** * Further properties of the retention pass *)

Section RetentionMore.

Lemma removal_loop_under_cap max backups rc fs :
  (Z.of_nat (List.length backups) <= max)%Z ->
  removal_loop max backups rc fs = (Ret rc, fs, []).
Proof.
  intros H. destruct backups as [|b bs].
  - cbn in *. destruct (Z.gtb_spec 0 max); [lia | reflexivity].
  - now apply removal_loop_stop.
Qed.

Lemma cleanup_under_cap backup_dir game_name keep fs l :
  fs backup_dir = Some l ->
  (Z.of_nat (List.length (matching game_name l)) <= keep)%Z ->
  cleanup_old_backups backup_dir game_name keep fs = (Ret tt, fs, []).
Proof.
  intros Hd Hn. unfold cleanup_old_backups, try_except, bind, os_listdir.
  rewrite Hd. fold (listing_of l). fold (sorted_backups backup_dir game_name l).
  rewrite removal_loop_under_cap
    by (rewrite sorted_backups_length; exact Hn).
  reflexivity.
Qed.

Lemma failed_deletions_app (a b : list message) :
  failed_deletions (a ++ b) = failed_deletions a ++ failed_deletions b.
Proof.
  induction a as [|m a IH]; simpl; [reflexivity|].
  destruct m; simpl; rewrite ?IH; reflexivity.
Qed.

Lemma removable_without_other (lc : directory) (p q : path) :
  p_dir q = p_dir p -> q <> p ->
  removable (without (p_name p) lc) q = removable lc q.
Proof.
  intros Hd Hne. unfold removable. rewrite lookup_without_other; [reflexivity|].
  intros Hn. apply Hne. destruct p, q. cbn in *. congruence.
Qed.

Lemma in_map_fst_firstn {A B} (n : nat) (l : list (A * B)) (x : A) :
  In x (map fst (firstn n l)) -> In x (map fst l).
Proof.
  intros H. apply in_map_iff in H. destruct H as [y [<- Hy]].
  apply in_map, (in_firstn n), Hy.
Qed.

(** What the loop deletes and what it fails on, file by file, and the
    count it returns. *)
Lemma removal_loop_deletions max backups : forall rc fs d lc,
  fs d = Some lc ->
  NoDup (map fst backups) ->
  (forall p, In p (map fst backups) -> p_dir p = d) ->
  deletions (printed (removal_loop max backups rc fs))
  = filter (removable lc)
      (map fst (firstn (Z.to_nat (Z.of_nat (List.length backups) - max))
                  backups)) /\
  failed_deletions (printed (removal_loop max backups rc fs))
  = filter (fun p => negb (removable lc p))
      (map fst (firstn (Z.to_nat (Z.of_nat (List.length backups) - max))
                  backups)) /\
  ((0 <= max)%Z ->
   result_of (removal_loop max backups rc fs)
   = Ret (rc + Z.of_nat
                 (List.length
                    (deletions (printed (removal_loop max backups rc fs)))))%Z).
Proof.
  induction backups as [|b bs IH]; intros rc fs d lc Hd Hnd Hdir.
  - destruct (removal_loop_nil max rc fs) as [_ [Hp Hr]]. rewrite Hp.
    rewrite firstn_nil. split; [reflexivity|]. split; [reflexivity|].
    intros Hm. rewrite (Hr Hm). cbn. f_equal. lia.
  - destruct (Z.le_gt_cases (Z.of_nat (List.length (b :: bs))) max) as [Hle|Hgt].
    + rewrite removal_loop_stop by exact Hle.
      replace (Z.to_nat _) with 0%nat by lia.
      rewrite printed_run, result_of_run.
      split; [reflexivity|]. split; [reflexivity|].
      intros _. cbn. f_equal. lia.
    + rewrite removal_loop_go by lia.
      replace (Z.to_nat (Z.of_nat (List.length (b :: bs)) - max))
        with (S (Z.to_nat (Z.of_nat (List.length bs) - max)))
        by (cbn [List.length] in *; lia).
      cbn [firstn map filter].
      cbn [map] in Hnd, Hdir. inversion Hnd as [|? ? Hnotin Hnd']; subst.
      assert (Hb : p_dir (fst b) = d) by (apply Hdir; now left).
      assert (Hrest : forall p, In p (map fst bs) -> p_dir p = d)
        by (intros p Hp; apply Hdir; now right).
      destruct (remove_attempt_run (fst b) rc fs)
        as [(l0 & e0 & Hd0 & Hl0 & Hk0 & Hrun) | (ex & Hrun & Hfail)].
      * rewrite Hb, Hd in Hd0. injection Hd0 as <-.
        assert (Hfree : removable lc (fst b) = true)
          by (unfold removable; now rewrite Hl0, Hk0).
        rewrite Hfree. cbn [negb].
        rewrite Hb in Hrun.
        destruct (IH (rc + 1)%Z
                    (fs_set fs d (Some (without (p_name (fst b)) lc)))
                    d (without (p_name (fst b)) lc)
                    (fs_set_same _ _ _) Hnd' Hrest) as (I1 & I2 & I3).
        destruct (removal_loop max bs (rc + 1)
                    (fs_set fs d (Some (without (p_name (fst b)) lc))))
          as [[r2 f2] o2] eqn:Hk2.
        rewrite (bind_run _ (fun x => removal_loop max bs x)
                   _ _ _ _ _ _ _ Hrun Hk2).
        rewrite printed_run, result_of_run in *.
        rewrite deletions_app, failed_deletions_app. cbn [deletions
          failed_deletions app].
        assert (Hext : forall q,
                  In q (map fst (firstn (Z.to_nat
                          (Z.of_nat (List.length bs) - max)) bs)) ->
                  removable (without (p_name (fst b)) lc) q
                  = removable lc q).
        { intros q Hq. apply in_map_fst_firstn in Hq.
          apply removable_without_other.
          - rewrite Hb. now apply Hrest.
          - intros ->. contradiction. }
        rewrite I1, I2.
        rewrite (filter_ext_in _ _ _ Hext).
        rewrite (filter_ext_in
                   (fun p => negb (removable (without (p_name (fst b)) lc) p))
                   (fun p => negb (removable lc p))).
        2:{ intros q Hq. now rewrite Hext. }
        repeat split. intros Hm. rewrite (I3 Hm). f_equal.
        rewrite I1, (filter_ext_in _ _ _ Hext). cbn [List.length]. lia.
      * assert (Hfree : removable lc (fst b) = false).
        { unfold removable. destruct (lookup (p_name (fst b)) lc) as [e|] eqn:Hl;
            [|reflexivity].
          rewrite Hb in Hfail. now rewrite (Hfail lc e Hd Hl). }
        rewrite Hfree. cbn [negb].
        destruct (IH rc fs d lc Hd Hnd' Hrest) as (I1 & I2 & I3).
        destruct (removal_loop max bs rc fs) as [[r2 f2] o2] eqn:Hk2.
        rewrite (bind_run _ (fun x => removal_loop max bs x)
                   _ _ _ _ _ _ _ Hrun Hk2).
        rewrite printed_run, result_of_run in *.
        rewrite deletions_app, failed_deletions_app. cbn [deletions
          failed_deletions app].
        rewrite I1, I2. repeat split. intros Hm. rewrite (I3 Hm).
        now rewrite I1.
Qed.

Lemma remove_attempt_present (p : path) (rc : Z) (fs : filesystem) l e :
  fs (p_dir p) = Some l ->
  lookup (p_name p) l = Some e ->
  try_except
    (os_remove p ;; print (OldBackupDeleted p) ;; ret (rc + 1)%Z)
    (fun e => print (FailedToDelete p e) ;; ret rc) fs
  = if e_locked e
    then (Ret rc, fs, [FailedToDelete p PermissionError])
    else (Ret (rc + 1)%Z,
          fs_set fs (p_dir p) (Some (without (p_name p) l)),
          [OldBackupDeleted p]).
Proof.
  intros Hd Hl. unfold try_except, bind, os_remove, print, ret.
  rewrite Hd, Hl. now destruct (e_locked e).
Qed.

(** The loop prints one line per file it pops: deleted, or failed on a
    locked file. *)
Lemma removal_loop_log max backups : forall rc fs d lc,
  fs d = Some lc ->
  NoDup (map fst backups) ->
  (forall p, In p (map fst backups) ->
     p_dir p = d /\ lookup (p_name p) lc <> None) ->
  printed (removal_loop max backups rc fs)
  = map (line_for lc)
      (map fst (firstn (Z.to_nat (Z.of_nat (List.length backups) - max))
                  backups)).
Proof.
  induction backups as [|b bs IH]; intros rc fs d lc Hd Hnd Hall.
  - destruct (removal_loop_nil max rc fs) as [_ [-> _]].
    now rewrite firstn_nil.
  - destruct (Z.le_gt_cases (Z.of_nat (List.length (b :: bs))) max) as [Hle|Hgt].
    + rewrite removal_loop_stop by exact Hle.
      replace (Z.to_nat _) with 0%nat by lia. reflexivity.
    + rewrite removal_loop_go by lia.
      replace (Z.to_nat (Z.of_nat (List.length (b :: bs)) - max))
        with (S (Z.to_nat (Z.of_nat (List.length bs) - max)))
        by (cbn [List.length] in *; lia).
      cbn [firstn map].
      cbn [map] in Hnd, Hall. inversion Hnd as [|? ? Hnotin Hnd']; subst.
      destruct (Hall (fst b) (or_introl eq_refl)) as [Hb Hsome].
      destruct (lookup (p_name (fst b)) lc) as [e|] eqn:Hl; [|congruence].
      rewrite <- Hb in Hd.
      pose proof (remove_attempt_present (fst b) rc fs lc e Hd Hl) as Hrun.
      unfold line_for at 1, removable at 1. rewrite Hl.
      destruct (e_locked e) eqn:Hk; cbn [negb].
      * assert (Hrest : forall p, In p (map fst bs) ->
                  p_dir p = p_dir (fst b) /\ lookup (p_name p) lc <> None).
        { intros p Hp. destruct (Hall p (or_intror Hp)) as [H1 H2].
          split; [congruence | exact H2]. }
        pose proof (IH rc fs (p_dir (fst b)) lc Hd Hnd' Hrest) as I1.
        destruct (removal_loop max bs rc fs) as [[r2 f2] o2] eqn:Hk2.
        rewrite (bind_run _ (fun x => removal_loop max bs x)
                   _ _ _ _ _ _ _ Hrun Hk2).
        rewrite printed_run in *. now rewrite I1.
      * assert (Hrest : forall p, In p (map fst bs) ->
                  p_dir p = p_dir (fst b) /\
                  lookup (p_name p) (without (p_name (fst b)) lc) <> None).
        { intros p Hp. destruct (Hall p (or_intror Hp)) as [H1 H2].
          split; [congruence|].
          rewrite lookup_without_other; [exact H2|].
          intros Hn. apply Hnotin.
          replace (fst b) with p; [exact Hp|].
          destruct p, (fst b). cbn in *. congruence. }
        pose proof (IH (rc + 1)%Z
                      (fs_set fs (p_dir (fst b))
                         (Some (without (p_name (fst b)) lc)))
                      (p_dir (fst b)) (without (p_name (fst b)) lc)
                      (fs_set_same _ _ _) Hnd' Hrest) as I1.
        destruct (removal_loop max bs (rc + 1)
                    (fs_set fs (p_dir (fst b))
                       (Some (without (p_name (fst b)) lc))))
          as [[r2 f2] o2] eqn:Hk2.
        rewrite (bind_run _ (fun x => removal_loop max bs x)
                   _ _ _ _ _ _ _ Hrun Hk2).
        rewrite printed_run in *. rewrite I1. cbn [app]. f_equal.
        apply map_ext_in. intros q Hq. unfold line_for.
        rewrite removable_without_other; [reflexivity | |].
        -- apply in_map_fst_firstn in Hq.
           destruct (Hall q (or_intror Hq)) as [H1 _]. congruence.
        -- intros ->. apply Hnotin. now apply in_map_fst_firstn in Hq.
Qed.

Lemma deletions_lines l ps :
  deletions (map (line_for l) ps) = filter (removable l) ps.
Proof.
  induction ps as [|p ps IH]; [reflexivity|]. cbn [map filter].
  unfold line_for at 1. destruct (removable l p); cbn; now rewrite IH.
Qed.

Lemma failed_deletions_lines l ps :
  failed_deletions (map (line_for l) ps)
  = filter (fun p => negb (removable l p)) ps.
Proof.
  induction ps as [|p ps IH]; [reflexivity|]. cbn [map filter].
  unfold line_for at 1. destruct (removable l p); cbn; now rewrite IH.
Qed.

Lemma sorted_backups_paths backup_dir game_name l p :
  In p (map fst (sorted_backups backup_dir game_name l)) ->
  p_dir p = backup_dir /\ lookup (p_name p) l <> None.
Proof.
  intros Hp. apply in_map_iff in Hp. destruct Hp as [x [<- Hx]].
  apply sorted_backups_in in Hx. destruct Hx as (e & Hin & _ & ->).
  cbn [fst os_path_join p_dir p_name]. split; [reflexivity|].
  destruct (lookup_in (e_name e) l e Hin eq_refl) as (e' & -> & _).
  discriminate.
Qed.

Lemma selected_any_cap backup_dir game_name l keep :
  firstn (Z.to_nat (Z.of_nat (List.length
                                (sorted_backups backup_dir game_name l))
                    - keep))
    (sorted_backups backup_dir game_name l)
  = selected backup_dir game_name l keep.
Proof.
  unfold selected, excess. rewrite sorted_backups_length.
  f_equal. lia.
Qed.

(** The retention pass in full, for a directory with distinct names. *)
Lemma cleanup_report backup_dir game_name keep fs l :
  (0 <= keep)%Z ->
  fs backup_dir = Some l ->
  NoDup (map e_name l) ->
  exists fs',
    differs_at backup_dir
      (minus backup_dir
         (filter (removable l)
            (map fst (selected backup_dir game_name l keep))) l)
      fs fs' /\
    cleanup_old_backups backup_dir game_name keep fs
    = (Ret tt, fs',
       map (line_for l) (map fst (selected backup_dir game_name l keep))
       ++ summary (List.length
                     (filter (removable l)
                        (map fst (selected backup_dir game_name l keep))))).
Proof.
  intros Hk Hd Hnd.
  pose proof (sorted_backups_NoDup backup_dir game_name l Hnd) as Hnd'.
  pose proof (removal_loop_log keep (sorted_backups backup_dir game_name l)
                0%Z fs backup_dir l Hd Hnd'
                (sorted_backups_paths backup_dir game_name l)) as Hlog.
  assert (Hdirs : forall p,
            In p (map fst (sorted_backups backup_dir game_name l)) ->
            p_dir p = backup_dir)
    by (intros p Hp; now apply (sorted_backups_paths backup_dir game_name l)).
  destruct (removal_loop_deletions keep
              (sorted_backups backup_dir game_name l) 0%Z fs backup_dir l
              Hd Hnd' Hdirs) as (_ & _ & Hres).
  specialize (Hres Hk).
  pose proof (removal_loop_fs keep (sorted_backups backup_dir game_name l)
                0%Z fs) as Hfs.
  rewrite selected_any_cap in Hlog.
  rewrite Hlog in Hres, Hfs. rewrite deletions_lines in Hres, Hfs.
  exists (fs_after (removal_loop keep (sorted_backups backup_dir game_name l)
                      0%Z fs)).
  split.
  - split.
    + now rewrite Hfs, Hd.
    + intros d Hne. rewrite Hfs. destruct (fs d) as [ld|]; [|reflexivity].
      cbn [option_map]. f_equal. apply minus_other_dir.
      intros p Hp. apply filter_In in Hp. destruct Hp as [Hp _].
      apply in_map_fst_firstn in Hp. rewrite (Hdirs p Hp). congruence.
  - unfold cleanup_old_backups, try_except, bind, os_listdir.
    rewrite Hd. fold (listing_of l).
    fold (sorted_backups backup_dir game_name l).
    rewrite (run_eta (removal_loop keep _ 0%Z fs)), Hres, Hlog.
    cbn [Z.add].
    set (n := List.length
                (filter (removable l)
                   (map fst (selected backup_dir game_name l keep)))).
    destruct n as [|n']; cbn [summary].
    + reflexivity.
    + destruct (Z.gtb_spec (Z.of_nat (S n')) 0); [reflexivity | lia].
Qed.

End RetentionMore.

(** X1.  When the destination holds no more files matching the label
    than the cap allows, the retention pass deletes nothing, prints
    nothing and leaves the file system as it is. *)
Theorem retention_under_cap_does_nothing
    (backup_dir game_name : string) (keep : Z) (fs : filesystem)
    (l : directory) :
  fs backup_dir = Some l ->
  (Z.of_nat (List.length (matching game_name l)) <= keep)%Z ->
  cleanup_old_backups backup_dir game_name keep fs = (Ret tt, fs, []).
Proof. apply cleanup_under_cap. Qed.

(** X1 on the four snapshots of the scenario and a cap of 4. *)
Lemma retention_under_cap_does_nothing_witness :
  only_dir "backups" (tld_dir 10 20 30 40) "backups"
  = Some (tld_dir 10 20 30 40) /\
  (Z.of_nat (List.length (matching "TLD" (tld_dir 10 20 30 40))) <= 4)%Z /\
  cleanup_old_backups "backups" "TLD" 4
    (only_dir "backups" (tld_dir 10 20 30 40))
  = (Ret tt, only_dir "backups" (tld_dir 10 20 30 40), []).
Proof.
  assert (Hn : (Z.of_nat (List.length (matching "TLD" (tld_dir 10 20 30 40)))
                <= 4)%Z) by (vm_compute; discriminate).
  split; [reflexivity|]. split; [exact Hn|].
  exact (retention_under_cap_does_nothing "backups" "TLD" 4
           (only_dir "backups" (tld_dir 10 20 30 40))
           (tld_dir 10 20 30 40) eq_refl Hn).
Defined.

(** X2.  A file the retention pass cannot delete does not stop it.  For
    a destination with distinct file names and a cap [keep >= 0], the pass
    ends normally, prints one line for each of the oldest excess files in
    turn, deleted or failed, deletes those of them that are not locked and
    leaves the locked ones, and its closing line counts the files it
    deleted, not the ones it tried. *)
Theorem retention_survives_failed_deletes
    (backup_dir game_name : string) (keep : Z) (fs : filesystem)
    (l : directory) :
  (0 <= keep)%Z ->
  fs backup_dir = Some l ->
  NoDup (map e_name l) ->
  result_of (cleanup_old_backups backup_dir game_name keep fs) = Ret tt /\
  printed (cleanup_old_backups backup_dir game_name keep fs)
  = map (line_for l) (map fst (selected backup_dir game_name l keep))
    ++ summary (List.length
                  (filter (removable l)
                     (map fst (selected backup_dir game_name l keep)))) /\
  deletions (printed (cleanup_old_backups backup_dir game_name keep fs))
  = filter (removable l) (map fst (selected backup_dir game_name l keep)) /\
  failed_deletions
    (printed (cleanup_old_backups backup_dir game_name keep fs))
  = filter (fun p => negb (removable l p))
      (map fst (selected backup_dir game_name l keep)) /\
  fs_after (cleanup_old_backups backup_dir game_name keep fs) backup_dir
  = Some (minus backup_dir
            (filter (removable l)
               (map fst (selected backup_dir game_name l keep))) l).
Proof.
  intros Hk Hd Hnd.
  destruct (cleanup_report backup_dir game_name keep fs l Hk Hd Hnd)
    as (fs' & [Hfs _] & ->).
  rewrite result_of_run, printed_run, fs_after_run.
  split; [reflexivity|]. split; [reflexivity|].
  assert (Hs : forall n, deletions (summary n) = []
                         /\ failed_deletions (summary n) = [])
    by (intros [|n]; split; reflexivity).
  rewrite deletions_app, failed_deletions_app, deletions_lines,
    failed_deletions_lines.
  destruct (Hs (List.length
                  (filter (removable l)
                     (map fst (selected backup_dir game_name l keep)))))
    as [-> ->].
  rewrite !app_nil_r. repeat split. exact Hfs.
Qed.

(** X2 on three snapshots, the oldest locked, and a cap of 1. *)
Lemma retention_survives_failed_deletes_witness :
  (0 <= 1)%Z /\
  only_dir "backups" locked_dir "backups" = Some locked_dir /\
  NoDup (map e_name locked_dir) /\
  printed (cleanup_old_backups "backups" "TLD" 1
             (only_dir "backups" locked_dir))
  = [ FailedToDelete
        (os_path_join "backups" "TLD_backup_20240101_120000.zip")
        PermissionError;
      OldBackupDeleted
        (os_path_join "backups" "TLD_backup_20240102_120000.zip");
      OldBackupsDeleted 1 ].
Proof.
  assert (Hk : (0 <= 1)%Z) by lia.
  assert (Hnd : NoDup (map e_name locked_dir))
    by (cbn; repeat constructor; cbn; intuition discriminate).
  split; [exact Hk|]. split; [reflexivity|]. split; [exact Hnd|].
  etransitivity.
  - exact (proj1 (proj2
             (retention_survives_failed_deletes "backups" "TLD" 1
                (only_dir "backups" locked_dir) locked_dir Hk eq_refl Hnd))).
  - vm_compute. reflexivity.
Defined.

Section RetentionKeeps.

Lemma Permutation_filter_same {A} (f : A -> bool) (l l' : list A) :
  Permutation l l' -> Permutation (filter f l) (filter f l').
Proof.
  intros H. induction H as [|x l l' H IH|x y l|l l' l'' H1 IH1 H2 IH2].
  - constructor.
  - cbn. destruct (f x); [now constructor | exact IH].
  - cbn. destruct (f x), (f y); try apply Permutation_refl. apply perm_swap.
  - eapply perm_trans; eassumption.
Qed.

Lemma filter_none {A} (f : A -> bool) (l : list A) :
  (forall x, In x l -> f x = false) -> filter f l = [].
Proof.
  intros H. rewrite (filter_ext_in f (fun _ => false) l H).
  apply filter_false.
Qed.

Lemma filter_all {A} (f : A -> bool) (l : list A) :
  (forall x, In x l -> f x = true) -> filter f l = l.
Proof.
  intros H. rewrite (filter_ext_in f (fun _ => true) l H).
  apply filter_true.
Qed.

Lemma NoDup_app_apart {A} (l1 l2 : list A) (x : A) :
  NoDup (l1 ++ l2) -> In x l1 -> ~ In x l2.
Proof.
  induction l1 as [|a l1 IH]; cbn; intros Hnd Hin; [contradiction|].
  inversion Hnd as [|? ? Hn Hnd']; subst.
  destruct Hin as [->|Hin].
  - intros Hx. apply Hn, in_or_app. now right.
  - now apply IH.
Qed.

(** Taking the popped paths out of the popped and kept backups leaves
    the kept ones. *)
Lemma popped_out (sel kept : list (path * Z)) :
  NoDup (map fst (sel ++ kept)) ->
  filter (fun x => negb (existsb (path_eqb (fst x)) (map fst sel)))
    (sel ++ kept)
  = kept.
Proof.
  intros Hnd. rewrite filter_app, filter_none, filter_all; [reflexivity| |].
  - intros y Hy. apply negb_true_iff, not_true_is_false. intros Hex.
    apply existsb_exists in Hex. destruct Hex as [p [Hp Heq]].
    apply path_eqb_eq in Heq. subst p. rewrite map_app in Hnd.
    apply (NoDup_app_apart _ _ (fst y) Hnd Hp). now apply in_map.
  - intros x Hx. apply negb_false_iff, existsb_exists.
    exists (fst x). split; [now apply in_map | apply path_eqb_refl].
Qed.

Lemma matching_minus game_name d ps l :
  matching game_name (minus d ps l) = minus d ps (matching game_name l).
Proof.
  unfold matching, minus. rewrite !filter_twice. apply filter_ext.
  intros e. apply andb_comm.
Qed.

Lemma stamped_minus d ps l :
  map (stamped d) (minus d ps l)
  = filter (fun x => negb (existsb (path_eqb (fst x)) ps))
      (map (stamped d) l).
Proof. unfold minus. now rewrite filter_map_swap. Qed.

Lemma others_minus game_name backup_dir l ps :
  (forall p, In p ps ->
     exists e, is_backup_file game_name (e_name e) = true /\
               p = os_path_join backup_dir (e_name e)) ->
  filter (fun e => negb (is_backup_file game_name (e_name e)))
    (minus backup_dir ps l)
  = filter (fun e => negb (is_backup_file game_name (e_name e))) l.
Proof.
  intros H. unfold minus. rewrite filter_twice. apply filter_ext. intros e.
  destruct (is_backup_file game_name (e_name e)) eqn:Hm; cbn [negb];
    [apply andb_false_r|].
  rewrite andb_true_r. apply negb_true_iff, not_true_is_false. intros Hex.
  unfold listed_in in Hex. apply existsb_exists in Hex.
  destruct Hex as [p [Hp Heq]]. apply path_eqb_eq in Heq. subst p.
  destruct (H _ Hp) as (e' & Hm' & Heq). injection Heq as Heq.
  rewrite Heq, Hm' in Hm. discriminate.
Qed.

(** With nothing locked the pass leaves, of the files matching the
    label, the ones it kept, and every other file. *)
Lemma cleanup_keeps_newest backup_dir game_name keep fs l :
  (0 <= keep)%Z ->
  fs backup_dir = Some l ->
  NoDup (map e_name l) ->
  (forall e, In e l -> is_backup_file game_name (e_name e) = true ->
             e_locked e = false) ->
  exists l',
    fs_after (cleanup_old_backups backup_dir game_name keep fs) backup_dir
    = Some l' /\
    Permutation (map (stamped backup_dir) (matching game_name l'))
      (retained backup_dir game_name l keep) /\
    filter (fun e => negb (is_backup_file game_name (e_name e))) l'
    = filter (fun e => negb (is_backup_file game_name (e_name e))) l /\
    NoDup (map e_name l') /\
    (forall e, In e l' -> In e l).
Proof.
  intros Hk Hd Hnd Hfree.
  exists (minus backup_dir (map fst (selected backup_dir game_name l keep)) l).
  split; [now apply cleanup_free_fs|].
  split; [|split; [|split]].
  - rewrite matching_minus, stamped_minus.
    eapply perm_trans.
    + apply Permutation_filter_same. apply Permutation_sym.
      change (map (stamped backup_dir) (matching game_name l))
        with (map (fun e => (os_path_join backup_dir (e_name e), e_ctime e))
                (matching game_name l)).
      rewrite <- collect_backups_matching.
      apply sort_by_ctime_perm.
    + fold (sorted_backups backup_dir game_name l).
      rewrite <- (selected_retained backup_dir game_name l keep) at 1.
      rewrite popped_out; [apply Permutation_refl|].
      rewrite selected_retained. now apply sorted_backups_NoDup.
  - apply others_minus. intros p Hp. apply in_map_iff in Hp.
    destruct Hp as [x [<- Hx]]. apply in_firstn in Hx.
    apply sorted_backups_in in Hx. destruct Hx as (e & _ & Hm & ->).
    exists e. now split.
  - unfold minus.
    assert (Hsub : forall (f : entry -> bool) (m : directory),
              NoDup (map e_name m) -> NoDup (map e_name (filter f m))).
    { intros f m. induction m as [|a m IH]; cbn; intros H; [constructor|].
      inversion H as [|? ? Hn Hr]; subst.
      destruct (f a); cbn; [|now apply IH].
      constructor; [|now apply IH].
      intros Hin. apply Hn. apply in_map_iff in Hin.
      destruct Hin as [x [Hx Hxin]]. apply filter_In in Hxin.
      apply in_map_iff. exists x. tauto. }
    now apply Hsub.
  - intros e He. unfold minus in He. apply filter_In in He. tauto.
Qed.

End RetentionKeeps.

(** X3.  After a retention pass with cap [keep >= 0] over a destination
    with distinct file names and no matching file locked, the files
    matching the label that remain are the [min N keep] newest of the [N]
    there were, and every file not matching the label is still there, in
    the order it was listed. *)
Theorem retention_leaves_the_newest
    (backup_dir game_name : string) (keep : Z) (fs : filesystem)
    (l : directory) :
  (0 <= keep)%Z ->
  fs backup_dir = Some l ->
  NoDup (map e_name l) ->
  (forall e, In e l -> is_backup_file game_name (e_name e) = true ->
             e_locked e = false) ->
  exists l',
    fs_after (cleanup_old_backups backup_dir game_name keep fs) backup_dir
    = Some l' /\
    Permutation (map (stamped backup_dir) (matching game_name l'))
      (retained backup_dir game_name l keep) /\
    Z.of_nat (List.length (matching game_name l'))
    = Z.min (Z.of_nat (List.length (matching game_name l))) keep /\
    (forall x y,
       In x (selected backup_dir game_name l keep) ->
       In y (map (stamped backup_dir) (matching game_name l')) ->
       older_or_equal x y) /\
    filter (fun e => negb (is_backup_file game_name (e_name e))) l'
    = filter (fun e => negb (is_backup_file game_name (e_name e))) l.
Proof.
  intros Hk Hd Hnd Hfree.
  destruct (cleanup_keeps_newest backup_dir game_name keep fs l Hk Hd Hnd
              Hfree) as (l' & Hfs & Hperm & Hothers & _).
  exists l'. split; [exact Hfs|]. split; [exact Hperm|].
  split; [|split; [|exact Hothers]].
  - rewrite <- (length_map (stamped backup_dir)).
    rewrite (Permutation_length Hperm). unfold retained.
    rewrite length_skipn, sorted_backups_length. unfold excess. lia.
  - intros x y Hx Hy. apply (Permutation_in _ Hperm) in Hy.
    apply (StronglySorted_app_le older_or_equal
             (selected backup_dir game_name l keep)
             (retained backup_dir game_name l keep)); try assumption.
    rewrite selected_retained. apply sort_by_ctime_sorted.
Qed.

(** X3 on the four snapshots of the scenario and a cap of 2. *)
Lemma retention_leaves_the_newest_witness :
  (0 <= 2)%Z /\
  only_dir "backups" (tld_dir 10 20 30 40) "backups"
  = Some (tld_dir 10 20 30 40) /\
  NoDup (map e_name (tld_dir 10 20 30 40)) /\
  (forall e, In e (tld_dir 10 20 30 40) ->
             is_backup_file "TLD" (e_name e) = true -> e_locked e = false) /\
  exists l',
    fs_after (cleanup_old_backups "backups" "TLD" 2
                (only_dir "backups" (tld_dir 10 20 30 40))) "backups"
    = Some l' /\
    Z.of_nat (List.length (matching "TLD" l')) = 2%Z.
Proof.
  assert (Hk : (0 <= 2)%Z) by lia.
  assert (Hfree : forall e, In e (tld_dir 10 20 30 40) ->
                    is_backup_file "TLD" (e_name e) = true ->
                    e_locked e = false)
    by (intros e He _; exact (tld_dir_free 10 20 30 40 e He)).
  split; [exact Hk|]. split; [reflexivity|].
  split; [apply tld_dir_NoDup|]. split; [exact Hfree|].
  destruct (retention_leaves_the_newest "backups" "TLD" 2
              (only_dir "backups" (tld_dir 10 20 30 40))
              (tld_dir 10 20 30 40) Hk eq_refl (tld_dir_NoDup 10 20 30 40)
              Hfree) as (l' & Hfs & _ & Hn & _).
  exists l'. split; [exact Hfs|]. rewrite Hn. vm_compute. reflexivity.
Defined.

(** X4.  Retention is idempotent: run again on what it left, with the
    same cap and nothing locked, it deletes nothing, prints nothing and
    changes nothing. *)
Theorem retention_twice_is_retention_once
    (backup_dir game_name : string) (keep : Z) (fs : filesystem)
    (l : directory) :
  (0 <= keep)%Z ->
  fs backup_dir = Some l ->
  NoDup (map e_name l) ->
  (forall e, In e l -> is_backup_file game_name (e_name e) = true ->
             e_locked e = false) ->
  cleanup_old_backups backup_dir game_name keep
    (fs_after (cleanup_old_backups backup_dir game_name keep fs))
  = (Ret tt, fs_after (cleanup_old_backups backup_dir game_name keep fs), []).
Proof.
  intros Hk Hd Hnd Hfree.
  destruct (cleanup_keeps_newest backup_dir game_name keep fs l Hk Hd Hnd
              Hfree) as (l' & Hfs & Hperm & _).
  apply (cleanup_under_cap backup_dir game_name keep _ l' Hfs).
  rewrite <- (length_map (stamped backup_dir)).
  rewrite (Permutation_length Hperm). unfold retained.
  rewrite length_skipn, sorted_backups_length. unfold excess. lia.
Qed.

(** X4 on the four snapshots of the scenario and a cap of 2. *)
Lemma retention_twice_is_retention_once_witness :
  (0 <= 2)%Z /\
  only_dir "backups" (tld_dir 10 20 30 40) "backups"
  = Some (tld_dir 10 20 30 40) /\
  NoDup (map e_name (tld_dir 10 20 30 40)) /\
  (forall e, In e (tld_dir 10 20 30 40) ->
             is_backup_file "TLD" (e_name e) = true -> e_locked e = false) /\
  printed
    (cleanup_old_backups "backups" "TLD" 2
       (fs_after (cleanup_old_backups "backups" "TLD" 2
                    (only_dir "backups" (tld_dir 10 20 30 40)))))
  = [].
Proof.
  assert (Hk : (0 <= 2)%Z) by lia.
  assert (Hfree : forall e, In e (tld_dir 10 20 30 40) ->
                    is_backup_file "TLD" (e_name e) = true ->
                    e_locked e = false)
    by (intros e He _; exact (tld_dir_free 10 20 30 40 e He)).
  split; [exact Hk|]. split; [reflexivity|].
  split; [apply tld_dir_NoDup|]. split; [exact Hfree|].
  rewrite (retention_twice_is_retention_once "backups" "TLD" 2
             (only_dir "backups" (tld_dir 10 20 30 40))
             (tld_dir 10 20 30 40) Hk eq_refl (tld_dir_NoDup 10 20 30 40)
             Hfree).
  reflexivity.
Defined.

Section NegativeCap.

Lemma removal_loop_negative max backups : (max < 0)%Z -> forall rc fs,
  result_of (removal_loop max backups rc fs) = Raise IndexError.
Proof.
  intros Hneg. induction backups as [|b bs IH]; intros rc fs.
  - cbn. destruct (Z.gtb_spec 0 max); [reflexivity | lia].
  - rewrite removal_loop_go by lia.
    destruct (remove_attempt_run (fst b) rc fs)
      as [(l & e & _ & _ & _ & Hrun) | (ex & Hrun & _)];
      rewrite (bind_ret_run _ _ _ _ _ _ Hrun), result_of_run; apply IH.
Qed.

Lemma cleanup_closing backup_dir game_name keep fs l :
  fs backup_dir = Some l ->
  cleanup_old_backups backup_dir game_name keep fs
  = (Ret tt,
     fs_after (removal_loop keep (sorted_backups backup_dir game_name l)
                 0%Z fs),
     printed (removal_loop keep (sorted_backups backup_dir game_name l)
                0%Z fs)
     ++ closing_lines
          (result_of (removal_loop keep
                        (sorted_backups backup_dir game_name l) 0%Z fs))).
Proof.
  intros Hd. unfold cleanup_old_backups, try_except, bind, os_listdir.
  rewrite Hd. fold (listing_of l).
  fold (sorted_backups backup_dir game_name l).
  destruct (removal_loop keep _ 0%Z fs) as [[[rc|ex] f] o];
    rewrite fs_after_run, printed_run, result_of_run; cbn [closing_lines].
  - destruct (rc >? 0)%Z; reflexivity.
  - reflexivity.
Qed.

(** The pass for a cap of any sign, on a directory with distinct
    names: which files go, and what is printed before the closing
    line. *)
Lemma cleanup_any_cap backup_dir game_name keep fs l :
  fs backup_dir = Some l ->
  NoDup (map e_name l) ->
  exists tail,
    printed (cleanup_old_backups backup_dir game_name keep fs)
    = map (line_for l) (map fst (selected backup_dir game_name l keep))
      ++ tail /\
    deletions tail = [] /\
    ((keep < 0)%Z -> tail = [ErrorCleaningUp IndexError]) /\
    fs_after (cleanup_old_backups backup_dir game_name keep fs) backup_dir
    = Some (minus backup_dir
              (filter (removable l)
                 (map fst (selected backup_dir game_name l keep))) l).
Proof.
  intros Hd Hnd.
  pose proof (sorted_backups_NoDup backup_dir game_name l Hnd) as Hnd'.
  pose proof (removal_loop_log keep (sorted_backups backup_dir game_name l)
                0%Z fs backup_dir l Hd Hnd'
                (sorted_backups_paths backup_dir game_name l)) as Hlog.
  rewrite selected_any_cap in Hlog.
  pose proof (removal_loop_fs keep (sorted_backups backup_dir game_name l)
                0%Z fs backup_dir) as Hfs.
  rewrite Hlog, deletions_lines, Hd in Hfs. cbn [option_map] in Hfs.
  rewrite (cleanup_closing backup_dir game_name keep fs l Hd).
  rewrite printed_run, fs_after_run, Hlog.
  eexists. split; [reflexivity|]. split; [|split; [|exact Hfs]].
  - destruct (result_of _) as [rc|ex]; cbn [closing_lines];
      [destruct (rc >? 0)%Z|]; reflexivity.
  - intros Hk.
    now rewrite (removal_loop_negative keep
                   (sorted_backups backup_dir game_name l) Hk).
Qed.

Lemma selected_all backup_dir game_name l keep :
  (keep <= 0)%Z ->
  selected backup_dir game_name l keep = sorted_backups backup_dir game_name l.
Proof.
  intros Hk. unfold selected. apply firstn_all2.
  rewrite sorted_backups_length. unfold excess. lia.
Qed.

(** Taking every backup out leaves no file matching the label. *)
Lemma matching_minus_all backup_dir game_name l :
  (forall e, In e l -> is_backup_file game_name (e_name e) = true ->
             e_locked e = false) ->
  matching game_name
    (minus backup_dir
       (filter (removable l)
          (map fst (sorted_backups backup_dir game_name l))) l)
  = [].
Proof.
  intros Hfree. rewrite matching_minus. unfold minus. apply filter_none.
  intros e He. unfold matching in He. apply filter_In in He.
  destruct He as [Hin Hm]. apply negb_false_iff.
  unfold listed_in. apply existsb_exists.
  exists (os_path_join backup_dir (e_name e)). split; [|apply path_eqb_refl].
  apply filter_In. split.
  - unfold sorted_backups.
    assert (Hc : In (os_path_join backup_dir (e_name e), e_ctime e)
                   (collect_backups backup_dir game_name (listing_of l))).
    { rewrite collect_backups_matching. apply in_map_iff. exists e.
      split; [reflexivity|]. unfold matching. apply filter_In. now split. }
    apply (Permutation_in _ (Permutation_sym (sort_by_ctime_perm _))) in Hc.
    apply in_map_iff. eexists. split; [|exact Hc]. reflexivity.
  - unfold removable. cbn [os_path_join p_name].
    destruct (lookup_in (e_name e) l e Hin eq_refl) as (e' & -> & Hin' & Hn').
    apply negb_true_iff. apply Hfree; [exact Hin'|]. now rewrite Hn'.
Qed.

End NegativeCap.

(** X5.  A negative cap empties the destination of backups and ends in
    an error the pass absorbs.  On a destination with distinct file names
    the pass pops every file matching the label, oldest first, deletes
    the ones not locked, then fails on the emptied list: instead of the
    closing count it prints the error, and it still ends normally.  With
    nothing locked no file matching the label is left. *)
Theorem retention_with_negative_cap
    (backup_dir game_name : string) (keep : Z) (fs : filesystem)
    (l : directory) :
  (keep < 0)%Z ->
  fs backup_dir = Some l ->
  NoDup (map e_name l) ->
  result_of (cleanup_old_backups backup_dir game_name keep fs) = Ret tt /\
  printed (cleanup_old_backups backup_dir game_name keep fs)
  = map (line_for l) (map fst (sorted_backups backup_dir game_name l))
    ++ [ErrorCleaningUp IndexError] /\
  fs_after (cleanup_old_backups backup_dir game_name keep fs) backup_dir
  = Some (minus backup_dir
            (filter (removable l)
               (map fst (sorted_backups backup_dir game_name l))) l) /\
  ((forall e, In e l -> is_backup_file game_name (e_name e) = true ->
              e_locked e = false) ->
   matching game_name
     (found backup_dir
        (fs_after (cleanup_old_backups backup_dir game_name keep fs)))
   = []).
Proof.
  intros Hk Hd Hnd.
  destruct (cleanup_any_cap backup_dir game_name keep fs l Hd Hnd)
    as (tail & Hp & _ & Ht & Hfs).
  rewrite (Ht Hk) in Hp. rewrite selected_all in Hp, Hfs by lia.
  split; [apply cleanup_returns|]. split; [exact Hp|]. split; [exact Hfs|].
  intros Hfree. unfold found. rewrite Hfs. now apply matching_minus_all.
Qed.

(** X5 on the four snapshots of the scenario and a cap of -1. *)
Lemma retention_with_negative_cap_witness :
  (-1 < 0)%Z /\
  only_dir "backups" (tld_dir 10 20 30 40) "backups"
  = Some (tld_dir 10 20 30 40) /\
  NoDup (map e_name (tld_dir 10 20 30 40)) /\
  fs_after (cleanup_old_backups "backups" "TLD" (-1)
              (only_dir "backups" (tld_dir 10 20 30 40))) "backups"
  = Some [].
Proof.
  assert (Hk : (-1 < 0)%Z) by lia.
  split; [exact Hk|]. split; [reflexivity|].
  split; [apply tld_dir_NoDup|].
  etransitivity.
  - exact (proj1 (proj2 (proj2
             (retention_with_negative_cap "backups" "TLD" (-1)
                (only_dir "backups" (tld_dir 10 20 30 40))
                (tld_dir 10 20 30 40) Hk eq_refl
                (tld_dir_NoDup 10 20 30 40))))).
  - vm_compute. reflexivity.
Defined.

(* ================================================================== *)
(** * Further properties of the cycle *)

Section PutFile.

Lemma overwrite_names n t c l : map e_name (overwrite n t c l) = map e_name l.
Proof.
  unfold overwrite. rewrite map_map. apply map_ext. intros e.
  now destruct (e_name e =? n)%string.
Qed.

Lemma lookup_none_names n l : lookup n l = None -> ~ In n (map e_name l).
Proof.
  intros Hl Hin. apply in_map_iff in Hin. destruct Hin as [e [Hn He]].
  unfold lookup in Hl. apply (find_none _ _ Hl) in He.
  apply String.eqb_neq in He. contradiction.
Qed.

Lemma put_file_NoDup n t c l :
  NoDup (map e_name l) -> NoDup (map e_name (put_file n t c l)).
Proof.
  intros Hnd. unfold put_file. destruct (lookup n l) eqn:Hl.
  - now rewrite overwrite_names.
  - rewrite map_app. cbn [map e_name]. apply NoDup_app; [exact Hnd | |].
    + repeat constructor. intros [].
    + intros a Ha [Heq|[]]. subst a. now apply (lookup_none_names n l Hl).
Qed.

(** An entry of the directory after the write was there before, with
    its lock, or is the file written. *)
Lemma put_file_in n t c l e :
  In e (put_file n t c l) ->
  (e_name e <> n /\ In e l) \/
  (e_name e = n /\ e_ctime e = t /\ e_content e = c /\
   (e_locked e = false \/
    exists e0, In e0 l /\ e_name e0 = n /\ e_locked e0 = e_locked e)).
Proof.
  unfold put_file. destruct (lookup n l) as [old|] eqn:Hl.
  - unfold overwrite. intros Hin. apply in_map_iff in Hin.
    destruct Hin as [x [<- Hx]].
    destruct (String.eqb_spec (e_name x) n) as [Hn|Hn].
    + right. cbn. repeat split; try assumption. right. now exists x.
    + left. now split.
  - intros Hin. apply in_app_or in Hin. destruct Hin as [Hin|[<-|[]]].
    + left. split; [|exact Hin]. intros Hn.
      apply (lookup_none_names n l Hl). rewrite <- Hn. now apply in_map.
    + right. cbn. repeat split. now left.
Qed.

Lemma put_file_free game_name n t c l :
  (forall e, In e l -> is_backup_file game_name (e_name e) = true ->
             e_locked e = false) ->
  forall e, In e (put_file n t c l) ->
            is_backup_file game_name (e_name e) = true -> e_locked e = false.
Proof.
  intros Hfree e Hin Hm.
  destruct (put_file_in n t c l e Hin)
    as [[_ Hl] | (Hn & _ & _ & [Hk | (e0 & Hin0 & Hn0 & Hk0)])].
  - now apply Hfree.
  - exact Hk.
  - rewrite <- Hk0. apply Hfree; [exact Hin0|]. now rewrite Hn0, <- Hn.
Qed.

Lemma put_file_others game_name n t c l :
  is_backup_file game_name n = true ->
  filter (fun e => negb (is_backup_file game_name (e_name e)))
    (put_file n t c l)
  = filter (fun e => negb (is_backup_file game_name (e_name e))) l.
Proof.
  intros Hm. unfold put_file. destruct (lookup n l) eqn:Hl.
  - unfold overwrite. induction l as [|a l IH] in Hl |- *; [reflexivity|].
    cbn [map filter]. unfold lookup in Hl, IH. cbn [find] in Hl.
    destruct (String.eqb_spec (e_name a) n) as [Hn|Hn].
    + cbn [e_name]. rewrite Hn, Hm. cbn [negb].
      clear IH Hl. induction l as [|b l IH]; [reflexivity|].
      cbn [map filter].
      destruct (String.eqb_spec (e_name b) n) as [Hb|Hb].
      * cbn [e_name]. now rewrite Hb, Hm.
      * now rewrite IH.
    + now rewrite (IH Hl).
  - rewrite filter_app. cbn [filter e_name]. rewrite Hm. cbn [negb].
    apply app_nil_r.
Qed.

Lemma NoDup_names_same (l : directory) (a b : entry) :
  NoDup (map e_name l) -> In a l -> In b l -> e_name a = e_name b -> a = b.
Proof.
  induction l as [|x l IH]; cbn; intros Hnd Ha Hb Hn; [contradiction|].
  inversion Hnd as [|? ? Hnot Hnd']; subst.
  destruct Ha as [->|Ha], Hb as [->|Hb].
  - reflexivity.
  - exfalso. apply Hnot. rewrite Hn. now apply in_map.
  - exfalso. apply Hnot. rewrite <- Hn. now apply in_map.
  - now apply IH.
Qed.

End PutFile.

Section CycleRetention.

Lemma own_name_is_backup game_name now :
  is_backup_file game_name (backup_filename_of game_name now) = true.
Proof.
  apply convention_passes_test, backup_filename_follows_convention.
Qed.

Lemma all_goes_through_parts w backup_dir game_name fs :
  all_goes_through w backup_dir game_name fs = true ->
  w_source_exists w = true /\ dest_ready w backup_dir fs = true /\
  w_walk w <> [] /\
  w_open_ok w
  && target_free (backup_filename_of game_name (w_now w))
       (found backup_dir fs) = true /\
  w_close_ok w = true.
Proof.
  unfold all_goes_through. rewrite !andb_true_iff.
  intros [[[[[Hs Hd] Hw] Ho] Hf] Hc].
  repeat split; try assumption.
  destruct (w_walk w); discriminate.
Qed.

End CycleRetention.

(** X6.  With a cap of 0 or less a cycle deletes the archive it has just
    written.  For a label that is a single path component, when every
    step goes through, on a destination with distinct file names and no
    backup locked, the cycle returns [True] and leaves no file matching
    the label in the destination, the new archive included; the files not
    matching the label stay. *)
Theorem cycle_with_no_cap_keeps_no_backup
    (w : world) (source_dir backup_dir game_name : string)
    (max_backups compress_level : Z) (fs : filesystem) :
  plain_label game_name = true ->
  all_goes_through w backup_dir game_name fs = true ->
  (max_backups <= 0)%Z ->
  NoDup (map e_name (found backup_dir fs)) ->
  (forall e, In e (found backup_dir fs) ->
             is_backup_file game_name (e_name e) = true ->
             e_locked e = false) ->
  result_of (create_backup w source_dir backup_dir game_name
               max_backups compress_level fs) = Ret true /\
  matching game_name
    (found backup_dir
       (fs_after (create_backup w source_dir backup_dir game_name
                    max_backups compress_level fs)))
  = [] /\
  filter (fun e => negb (is_backup_file game_name (e_name e)))
    (found backup_dir
       (fs_after (create_backup w source_dir backup_dir game_name
                    max_backups compress_level fs)))
  = filter (fun e => negb (is_backup_file game_name (e_name e)))
      (found backup_dir fs).
Proof.
  intros _ Hall Hk Hnd Hfree.
  destruct (all_goes_through_parts _ _ _ _ Hall) as (Hs & Hd & Hw & Ho & Hc).
  destruct (cycle_success w source_dir backup_dir game_name max_backups
              compress_level fs Hs Hd Hw Ho Hc) as (fs2 & [Hfs2 _] & Hrun).
  rewrite Hrun, result_of_run, fs_after_run.
  destruct (cleanup_any_cap backup_dir game_name max_backups fs2 _ Hfs2
              (put_file_NoDup _ _ _ _ Hnd)) as (tail & _ & _ & _ & Hfs).
  rewrite selected_all in Hfs by exact Hk.
  unfold found at 1 2. rewrite Hfs.
  split; [reflexivity|]. split.
  - apply matching_minus_all. now apply put_file_free.
  - rewrite others_minus.
    + apply put_file_others, own_name_is_backup.
    + intros p Hp. apply filter_In in Hp. destruct Hp as [Hp _].
      apply in_map_iff in Hp. destruct Hp as [x [<- Hx]].
      apply sorted_backups_in in Hx. destruct Hx as (e & _ & Hm & ->).
      exists e. now split.
Qed.

(** X6 on an empty destination and a cap of 0. *)
Lemma cycle_with_no_cap_keeps_no_backup_witness :
  plain_label "TLD" = true /\
  all_goes_through (saves_world "data" (at_noon 0) 100) "backups" "TLD" no_fs
  = true /\
  (0 <= 0)%Z /\
  NoDup (map e_name (found "backups" no_fs)) /\
  (forall e, In e (found "backups" no_fs) ->
             is_backup_file "TLD" (e_name e) = true -> e_locked e = false) /\
  matching "TLD"
    (found "backups"
       (fs_after (create_backup (saves_world "data" (at_noon 0) 100)
                    "saves" "backups" "TLD" 0 6 no_fs)))
  = [].
Proof.
  assert (Hk : (0 <= 0)%Z) by lia.
  assert (Hnd : NoDup (map e_name (found "backups" no_fs)))
    by constructor.
  assert (Hfree : forall e, In e (found "backups" no_fs) ->
                    is_backup_file "TLD" (e_name e) = true ->
                    e_locked e = false)
    by (intros e []).
  split; [reflexivity|].
  split; [reflexivity|]. split; [exact Hk|]. split; [exact Hnd|].
  split; [exact Hfree|].
  exact (proj1 (proj2
           (cycle_with_no_cap_keeps_no_backup
              (saves_world "data" (at_noon 0) 100) "saves" "backups" "TLD"
              0 6 no_fs eq_refl eq_refl Hk Hnd Hfree))).
Defined.

(** X7.  With a cap of 1 or more a cycle never deletes the archive it
    has just written, provided the archive is newer than every other
    backup: for a label that is a single path component, when every step
    goes through, on a destination with distinct
    file names where every other file matching the label has an earlier
    creation time than the new archive, the archive is in the destination
    after the cycle, complete. *)
Theorem cycle_keeps_its_own_archive
    (w : world) (source_dir backup_dir game_name : string)
    (max_backups compress_level : Z) (fs : filesystem) :
  plain_label game_name = true ->
  all_goes_through w backup_dir game_name fs = true ->
  (1 <= max_backups)%Z ->
  NoDup (map e_name (found backup_dir fs)) ->
  (forall e, In e (found backup_dir fs) ->
             is_backup_file game_name (e_name e) = true ->
             e_name e <> backup_filename_of game_name (w_now w) ->
             (e_ctime e < w_ctime w)%Z) ->
  result_of (create_backup w source_dir backup_dir game_name
               max_backups compress_level fs) = Ret true /\
  exists e,
    In e (found backup_dir
            (fs_after (create_backup w source_dir backup_dir game_name
                         max_backups compress_level fs))) /\
    e_name e = backup_filename_of game_name (w_now w) /\
    e_content e = Zip (archive_of w source_dir backup_dir game_name) /\
    z_closed (archive_of w source_dir backup_dir game_name) = true.
Proof.
  intros _ Hall Hk Hnd Hnewer.
  destruct (all_goes_through_parts _ _ _ _ Hall) as (Hs & Hd & Hw & Ho & Hc).
  destruct (cycle_success w source_dir backup_dir game_name max_backups
              compress_level fs Hs Hd Hw Ho Hc) as (fs2 & [Hfs2 _] & Hrun).
  rewrite Hrun, result_of_run, fs_after_run. split; [reflexivity|].
  set (name := backup_filename_of game_name (w_now w)) in *.
  set (l2 := put_file name (w_ctime w)
               (Zip (archive_of w source_dir backup_dir game_name))
               (found backup_dir fs)) in *.
  assert (Hnd2 : NoDup (map e_name l2)) by now apply put_file_NoDup.
  destruct (lookup_put_file name (w_ctime w)
              (Zip (archive_of w source_dir backup_dir game_name))
              (found backup_dir fs)) as (enew & Hl & Hn & Ht & Hcont).
  fold l2 in Hl.
  assert (Hin : In enew l2)
    by (unfold lookup in Hl; now apply find_some in Hl).
  exists enew. split; [|now repeat split].
  unfold found. rewrite cleanup_fs, Hfs2. cbn [option_map].
  apply minus_keeps; [exact Hin|]. intros Hdel.
  apply deletions_are_attempts in Hdel.
  assert (Hk0 : (0 <= max_backups)%Z) by lia.
  rewrite (cleanup_attempts backup_dir game_name max_backups fs2 l2 Hk0 Hfs2)
    in Hdel.
  apply in_map_iff in Hdel. destruct Hdel as [x [Hx Hxsel]].
  (* some backup is kept *)
  assert (Hm : In enew (matching game_name l2)).
  { unfold matching. apply filter_In. split; [exact Hin|].
    rewrite Hn. apply own_name_is_backup. }
  assert (Hkept : retained backup_dir game_name l2 max_backups <> []).
  { intros Hnil. apply (f_equal (@List.length _)) in Hnil.
    unfold retained in Hnil.
    rewrite length_skipn, sorted_backups_length in Hnil. unfold excess in Hnil.
    destruct (matching game_name l2); [contradiction|].
    cbn [List.length] in Hnil. lia. }
  destruct (retained backup_dir game_name l2 max_backups) as [|y kept] eqn:Hr;
    [congruence|].
  assert (Hsorted : StronglySorted older_or_equal
                      (selected backup_dir game_name l2 max_backups
                       ++ y :: kept)).
  { rewrite <- Hr, selected_retained. apply sort_by_ctime_sorted. }
  pose proof (StronglySorted_app_le _ _ _ Hsorted x y Hxsel
                (or_introl eq_refl)) as Hle.
  assert (Hnd3 : NoDup (map fst (selected backup_dir game_name l2 max_backups
                                 ++ y :: kept))).
  { rewrite <- Hr, selected_retained. now apply sorted_backups_NoDup. }
  assert (Hxs : In x (sorted_backups backup_dir game_name l2))
    by (now apply in_firstn in Hxsel).
  assert (Hys : In y (sorted_backups backup_dir game_name l2)).
  { rewrite <- (selected_retained backup_dir game_name l2 max_backups), Hr.
    apply in_or_app. right. now left. }
  apply sorted_backups_in in Hxs, Hys.
  destruct Hxs as (ex & Hexin & _ & ->). destruct Hys as (ey & Heyin & Hym & ->).
  cbn [fst] in Hx. injection Hx as Hxn.
  assert (ex = enew)
    by (apply (NoDup_names_same l2); try assumption; congruence).
  subst ex. unfold older_or_equal in Hle. cbn [snd] in Hle.
  destruct (String.eqb_spec (e_name ey) name) as [Heq|Hne].
  - rewrite map_app in Hnd3.
    apply (NoDup_app_apart _ _ (os_path_join backup_dir (e_name enew)) Hnd3).
    + apply in_map_iff. eexists. split; [|exact Hxsel]. reflexivity.
    + left. cbn [fst]. now rewrite Heq, Hn.
  - destruct (put_file_in _ _ _ _ _ Heyin) as [[_ Hold] | [Heq _]];
      [|contradiction].
    specialize (Hnewer ey Hold Hym Hne). lia.
Qed.

(** X7 on a destination of three older snapshots and a cap of 1. *)
Lemma cycle_keeps_its_own_archive_witness :
  plain_label "TLD" = true /\
  all_goes_through (saves_world "data" (at_noon 0) 40) "backups" "TLD"
    (only_dir "backups" tld_dir_before) = true /\
  (1 <= 1)%Z /\
  NoDup (map e_name (found "backups" (only_dir "backups" tld_dir_before))) /\
  (forall e, In e (found "backups" (only_dir "backups" tld_dir_before)) ->
             is_backup_file "TLD" (e_name e) = true ->
             e_name e
             <> backup_filename_of "TLD"
                  (w_now (saves_world "data" (at_noon 0) 40)) ->
             (e_ctime e < w_ctime (saves_world "data" (at_noon 0) 40))%Z) /\
  result_of (create_backup (saves_world "data" (at_noon 0) 40)
               "saves" "backups" "TLD" 1 6
               (only_dir "backups" tld_dir_before)) = Ret true.
Proof.
  assert (Hk : (1 <= 1)%Z) by lia.
  assert (Hnd : NoDup (map e_name
                         (found "backups"
                            (only_dir "backups" tld_dir_before))))
    by (cbn; repeat constructor; cbn; intuition discriminate).
  assert (Hnewer : forall e,
            In e (found "backups" (only_dir "backups" tld_dir_before)) ->
            is_backup_file "TLD" (e_name e) = true ->
            e_name e
            <> backup_filename_of "TLD"
                 (w_now (saves_world "data" (at_noon 0) 40)) ->
            (e_ctime e < w_ctime (saves_world "data" (at_noon 0) 40))%Z).
  { intros e He _ _. cbn in He.
    repeat (destruct He as [<-|He]; [cbn; lia|]). contradiction. }
  split; [reflexivity|].
  split; [reflexivity|]. split; [exact Hk|]. split; [exact Hnd|].
  split; [exact Hnewer|].
  exact (proj1
           (cycle_keeps_its_own_archive
              (saves_world "data" (at_noon 0) 40) "saves" "backups" "TLD"
              1 6 (only_dir "backups" tld_dir_before) eq_refl eq_refl Hk Hnd
              Hnewer)).
Defined.



Section Members.

Lemma members_at_put name t z l :
  members_at name (put_file name t (Zip z) l) = z_entries z /\
  complete_at name (put_file name t (Zip z) l) = z_closed z.
Proof.
  unfold members_at, complete_at.
  destruct (lookup_put_file name t (Zip z) l) as (e & -> & _ & _ & Hc).
  destruct e as [en et ek ec]. cbn in Hc. subst ec. now split.
Qed.

End Members.



(** X10.  The writer and the retention pass agree on what a backup is:
    whatever the label and the clock, the name the writer gives an
    archive passes the test of the retention pass for the same label; so
    for a label that is a single path component, when the archive file
    is in the listing of the destination, it is among the backups the
    retention pass orders. *)
Theorem written_archive_is_a_backup
    (backup_dir game_name : string) (now : datetime) (ctime : Z)
    (c : content) (l : directory) :
  is_backup_file game_name (backup_filename_of game_name now) = true /\
  (plain_label game_name = true ->
   In (os_path_join backup_dir (backup_filename_of game_name now), ctime)
     (sorted_backups backup_dir game_name
        (put_file (backup_filename_of game_name now) ctime c l))).
Proof.
  split; [apply own_name_is_backup|]. intros _.
  destruct (lookup_put_file (backup_filename_of game_name now) ctime c l)
    as (e & Hl & Hn & Ht & _).
  unfold lookup in Hl. apply find_some in Hl. destruct Hl as [Hin _].
  unfold sorted_backups.
  apply (Permutation_in _ (Permutation_sym (sort_by_ctime_perm _))).
  rewrite collect_backups_matching. apply in_map_iff. exists e.
  split; [now rewrite Hn, Ht|].
  unfold matching. apply filter_In. split; [exact Hin|].
  rewrite Hn. apply own_name_is_backup.
Qed.

(** X10 at the label "TLD" and an empty destination. *)
Lemma written_archive_is_a_backup_witness :
  plain_label "TLD" = true /\
  In (os_path_join "backups" (backup_filename_of "TLD" (at_noon 0)), 100%Z)
    (sorted_backups "backups" "TLD"
       (put_file (backup_filename_of "TLD" (at_noon 0)) 100
          (Zip empty_archive) [])).
Proof.
  split; [reflexivity|].
  exact (proj2 (written_archive_is_a_backup "backups" "TLD" (at_noon 0) 100
                  (Zip empty_archive) []) eq_refl).
Defined.

(* ================================================================== *)
(** * Further properties of the scheduler *)

(** X11.  A negative interval stops the scheduler before its first
    cycle: [time.sleep] raises, nothing in the loop catches it, and the
    backup function, whichever it is, is never called.  The file system
    is as it was and only the announcement was printed. *)
Theorem negative_interval_stops_the_scheduler
    (backup_func : backup_function)
    (source_dir backup_dir game_name : string)
    (max_backups interval_minutes compress_level : Z)
    (w : world) (rest : list world) (fs : filesystem) :
  (interval_minutes < 0)%Z ->
  auto_backup_scheduler backup_func source_dir backup_dir game_name
    max_backups interval_minutes compress_level (w :: rest) fs
  = (Raise ValueError, fs, [NextAutomaticIn interval_minutes]).
Proof.
  intros Hneg. cbn [auto_backup_scheduler].
  unfold bind at 1. unfold scheduler_turn, time_sleep, bind, print, raise.
  destruct (Z.ltb_spec (interval_minutes * 60) 0) as [_|Hge]; [|lia].
  reflexivity.
Qed.

(** X11 at an interval of -1 minute. *)
Lemma negative_interval_stops_the_scheduler_witness :
  (-1 < 0)%Z /\
  auto_backup_scheduler create_backup "saves" "backups" "TLD" 50 (-1) 6
    [saves_world "data" (at_noon 0) 100] no_fs
  = (Raise ValueError, no_fs, [NextAutomaticIn (-1)]).
Proof.
  assert (Hneg : (-1 < 0)%Z) by lia.
  split; [exact Hneg|].
  exact (negative_interval_stops_the_scheduler create_backup
           "saves" "backups" "TLD" 50 (-1) 6
           (saves_world "data" (at_noon 0) 100) [] no_fs Hneg).
Defined.

(* ================================================================== *)
(** * The order of archive names *)

Section NameOrder.
Local Open Scope Z_scope.

Lemma compare_common_prefix (p a b : string) :
  String.compare (p ++ a)%string (p ++ b)%string = String.compare a b.
Proof.
  induction p as [|c p IH]; [reflexivity|]. cbn [append String.compare].
  unfold Ascii.compare. now rewrite N.compare_refl.
Qed.

Lemma digit_compare (a b : Z) :
  Ascii.compare (digit a) (digit b) = (a mod 10 ?= b mod 10).
Proof.
  pose proof (Z.mod_pos_bound a 10 ltac:(lia)) as Ha.
  pose proof (Z.mod_pos_bound b 10 ltac:(lia)) as Hb.
  unfold Ascii.compare, digit, ascii_of_nat.
  rewrite !N_ascii_embedding by lia.
  rewrite !Z_nat_N, Z2N.inj_compare by lia.
  apply Z.add_compare_mono_l.
Qed.

Lemma compare_pad2 (x y : Z) (s t : string) :
  0 <= x < 100 -> 0 <= y < 100 ->
  String.compare (pad2 x ++ s)%string (pad2 y ++ t)%string
  = then_by (x ?= y) (String.compare s t).
Proof.
  intros Hx Hy. unfold pad2. cbn [append String.compare].
  rewrite !digit_compare.
  destruct (Z.compare_spec ((x / 10) mod 10) ((y / 10) mod 10)) as [H1|H1|H1];
    destruct (Z.compare_spec (x mod 10) (y mod 10)) as [H2|H2|H2];
    destruct (Z.compare_spec x y) as [H3|H3|H3];
    try reflexivity; exfalso; revert H1 H2 H3;
    Z.div_mod_to_equations; lia.
Qed.

Lemma compare_pad4 (x y : Z) (s t : string) :
  0 <= x < 10000 -> 0 <= y < 10000 ->
  String.compare (pad4 x ++ s)%string (pad4 y ++ t)%string
  = then_by (x ?= y) (String.compare s t).
Proof.
  intros Hx Hy. unfold pad4, pad2. cbn [append String.compare].
  rewrite !digit_compare.
  destruct (Z.compare_spec ((x / 1000) mod 10) ((y / 1000) mod 10))
    as [H1|H1|H1];
    destruct (Z.compare_spec ((x / 100) mod 10) ((y / 100) mod 10))
      as [H2|H2|H2];
    destruct (Z.compare_spec ((x / 10) mod 10) ((y / 10) mod 10))
      as [H3|H3|H3];
    destruct (Z.compare_spec (x mod 10) (y mod 10)) as [H4|H4|H4];
    destruct (Z.compare_spec x y) as [H5|H5|H5];
    try reflexivity; exfalso; revert H1 H2 H3 H4 H5;
    Z.div_mod_to_equations; lia.
Qed.

Lemma compare_names (game_name : string) (d1 d2 : datetime) :
  datetime_ok d1 = true -> datetime_ok d2 = true ->
  String.compare (backup_filename_of game_name d1)
    (backup_filename_of game_name d2)
  = clock_compare d1 d2.
Proof.
  intros H1 H2. apply datetime_ok_bounds in H1, H2.
  unfold backup_filename_of. rewrite !compare_common_prefix.
  unfold strftime. rewrite !append_assoc.
  rewrite compare_pad4 by lia.
  rewrite !compare_pad2 by lia.
  rewrite (compare_common_prefix "_"). rewrite !compare_pad2 by lia.
  unfold clock_compare.
  change (String.compare ".zip" ".zip") with Eq.
  now destruct (second d1 ?= second d2).
Qed.

End NameOrder.

(** X12.  Archive names sort as the times they were taken: for two
    readings of the clock with four-digit years, comparing the names of
    the two archives of one label character by character gives the order
    of the readings taken down to the second, so a listing by name is a
    listing by age. *)
Theorem archive_names_sort_by_time
    (game_name : string) (d1 d2 : datetime) :
  datetime_ok d1 = true ->
  datetime_ok d2 = true ->
  String.compare (backup_filename_of game_name d1)
    (backup_filename_of game_name d2)
  = clock_compare d1 d2 /\
  (clock_compare d1 d2 = Lt ->
   String.ltb (backup_filename_of game_name d1)
     (backup_filename_of game_name d2) = true).
Proof.
  intros H1 H2. pose proof (compare_names game_name d1 d2 H1 H2) as Hc.
  split; [exact Hc|]. intros Hlt. unfold String.ltb. now rewrite Hc, Hlt.
Qed.

(** X12 at noon and one second past noon. *)
Lemma archive_names_sort_by_time_witness :
  datetime_ok (at_noon 0) = true /\
  datetime_ok
    {| year := 2024; month := 1; day := 5; hour := 12; minute := 0;
       second := 8; microsecond := 0 |} = true /\
  String.ltb (backup_filename_of "TLD" (at_noon 0))
    (backup_filename_of "TLD"
       {| year := 2024; month := 1; day := 5; hour := 12; minute := 0;
          second := 8; microsecond := 0 |}) = true.
Proof.
  split; [reflexivity|]. split; [reflexivity|].
  exact (proj2
           (archive_names_sort_by_time "TLD" (at_noon 0)
              {| year := 2024; month := 1; day := 5; hour := 12; minute := 0;
                 second := 8; microsecond := 0 |} eq_refl eq_refl)
           eq_refl).
Defined.

(* ------------------------------------------------------------------ *)
(** * The settings file *)

Section ConfigDicts.
Import Config.
Local Open Scope list_scope.
Local Open Scope string_scope.

Lemma item_setitem_same {V} (k : string) (v : V) (d : dict V) :
  item k (setitem k v d) = Some v.
Proof.
  induction d as [|[k' v'] d IH]; cbn.
  - now rewrite String.eqb_refl.
  - destruct (k' =? k) eqn:E; cbn; rewrite E; auto.
Qed.

Lemma item_setitem_other {V} (k k' : string) (v : V) (d : dict V) :
  k' <> k -> item k (setitem k' v d) = item k d.
Proof.
  intros Hne. induction d as [|[k1 v1] d IH]; cbn.
  - destruct (k' =? k) eqn:E; [apply String.eqb_eq in E; congruence|].
    reflexivity.
  - destruct (k1 =? k') eqn:E; cbn.
    + apply String.eqb_eq in E. subst k1.
      destruct (k' =? k) eqn:E'; [apply String.eqb_eq in E'; congruence|].
      reflexivity.
    + destruct (k1 =? k); auto.
Qed.

Lemma item_setitem {V} (k k' : string) (v : V) (d : dict V) :
  item k (setitem k' v d) = if k' =? k then Some v else item k d.
Proof.
  destruct (k' =? k) eqn:E.
  - apply String.eqb_eq in E. subst. apply item_setitem_same.
  - apply String.eqb_neq in E. now apply item_setitem_other.
Qed.

Lemma contains_setitem {V} (k k' : string) (v : V) (d : dict V) :
  contains k (setitem k' v d) = (k' =? k) || contains k d.
Proof.
  unfold contains. rewrite item_setitem. now destruct (k' =? k).
Qed.

End ConfigDicts.

Section ConfigSteps.
Import Config.
Local Open Scope list_scope.
Local Open Scope string_scope.

Variable optionxform : string -> string.

Local Abbreviation stored := (Config.stored optionxform).
Local Abbreviation has_option := (Config.has_option optionxform).
Local Abbreviation set := (Config.set optionxform).
Local Abbreviation get := (Config.get optionxform).
Local Abbreviation fill_keys := (Config.fill_keys optionxform).
Local Abbreviation fill_sections := (Config.fill_sections optionxform).
Local Abbreviation default_of := (Config.default_of optionxform).
Local Abbreviation key_default := (Config.key_default optionxform).

Lemma stored_xform c s k k0 :
  optionxform k = optionxform k0 -> stored c s k = stored c s k0.
Proof. intros H. unfold Config.stored. now rewrite H. Qed.

Lemma has_option_stored c s k :
  proper s ->
  has_option c s k =
  has_section c s && match stored c s k with Some _ => true | None => false end.
Proof.
  intros Hs. unfold Config.has_option, Config.stored, has_section, contains,
    chain_item. rewrite Hs. cbn [fst snd].
  destruct (item s (sections c)) as [sd|]; cbn; [|reflexivity].
  destruct (item (optionxform k) sd); cbn; [reflexivity|].
  now destruct (item (optionxform k) (defaults c)).
Qed.

Lemma add_section_stored c s' c1 s k :
  add_section c s' = Ok c1 -> stored c1 s k = stored c s k.
Proof.
  unfold add_section, contains.
  destruct (s' =? default_section); [discriminate|].
  destruct (item s' (sections c)) eqn:E; [discriminate|].
  intros [= <-]. unfold Config.stored, chain_item. cbn.
  rewrite item_setitem. destruct (s' =? s) eqn:Es; [|reflexivity].
  apply String.eqb_eq in Es. subst. now rewrite E.
Qed.

Lemma add_section_has_section c s' c1 s :
  add_section c s' = Ok c1 ->
  has_section c1 s = (s' =? s) || has_section c s.
Proof.
  unfold add_section.
  destruct (s' =? default_section); [discriminate|].
  destruct (contains s' (sections c)); [discriminate|].
  intros [= <-]. unfold has_section. cbn. apply contains_setitem.
Qed.

(** Lines 114-115. *)
Lemma ensure_section c s :
  proper s ->
  exists c0,
    (if has_section c s then Ok c else add_section c s) = Ok c0 /\
    has_section c0 s = true /\
    (forall s0, has_section c0 s0 = (s =? s0) || has_section c s0) /\
    (forall s0 k0, stored c0 s0 k0 = stored c s0 k0) /\
    (has_section c s = true -> c0 = c).
Proof.
  intros Hs. apply orb_false_iff in Hs. destruct Hs as [_ Hd].
  destruct (has_section c s) eqn:E.
  - exists c. repeat split; auto.
    intros s0. destruct (s =? s0) eqn:E0; [|reflexivity].
    apply String.eqb_eq in E0. now subst.
  - destruct (add_section c s) as [c0|e] eqn:Ea.
    + exists c0. repeat split.
      * rewrite (add_section_has_section _ _ _ _ Ea).
        now rewrite String.eqb_refl.
      * intros s0. apply (add_section_has_section _ _ _ _ Ea).
      * intros s0 k0. apply (add_section_stored _ _ _ _ _ Ea).
      * discriminate.
    + exfalso. unfold add_section in Ea. rewrite Hd in Ea.
      unfold has_section in E. rewrite E in Ea. discriminate.
Qed.

Lemma set_run c s' k' v' :
  proper s' -> has_section c s' = true ->
  if accepted v'
  then exists c1,
      set c s' k' v' = Ok c1 /\
      (forall s0, has_section c1 s0 = has_section c s0) /\
      (forall s0 k0, stored c1 s0 k0 =
         if (s' =? s0) && (optionxform k' =? optionxform k0) then Some v'
         else stored c s0 k0)
  else set c s' k' v' = Error ValueError.
Proof.
  intros Hs Hsec. unfold Config.set, accepted.
  assert (Hval : (if v' =? "" then Ok v' else before_set v') =
                 if (if v' =? "" then true
                     else match before_set v' with
                          | Ok _ => true | Error _ => false end)
                 then Ok v' else Error ValueError).
  { destruct (v' =? ""); [reflexivity|]. unfold before_set.
    now destruct (has_percent _). }
  rewrite Hval. clear Hval.
  destruct (if v' =? "" then true else _); [|reflexivity].
  cbn [and_then]. rewrite Hs.
  unfold has_section, contains in Hsec.
  destruct (item s' (sections c)) as [sd|] eqn:E; [|discriminate].
  eexists. split; [reflexivity|]. split.
  - intros s0. unfold has_section. cbn. rewrite contains_setitem.
    destruct (s' =? s0) eqn:E0; [|reflexivity].
    apply String.eqb_eq in E0. subst. unfold contains. now rewrite E.
  - intros s0 k0. unfold Config.stored, chain_item. cbn.
    rewrite item_setitem. destruct (s' =? s0) eqn:E0; cbn; [|reflexivity].
    apply String.eqb_eq in E0. subst s0. rewrite E.
    rewrite item_setitem.
    now destruct (optionxform k' =? optionxform k0).
Qed.

(** Lines 117-118 for one key. *)
Lemma fill_key c s k dv :
  proper s -> has_section c s = true ->
  match stored c s k with
  | Some _ =>
      (if has_option c s k then Ok c else set c s k dv) = Ok c
  | None =>
      if accepted dv
      then exists c1,
          (if has_option c s k then Ok c else set c s k dv) = Ok c1 /\
          (forall s0, has_section c1 s0 = has_section c s0) /\
          (forall s0 k0, stored c1 s0 k0 =
             if (s =? s0) && (optionxform k =? optionxform k0) then Some dv
             else stored c s0 k0)
      else (if has_option c s k then Ok c else set c s k dv) = Error ValueError
  end.
Proof.
  intros Hs Hsec. rewrite (has_option_stored _ _ _ Hs), Hsec. cbn.
  destruct (stored c s k); [reflexivity|].
  apply set_run; assumption.
Qed.

Lemma fill_keys_spec keys : forall c s c',
  proper s -> has_section c s = true ->
  fill_keys c s keys = Ok c' ->
  (forall s0, has_section c' s0 = has_section c s0) /\
  (forall s0 k0, stored c' s0 k0 =
     match stored c s0 k0 with
     | Some v => Some v
     | None => if s =? s0 then key_default keys k0 else None
     end).
Proof.
  induction keys as [|[k dv] keys IH]; intros c s c' Hs Hsec.
  - cbn. intros [= <-]. split; [reflexivity|]. intros s0 k0.
    unfold Config.key_default. cbn. destruct (stored c s0 k0); [reflexivity|].
    now destruct (s =? s0).
  - cbn [Config.fill_keys]. pose proof (fill_key c s k dv Hs Hsec) as Hk.
    destruct (stored c s k) as [v|] eqn:Est.
    + rewrite Hk. cbn [and_then]. intros Hrun.
      destruct (IH _ _ _ Hs Hsec Hrun) as [H1 H2]. split; [exact H1|].
      intros s0 k0. rewrite H2. destruct (stored c s0 k0) eqn:E0;
        [reflexivity|].
      destruct (s =? s0) eqn:Es; [|reflexivity].
      apply String.eqb_eq in Es. subst s0.
      unfold Config.key_default. cbn [find fst snd].
      destruct (optionxform k =? optionxform k0) eqn:Ek; [|reflexivity].
      apply String.eqb_eq in Ek.
      rewrite (stored_xform c s k k0 Ek) in Est. congruence.
    + destruct (accepted dv).
      * destruct Hk as (c1 & -> & Hsec1 & Hst1). cbn [and_then]. intros Hrun.
        assert (Hsec' : has_section c1 s = true) by now rewrite Hsec1.
        destruct (IH _ _ _ Hs Hsec' Hrun) as [H1 H2]. split.
        { intros s0. now rewrite H1, Hsec1. }
        intros s0 k0. rewrite H2, Hst1.
        unfold Config.key_default. cbn [find fst snd].
        destruct (s =? s0) eqn:Es; cbn [andb].
        -- destruct (optionxform k =? optionxform k0) eqn:Ek.
           ++ apply String.eqb_eq in Es. subst s0.
              apply String.eqb_eq in Ek.
              rewrite <- (stored_xform c s k k0 Ek), Est. reflexivity.
           ++ reflexivity.
        -- reflexivity.
      * rewrite Hk. cbn. discriminate.
Qed.

Lemma fill_keys_returns keys : forall c s,
  proper s -> has_section c s = true ->
  (forall k dv, In (k, dv) keys -> accepted dv = true) ->
  exists c', fill_keys c s keys = Ok c'.
Proof.
  induction keys as [|[k dv] keys IH]; intros c s Hs Hsec Hacc.
  - now exists c.
  - cbn [Config.fill_keys]. pose proof (fill_key c s k dv Hs Hsec) as Hk.
    destruct (stored c s k).
    + rewrite Hk. cbn [and_then]. apply IH; auto.
      intros k1 dv1 Hin. apply (Hacc k1 dv1). now right.
    + rewrite (Hacc k dv) in Hk by now left.
      destruct Hk as (c1 & -> & Hsec1 & _). cbn [and_then].
      apply IH; auto.
      * now rewrite Hsec1.
      * intros k1 dv1 Hin. apply (Hacc k1 dv1). now right.
Qed.

Lemma fill_keys_raises keys : forall c s e,
  proper s -> has_section c s = true ->
  fill_keys c s keys = Error e ->
  e = ValueError /\
  exists k dv, In (k, dv) keys /\ stored c s k = None /\ accepted dv = false.
Proof.
  induction keys as [|[k dv] keys IH]; intros c s e Hs Hsec.
  - discriminate.
  - cbn [Config.fill_keys]. pose proof (fill_key c s k dv Hs Hsec) as Hk.
    destruct (stored c s k) eqn:Est.
    + rewrite Hk. cbn [and_then]. intros Hrun.
      destruct (IH _ _ _ Hs Hsec Hrun) as (He & k1 & dv1 & Hin & H1 & H2).
      split; [exact He|]. exists k1, dv1. repeat split; auto. now right.
    + destruct (accepted dv) eqn:Eacc.
      * destruct Hk as (c1 & -> & Hsec1 & Hst1). cbn [and_then]. intros Hrun.
        assert (Hsec' : has_section c1 s = true) by now rewrite Hsec1.
        destruct (IH _ _ _ Hs Hsec' Hrun) as (He & k1 & dv1 & Hin & H1 & H2).
        split; [exact He|]. exists k1, dv1. repeat split; auto.
        { now right. }
        rewrite Hst1 in H1.
        destruct ((s =? s) && (optionxform k =? optionxform k1));
          [discriminate|exact H1].
      * rewrite Hk. cbn. intros [= <-]. split; [reflexivity|].
        exists k, dv. repeat split; auto using in_eq.
Qed.

Lemma fill_keys_stops keys : forall c s k dv,
  proper s -> has_section c s = true ->
  NoDup (map (fun kd => optionxform (fst kd)) keys) ->
  In (k, dv) keys -> stored c s k = None -> accepted dv = false ->
  fill_keys c s keys = Error ValueError.
Proof.
  induction keys as [|[k1 dv1] keys IH]; intros c s k dv Hs Hsec Hnd Hin Hst Hacc.
  - destruct Hin.
  - cbn [Config.fill_keys]. pose proof (fill_key c s k1 dv1 Hs Hsec) as Hk.
    cbn in Hnd. apply NoDup_cons_iff in Hnd. destruct Hnd as [Hnotin Hnd].
    destruct Hin as [Heq|Hin].
    + injection Heq as -> ->. rewrite Hst, Hacc in Hk. now rewrite Hk.
    + assert (Hne : optionxform k1 <> optionxform k).
      { intros Heq. apply Hnotin. rewrite Heq.
        apply (in_map (fun kd => optionxform (fst kd)) _ _ Hin). }
      destruct (stored c s k1) eqn:Est.
      * rewrite Hk. cbn [and_then]. apply (IH c s k dv); auto.
      * destruct (accepted dv1).
        -- destruct Hk as (c1 & -> & Hsec1 & Hst1). cbn [and_then].
           apply (IH c1 s k dv); auto.
           ++ now rewrite Hsec1.
           ++ rewrite Hst1. apply String.eqb_neq in Hne. rewrite Hne.
              now rewrite andb_false_r.
        -- now rewrite Hk.
Qed.

Lemma fill_keys_fixed keys : forall c s,
  (forall k dv, In (k, dv) keys -> has_option c s k = true) ->
  fill_keys c s keys = Ok c.
Proof.
  induction keys as [|[k dv] keys IH]; intros c s Hall; [reflexivity|].
  cbn [Config.fill_keys]. rewrite (Hall k dv) by now left. cbn [and_then].
  apply IH. intros k1 dv1 Hin. apply (Hall k1 dv1). now right.
Qed.

Lemma default_of_cons s keys items s0 k0 :
  default_of ((s, keys) :: items) s0 k0 =
  match (if s =? s0 then key_default keys k0 else None) with
  | Some dv => Some dv
  | None => default_of items s0 k0
  end.
Proof. reflexivity. Qed.

Lemma fill_sections_cons c s keys items :
  fill_sections c ((s, keys) :: items) =
  and_then (if has_section c s then Ok c else add_section c s)
    (fun c0 => and_then (fill_keys c0 s keys)
                 (fun c1 => fill_sections c1 items)).
Proof. reflexivity. Qed.

Lemma fill_sections_spec items : forall c c',
  Forall (fun it => proper (fst it)) items ->
  fill_sections c items = Ok c' ->
  (forall s0, has_section c' s0 = named items s0 || has_section c s0) /\
  (forall s0 k0, stored c' s0 k0 =
     match stored c s0 k0 with
     | Some v => Some v
     | None => default_of items s0 k0
     end).
Proof.
  induction items as [|[s keys] items IH]; intros c c' Hprop.
  - cbn. intros [= <-]. split; [reflexivity|]. intros s0 k0.
    now destruct (stored c s0 k0).
  - apply Forall_cons_iff in Hprop. destruct Hprop as [Hs Hprop].
    cbn [fst] in Hs. cbn [Config.fill_sections].
    destruct (ensure_section c s Hs) as (c0 & -> & Hsec0 & Hsecs0 & Hst0 & _).
    cbn [and_then].
    destruct (fill_keys c0 s keys) as [c1|e] eqn:Ek; [|discriminate].
    cbn [and_then]. intros Hrun.
    destruct (fill_keys_spec _ _ _ _ Hs Hsec0 Ek) as [Hsecs1 Hst1].
    destruct (IH _ _ Hprop Hrun) as [H1 H2]. split.
    + intros s0. rewrite H1, Hsecs1, Hsecs0. cbn [named existsb fst].
      fold (named items s0).
      destruct (s =? s0), (named items s0), (has_section c s0); reflexivity.
    + intros s0 k0. rewrite H2, Hst1, Hst0, default_of_cons.
      destruct (stored c s0 k0); [reflexivity|].
      destruct (s =? s0); [|reflexivity].
      now destruct (key_default keys k0).
Qed.

Lemma fill_sections_returns items : forall c,
  Forall (fun it => proper (fst it)) items ->
  (forall s keys k dv, In (s, keys) items -> In (k, dv) keys ->
     accepted dv = true) ->
  exists c', fill_sections c items = Ok c'.
Proof.
  induction items as [|[s keys] items IH]; intros c Hprop Hacc.
  - now exists c.
  - apply Forall_cons_iff in Hprop. destruct Hprop as [Hs Hprop].
    cbn [fst] in Hs. cbn [Config.fill_sections].
    destruct (ensure_section c s Hs) as (c0 & -> & Hsec0 & _).
    cbn [and_then].
    destruct (fill_keys_returns keys c0 s Hs Hsec0) as [c1 ->].
    { intros k dv Hin. apply (Hacc s keys k dv); [now left|exact Hin]. }
    cbn [and_then]. apply IH; auto.
    intros s1 keys1 k dv H1 H2. apply (Hacc s1 keys1 k dv); [now right|exact H2].
Qed.

Lemma fill_sections_fixed items : forall c,
  (forall s keys, In (s, keys) items ->
     has_section c s = true /\
     forall k dv, In (k, dv) keys -> has_option c s k = true) ->
  fill_sections c items = Ok c.
Proof.
  induction items as [|[s keys] items IH]; intros c Hall; [reflexivity|].
  cbn [Config.fill_sections].
  destruct (Hall s keys (or_introl eq_refl)) as [-> Hkeys]. cbn [and_then].
  rewrite (fill_keys_fixed keys c s Hkeys). cbn [and_then].
  apply IH. intros s1 keys1 Hin. apply Hall. now right.
Qed.

(** [get] with [raw=True] in terms of [stored]. *)
Lemma get_raw_stored c s k v :
  get c s k true = Ok v <->
  stored c s k = Some v /\ (has_section c s = true \/ s = default_section).
Proof.
  unfold Config.get, unify_values, Config.stored, has_section, contains.
  destruct (item s (sections c)) as [sd|]; cbn [and_then].
  - destruct (chain_item _ _); split.
    + intros [= ->]. auto.
    + intros [[= ->] _]. reflexivity.
    + discriminate.
    + intros [[=] _].
  - destruct (s =? default_section) eqn:E; cbn [and_then].
    + apply String.eqb_eq in E. unfold chain_item. cbn [fst snd item].
      destruct (item _ (defaults c)); split.
      * intros [= ->]. auto.
      * intros [[= ->] _]. reflexivity.
      * discriminate.
      * intros [[=] _].
    + apply String.eqb_neq in E. split; [discriminate|].
      intros [_ [H|H]]; [discriminate|contradiction].
Qed.

Lemma split_percent_plain v :
  has_percent v = false -> split_percent v = None.
Proof.
  induction v as [|a v IH]; cbn; [reflexivity|].
  destruct (Ascii.eqb a "%"); cbn; [discriminate|].
  intros H. now rewrite IH.
Qed.

Lemma interpolate_plain recur d v :
  has_percent v = false ->
  interpolate_while optionxform recur d (String.length v) "" v = Ok v.
Proof.
  intros H. destruct v as [|a v]; [reflexivity|].
  cbn [String.length interpolate_while].
  change (String a v =? "") with false. cbv iota.
  now rewrite (split_percent_plain _ H).
Qed.

(** A value with no ["%"] is read as it stands. *)
Lemma get_plain c s k v :
  get c s k true = Ok v -> has_percent v = false -> get c s k false = Ok v.
Proof.
  unfold Config.get. destruct (unify_values c s) as [d|e]; [|discriminate].
  cbn [and_then]. destruct (chain_item _ d); [|discriminate].
  intros [= ->] H. unfold before_get, MAX_INTERPOLATION_DEPTH.
  cbn [interpolate_some]. now apply interpolate_plain.
Qed.

Lemma interpolate_bare_percent recur d v :
  bare_percent v = true ->
  interpolate_while optionxform recur d (String.length v) "" v =
  Error InterpolationSyntaxError.
Proof.
  unfold bare_percent. destruct v as [|a v]; [discriminate|].
  cbn [String.length interpolate_while].
  change (String a v =? "") with false. cbv iota.
  destruct (split_percent (String a v)) as [[before rest]|]; [|discriminate].
  destruct rest as [|x [|y rest]]; try reflexivity.
  intros H. apply andb_true_iff in H. destruct H as [H1 H2].
  apply negb_true_iff in H1, H2. now rewrite H1, H2.
Qed.

(** A value whose first ["%"] starts neither an escape nor a reference
    cannot be read. *)
Lemma get_bare_percent c s k v :
  get c s k true = Ok v -> bare_percent v = true ->
  get c s k false = Error InterpolationSyntaxError.
Proof.
  unfold Config.get. destruct (unify_values c s) as [d|e]; [|discriminate].
  cbn [and_then]. destruct (chain_item _ d); [|discriminate].
  intros [= ->] H. unfold before_get, MAX_INTERPOLATION_DEPTH.
  cbn [interpolate_some]. now apply interpolate_bare_percent.
Qed.

Lemma replace_escapes_plain v :
  has_percent v = false -> replace_escapes v = v.
Proof.
  induction v as [|a v IH]; cbn; [reflexivity|].
  destruct (Ascii.eqb a "%"); cbn; [discriminate|].
  intros H. now rewrite IH.
Qed.

Lemma KEYCRE_sub_plain fuel : forall v,
  has_percent v = false -> KEYCRE_sub_from fuel v = v.
Proof.
  induction fuel as [|fuel IH]; intros v H; [reflexivity|].
  destruct v as [|a v]; [reflexivity|].
  cbn in H. apply orb_false_iff in H. destruct H as [Ha Hv].
  cbn [KEYCRE_sub_from]. unfold KEYCRE_match.
  destruct v as [|b v]; [now rewrite (IH "" eq_refl)|].
  rewrite Ha. cbn [andb]. now rewrite (IH _ Hv).
Qed.

(** A value with no ["%"] can be set. *)
Lemma accepted_plain v : has_percent v = false -> accepted v = true.
Proof.
  intros H. unfold accepted, before_set, KEYCRE_sub.
  destruct (v =? ""); [reflexivity|].
  rewrite (replace_escapes_plain _ H), (KEYCRE_sub_plain _ _ H).
  now rewrite H.
Qed.

Lemma interpolate_while_mono
    (recur recur' : string -> string -> result string)
    (d d' : dict string * dict string) :
  (forall g v, chain_item (optionxform g) d = Some v ->
               chain_item (optionxform g) d' = Some v) ->
  (forall a v r, recur a v = Ok r -> recur' a v = Ok r) ->
  forall fuel accum rest r,
    interpolate_while optionxform recur d fuel accum rest = Ok r ->
    interpolate_while optionxform recur' d' fuel accum rest = Ok r.
Proof.
  intros Hd Hrec. induction fuel as [|fuel IH]; intros accum rest r; [auto|].
  cbn [interpolate_while].
  destruct (rest =? ""); [auto|].
  destruct (split_percent rest) as [[before rest1]|]; [|auto].
  cbv zeta.
  destruct rest1 as [|x [|y rest2]]; try discriminate.
  destruct (Ascii.eqb y "%"); [apply IH|].
  destruct (Ascii.eqb y "("); [|discriminate].
  destruct (KEYCRE_match _) as [[g rest3]|]; [|discriminate].
  destruct (chain_item (optionxform g) d) as [v|] eqn:E; [|discriminate].
  rewrite (Hd _ _ E).
  destruct (has_percent v).
  - destruct (recur _ v) as [a1|] eqn:Er; [|discriminate].
    rewrite (Hrec _ _ _ Er). cbn [and_then]. apply IH.
  - apply IH.
Qed.

Lemma interpolate_some_mono (d d' : dict string * dict string) :
  (forall g v, chain_item (optionxform g) d = Some v ->
               chain_item (optionxform g) d' = Some v) ->
  forall levels accum rest r,
    interpolate_some optionxform d levels accum rest = Ok r ->
    interpolate_some optionxform d' levels accum rest = Ok r.
Proof.
  intros Hd. induction levels as [|levels IH]; intros accum rest r;
    [discriminate|].
  cbn [interpolate_some]. apply interpolate_while_mono; assumption.
Qed.

(** Reading from a config that has every section and every option of
    another, with the same values, gives what reading from the other
    gave. *)
Lemma get_mono c c' :
  (forall s, has_section c s = true -> has_section c' s = true) ->
  (forall s k v, stored c s k = Some v -> stored c' s k = Some v) ->
  forall s k raw v, get c s k raw = Ok v -> get c' s k raw = Ok v.
Proof.
  intros Hsec Hst s k raw v.
  assert (Hd : forall d, unify_values c s = Ok d ->
             exists d', unify_values c' s = Ok d' /\
               forall g w, chain_item (optionxform g) d = Some w ->
                           chain_item (optionxform g) d' = Some w).
  { intros d. unfold unify_values.
    pose proof (Hsec s) as Hs. pose proof (Hst s) as Hk.
    unfold has_section, contains, Config.stored in Hs, Hk.
    destruct (item s (sections c)) as [sd|].
    - intros [= <-]. specialize (Hs eq_refl).
      destruct (item s (sections c')) as [sd'|]; [|discriminate].
      eexists. split; [reflexivity|]. exact Hk.
    - destruct (s =? default_section); [|discriminate]. intros [= <-].
      destruct (item s (sections c')) as [sd'|].
      + eexists. split; [reflexivity|]. exact Hk.
      + eexists. split; [reflexivity|]. exact Hk. }
  unfold Config.get.
  destruct (unify_values c s) as [d|e]; [|discriminate].
  destruct (Hd d eq_refl) as (d' & -> & Hchain). cbn [and_then].
  destruct (chain_item (optionxform k) d) as [w|] eqn:E; [|discriminate].
  rewrite (Hchain _ _ E).
  destruct raw; [auto|].
  unfold before_get. now apply interpolate_some_mono.
Qed.

Lemma default_of_found items : forall s keys k dv,
  In (s, keys) items -> In (k, dv) keys -> default_of items s k <> None.
Proof.
  induction items as [|[s1 keys1] items IH]; intros s keys k dv Hin Hk;
    [destruct Hin|].
  cbn [Config.default_of]. destruct Hin as [[= -> ->]|Hin].
  - rewrite String.eqb_refl. unfold Config.key_default.
    destruct (find _ keys) eqn:Ef; [discriminate|].
    pose proof (find_none _ _ Ef _ Hk) as Hf. cbn in Hf.
    now rewrite String.eqb_refl in Hf.
  - destruct (if s1 =? s then _ else None); [discriminate|].
    now apply (IH s keys k dv).
Qed.

Lemma named_in items s keys : In (s, keys) items -> named items s = true.
Proof.
  intros Hin. unfold named. apply existsb_exists.
  exists (s, keys). split; [exact Hin|]. cbn. apply String.eqb_refl.
Qed.

End ConfigSteps.

Section ConfigTable.
Import Config.
Local Open Scope list_scope.
Local Open Scope string_scope.

Variable optionxform : string -> string.
Variables default_save_dir default_backup_dir : string.

Local Abbreviation table :=
  (default_settings default_save_dir default_backup_dir).
Local Abbreviation check_settings :=
  (Config.check_settings optionxform default_save_dir default_backup_dir).
Local Abbreviation stored := (Config.stored optionxform).
Local Abbreviation get := (Config.get optionxform).
Local Abbreviation has_option := (Config.has_option optionxform).

Lemma table_proper : Forall (fun it => proper (fst it)) table.
Proof. repeat constructor. Qed.

Lemma check_settings_spec c c' :
  check_settings c = Ok c' ->
  (forall s0, has_section c' s0 = named table s0 || has_section c s0) /\
  (forall s0 k0, stored c' s0 k0 =
     match stored c s0 k0 with
     | Some v => Some v
     | None => default_of optionxform table s0 k0
     end).
Proof. apply fill_sections_spec, table_proper. Qed.

Lemma check_settings_grows c c' :
  check_settings c = Ok c' ->
  (forall s, has_section c s = true -> has_section c' s = true) /\
  (forall s k v, stored c s k = Some v -> stored c' s k = Some v).
Proof.
  intros Hrun. destruct (check_settings_spec _ _ Hrun) as [Hsec Hst]. split.
  - intros s H. rewrite Hsec, H. apply orb_true_r.
  - intros s k v H. now rewrite Hst, H.
Qed.

Lemma table_in s keys :
  In (s, keys) table -> proper s /\ named table s = true.
Proof.
  intros Hin. split; [|now apply (named_in _ _ keys)].
  pose proof table_proper as Hp. rewrite Forall_forall in Hp.
  apply (Hp (s, keys) Hin).
Qed.

Lemma table_options c' s keys k dv :
  In (s, keys) table -> In (k, dv) keys ->
  has_section c' s = true ->
  stored c' s k <> None ->
  has_option c' s k = true.
Proof.
  intros Hin Hk Hsec Hst. destruct (table_in _ _ Hin) as [Hs _].
  rewrite (has_option_stored _ _ _ _ Hs), Hsec.
  now destruct (stored c' s k).
Qed.

Lemma default_of_table s keys k dv :
  names_kept optionxform default_save_dir default_backup_dir ->
  In (s, keys) table -> In (k, dv) keys ->
  default_of optionxform table s k = Some dv.
Proof.
  intros Hnames Hin Hk.
  assert (H1 := Hnames "Paths" _ "save_dir" _
                  (or_introl eq_refl) (or_introl eq_refl)).
  assert (H2 := Hnames "Paths" _ "backup_dir" _
                  (or_introl eq_refl) (or_intror (or_introl eq_refl))).
  assert (H3 := Hnames "Backup" _ "game_name" _
                  (or_intror (or_introl eq_refl)) (or_introl eq_refl)).
  assert (H4 := Hnames "Backup" _ "max_backups" _
                  (or_intror (or_introl eq_refl))
                  (or_intror (or_introl eq_refl))).
  assert (H5 := Hnames "Backup" _ "backup_interval" _
                  (or_intror (or_introl eq_refl))
                  (or_intror (or_intror (or_introl eq_refl)))).
  assert (H6 := Hnames "Advanced" _ "log_level" _
                  (or_intror (or_intror (or_introl eq_refl)))
                  (or_introl eq_refl)).
  assert (H7 := Hnames "Advanced" _ "compress_level" _
                  (or_intror (or_intror (or_introl eq_refl)))
                  (or_intror (or_introl eq_refl))).
  clear Hnames.
  destruct Hin as [[= <- <-]|[[= <- <-]|[[= <- <-]|[]]]];
    cbn in Hk;
    repeat (destruct Hk as [[= <- <-]|Hk]);
    try contradiction;
    unfold default_settings;
    cbn [Config.default_of]; unfold Config.key_default;
    cbn [find fst snd];
    rewrite ?H1, ?H2, ?H3, ?H4, ?H5, ?H6, ?H7; reflexivity.
Qed.

Lemma paths_names_apart :
  names_kept optionxform default_save_dir default_backup_dir ->
  NoDup (map (fun kd : string * string => optionxform (fst kd))
           [("save_dir", default_save_dir);
            ("backup_dir", default_backup_dir)]).
Proof.
  intros Hnames.
  assert (H1 := Hnames "Paths" _ "save_dir" _
                  (or_introl eq_refl) (or_introl eq_refl)).
  assert (H2 := Hnames "Paths" _ "backup_dir" _
                  (or_introl eq_refl) (or_intror (or_introl eq_refl))).
  cbn. rewrite H1, H2. repeat constructor.
  - intros [H|[]]. discriminate.
  - intros [].
Qed.

Lemma rest_accepted s keys k dv :
  In (s, keys)
    [ ("Backup",
       [ ("game_name", "TheLongDark_2.02");
         ("max_backups", "50");
         ("backup_interval", "20") ]);
      ("Advanced",
       [ ("log_level", "INFO");
         ("compress_level", "6") ]) ] ->
  In (k, dv) keys -> accepted dv = true.
Proof.
  intros [[= <- <-]|[[= <- <-]|[]]] Hk; cbn in Hk;
    repeat (destruct Hk as [[= <- <-]|Hk]); try contradiction; reflexivity.
Qed.

(** The loop in two parts: the section of the folders, then the rest,
    which never raises. *)
Lemma check_settings_paths c :
  exists c0,
    has_section c0 "Paths" = true /\
    (forall k, stored c0 "Paths" k = stored c "Paths" k) /\
    match Config.fill_keys optionxform c0 "Paths"
            [("save_dir", default_save_dir);
             ("backup_dir", default_backup_dir)] with
    | Ok c1 => exists c', check_settings c = Ok c'
    | Error e => check_settings c = Error e
    end.
Proof.
  unfold Config.check_settings, default_settings.
  rewrite fill_sections_cons.
  destruct (ensure_section optionxform c "Paths" eq_refl)
    as (c0 & -> & Hsec0 & _ & Hst0 & _).
  exists c0. split; [exact Hsec0|]. split; [intros k; apply Hst0|].
  cbn [and_then].
  destruct (Config.fill_keys optionxform c0 "Paths" _) as [c1|e];
    [|reflexivity].
  cbn [and_then]. apply fill_sections_returns.
  - repeat constructor.
  - apply rest_accepted.
Qed.

End ConfigTable.

Section ConfigLoad.
Import Config.
Local Open Scope list_scope.
Local Open Scope string_scope.

Variable optionxform : string -> string.
Variables default_save_dir default_backup_dir : string.
Variable expand_path : string -> string.
Variable int : string -> option Z.
Variable write_ok : bool.

Local Abbreviation load_settings :=
  (Config.load_settings optionxform default_save_dir default_backup_dir
     expand_path int write_ok).
Local Abbreviation check_settings :=
  (Config.check_settings optionxform default_save_dir default_backup_dir).
Local Abbreviation get := (Config.get optionxform).

(** What a run of [load_settings] that returns went through. *)
Lemma load_settings_inv c st :
  load_settings c = Ok st ->
  exists c',
    check_settings c = Ok c' /\ write_ok = true /\
    (exists v, get c' "Paths" "save_dir" false = Ok v /\
               SAVE_DIR st = expand_path (strip quotes_and_space v)) /\
    (exists v, get c' "Paths" "backup_dir" false = Ok v /\
               BACKUP_DIR st = expand_path (strip quotes_and_space v)) /\
    (exists v, get c' "Backup" "game_name" false = Ok v /\
               GAME_NAME st = v) /\
    (exists v, get c' "Backup" "max_backups" false = Ok v /\
               int v = Some (MAX_BACKUPS st)) /\
    (exists v, get c' "Backup" "backup_interval" false = Ok v /\
               int v = Some (BACKUP_INTERVAL st)) /\
    (exists v, get c' "Advanced" "log_level" false = Ok v /\
               LOG_LEVEL st = v) /\
    (exists v, get c' "Advanced" "compress_level" false = Ok v /\
               int v = Some (COMPRESS_LEVEL st)).
Proof.
  unfold Config.load_settings, getint.
  destruct (check_settings c) as [c'|]; [|discriminate]. cbn [and_then].
  destruct write_ok; [|discriminate]. cbn [and_then].
  destruct (get c' "Paths" "save_dir" false) as [v1|] eqn:G1;
    [|discriminate].
  cbn [and_then].
  destruct (get c' "Paths" "backup_dir" false) as [v2|] eqn:G2;
    [|discriminate].
  cbn [and_then].
  destruct (get c' "Backup" "game_name" false) as [v3|] eqn:G3;
    [|discriminate].
  cbn [and_then].
  destruct (get c' "Backup" "max_backups" false) as [v4|] eqn:G4;
    [|discriminate].
  cbn [and_then]. destruct (int v4) as [n4|] eqn:E4; [|discriminate].
  cbn [and_then].
  destruct (get c' "Backup" "backup_interval" false) as [v5|] eqn:G5;
    [|discriminate].
  cbn [and_then]. destruct (int v5) as [n5|] eqn:E5; [|discriminate].
  cbn [and_then].
  destruct (get c' "Advanced" "log_level" false) as [v6|] eqn:G6;
    [|discriminate].
  cbn [and_then].
  destruct (get c' "Advanced" "compress_level" false) as [v7|] eqn:G7;
    [|discriminate].
  cbn [and_then]. destruct (int v7) as [n7|] eqn:E7; [|discriminate].
  cbn [and_then]. intros [= <-]. cbn.
  exists c'. split; [reflexivity|]. split; [reflexivity|].
  do 6 (split;
        [eexists; split;
         [eassumption|first [reflexivity|eassumption]]|]).
  eexists. split; eassumption.
Qed.

(** Every option of the table is read on the way. *)
Lemma load_settings_reads c st s keys k dv :
  load_settings c = Ok st ->
  In (s, keys) (default_settings default_save_dir default_backup_dir) ->
  In (k, dv) keys ->
  exists c' v, check_settings c = Ok c' /\ get c' s k false = Ok v.
Proof.
  intros Hrun Hin Hk.
  destruct (load_settings_inv _ _ Hrun)
    as (c' & Hc & _ & (v1 & H1 & _) & (v2 & H2 & _) & (v3 & H3 & _)
        & (v4 & H4 & _) & (v5 & H5 & _) & (v6 & H6 & _) & (v7 & H7 & _)).
  exists c'.
  destruct Hin as [[= <- <-]|[[= <- <-]|[[= <- <-]|[]]]];
    cbn in Hk;
    repeat (destruct Hk as [[= <- <-]|Hk]);
    try contradiction; eauto.
Qed.

End ConfigLoad.

Lemma lower_keeps_names (default_save_dir default_backup_dir : string) :
  Config.names_kept Config.lower default_save_dir default_backup_dir.
Proof.
  intros s keys k dv Hin Hk.
  destruct Hin as [[= <- <-]|[[= <- <-]|[[= <- <-]|[]]]];
    cbn in Hk;
    repeat (destruct Hk as [[= <- <-]|Hk]);
    try contradiction; reflexivity.
Qed.

Section ConfigChecked.
Import Config.
Local Open Scope list_scope.
Local Open Scope string_scope.

Variable optionxform : string -> string.
Variables default_save_dir default_backup_dir : string.

Local Abbreviation check_settings :=
  (Config.check_settings optionxform default_save_dir default_backup_dir).
Local Abbreviation stored := (Config.stored optionxform).
Local Abbreviation get := (Config.get optionxform).

Hypothesis Hnames :
  names_kept optionxform default_save_dir default_backup_dir.

(** What the lookups find after the check, for an option of the
    table. *)
Lemma check_settings_text c c' s keys k dv :
  check_settings c = Ok c' ->
  In (s, keys) (default_settings default_save_dir default_backup_dir) ->
  In (k, dv) keys ->
  has_section c' s = true /\
  stored c' s k = Some (text_of optionxform c s k dv).
Proof.
  intros Hrun Hin Hk.
  destruct (check_settings_spec _ _ _ _ _ Hrun) as [Hsec Hst].
  destruct (table_in _ _ _ _ Hin) as [Hs Hnamed]. split.
  - now rewrite Hsec, Hnamed.
  - rewrite Hst. unfold text_of.
    destruct (stored c s k); [reflexivity|].
    now apply (default_of_table _ _ _ _ keys).
Qed.

(** A plain text is read back as it stands. *)
Lemma check_settings_reads c c' s keys k dv :
  check_settings c = Ok c' ->
  In (s, keys) (default_settings default_save_dir default_backup_dir) ->
  In (k, dv) keys ->
  has_percent (text_of optionxform c s k dv) = false ->
  get c' s k false = Ok (text_of optionxform c s k dv).
Proof.
  intros Hrun Hin Hk Hplain.
  destruct (check_settings_text _ _ _ _ _ _ Hrun Hin Hk) as [Hsec Hst].
  apply get_plain; [|exact Hplain].
  apply get_raw_stored. split; [exact Hst|now left].
Qed.

(** When the check raises. *)
Lemma check_settings_error c e :
  check_settings c = Error e ->
  e = ValueError /\
  ((stored c "Paths" "save_dir" = None /\
    accepted default_save_dir = false) \/
   (stored c "Paths" "backup_dir" = None /\
    accepted default_backup_dir = false)).
Proof.
  intros He.
  destruct (check_settings_paths optionxform default_save_dir
              default_backup_dir c) as (c0 & Hsec0 & Hst0 & Hrun).
  destruct (Config.fill_keys optionxform c0 "Paths" _) as [c1|e0] eqn:Ek.
  - destruct Hrun as [c' Hrun]. rewrite Hrun in He. discriminate.
  - destruct (fill_keys_raises optionxform _ c0 "Paths" e0 eq_refl Hsec0 Ek)
      as (He0 & k & dv & Hin & Hst & Hacc).
    subst e0. rewrite Hrun in He. injection He as <-.
    split; [reflexivity|]. rewrite Hst0 in Hst.
    destruct Hin as [[= <- <-]|[[= <- <-]|[]]]; [left|right]; auto.
Qed.

Lemma check_settings_stops c k dv :
  In (k, dv) [("save_dir", default_save_dir);
              ("backup_dir", default_backup_dir)] ->
  stored c "Paths" k = None -> accepted dv = false ->
  check_settings c = Error ValueError.
Proof.
  intros Hin Hst Hacc.
  destruct (check_settings_paths optionxform default_save_dir
              default_backup_dir c) as (c0 & Hsec0 & Hst0 & Hrun).
  rewrite (fill_keys_stops optionxform _ c0 "Paths" k dv eq_refl Hsec0
             (paths_names_apart _ _ _ Hnames) Hin) in Hrun;
    [exact Hrun|now rewrite Hst0|exact Hacc].
Qed.

End ConfigChecked.

(* ================================================================== *)
(** * Further properties of the settings *)

(** X13.  The check of lines 113-118 changes nothing the file gives:
    whatever [config.get] returned for a section and an option before
    the loop, raw or interpolated, it returns after it.  The loop only
    adds. *)
Theorem settings_check_keeps_what_the_file_gives
    (optionxform : string -> string)
    (default_save_dir default_backup_dir : string)
    (config config' : Config.ConfigParser)
    (section opt : string) (raw : bool) (value : string) :
  Config.check_settings optionxform default_save_dir default_backup_dir
    config = Config.Ok config' ->
  Config.get optionxform config section opt raw = Config.Ok value ->
  Config.get optionxform config' section opt raw = Config.Ok value.
Proof.
  intros Hrun.
  destruct (check_settings_grows _ _ _ _ _ Hrun) as [Hsec Hst].
  now apply get_mono.
Qed.

(** X13 for the cap of a file that sets it to 3. *)
Lemma settings_check_keeps_what_the_file_gives_witness :
  Config.get Config.lower (Config.filled Config.partial_file)
    "Backup" "max_backups" false = Config.Ok "3".
Proof.
  exact (settings_check_keeps_what_the_file_gives Config.lower
           Config.home_save_dir Config.home_backup_dir
           Config.partial_file (Config.filled Config.partial_file)
           "Backup" "max_backups" false "3" eq_refl eq_refl).
Defined.

(** X14.  After the check every section of the table is there and every
    option of the table can be read, and reads raw as what the file gave
    it or else as its default.  An option the file gives in [DEFAULT]
    counts as given for every section. *)
Theorem settings_check_fills_in_the_defaults
    (optionxform : string -> string)
    (default_save_dir default_backup_dir : string)
    (config config' : Config.ConfigParser)
    (section : string) (keys : Config.dict string)
    (opt default_value : string) :
  Config.names_kept optionxform default_save_dir default_backup_dir ->
  Config.check_settings optionxform default_save_dir default_backup_dir
    config = Config.Ok config' ->
  In (section, keys)
    (Config.default_settings default_save_dir default_backup_dir) ->
  In (opt, default_value) keys ->
  Config.has_section config' section = true /\
  Config.has_option optionxform config' section opt = true /\
  Config.get optionxform config' section opt true
  = Config.Ok (Config.text_of optionxform config section opt default_value).
Proof.
  intros Hnames Hrun Hin Hk.
  destruct (check_settings_text _ _ _ Hnames _ _ _ _ _ _ Hrun Hin Hk)
    as [Hsec Hst].
  split; [exact Hsec|]. split.
  - apply (table_options _ _ _ _ _ keys _ default_value Hin Hk Hsec).
    now rewrite Hst.
  - apply get_raw_stored. split; [exact Hst|now left].
Qed.

(** X14 for the interval of a file that gives it in [DEFAULT] only. *)
Lemma settings_check_fills_in_the_defaults_witness :
  Config.has_section (Config.filled Config.partial_file) "Backup" = true /\
  Config.has_option Config.lower (Config.filled Config.partial_file)
    "Backup" "backup_interval" = true /\
  Config.get Config.lower (Config.filled Config.partial_file)
    "Backup" "backup_interval" true = Config.Ok "5".
Proof.
  exact (settings_check_fills_in_the_defaults Config.lower
           Config.home_save_dir Config.home_backup_dir
           Config.partial_file (Config.filled Config.partial_file)
           "Backup" _ "backup_interval" "20"
           (lower_keeps_names _ _) eq_refl
           (or_intror (or_introl eq_refl))
           (or_intror (or_intror (or_introl eq_refl)))).
Defined.

(** X15.  The check is idempotent: run on its own result it adds
    nothing and returns the config it was given. *)
Theorem settings_check_twice_is_once
    (optionxform : string -> string)
    (default_save_dir default_backup_dir : string)
    (config config' : Config.ConfigParser) :
  Config.check_settings optionxform default_save_dir default_backup_dir
    config = Config.Ok config' ->
  Config.check_settings optionxform default_save_dir default_backup_dir
    config' = Config.Ok config'.
Proof.
  intros Hrun.
  destruct (check_settings_spec _ _ _ _ _ Hrun) as [Hsec Hst].
  apply fill_sections_fixed. intros s keys Hin.
  destruct (table_in _ _ _ _ Hin) as [Hs Hnamed].
  assert (Hsec' : Config.has_section config' s = true).
  { now rewrite Hsec, Hnamed. }
  split; [exact Hsec'|]. intros k dv Hk.
  apply (table_options _ _ _ _ _ keys _ dv Hin Hk Hsec').
  rewrite Hst. destruct (Config.stored optionxform config s k);
    [discriminate|].
  now apply (default_of_found _ _ _ keys _ dv).
Qed.

(** X15 for a file with no section. *)
Lemma settings_check_twice_is_once_witness :
  Config.check_settings Config.lower Config.home_save_dir
    Config.home_backup_dir (Config.filled Config.empty_file)
  = Config.Ok (Config.filled Config.empty_file).
Proof.
  exact (settings_check_twice_is_once Config.lower
           Config.home_save_dir Config.home_backup_dir
           Config.empty_file (Config.filled Config.empty_file) eq_refl).
Defined.

(** X16.  The check raises in one case only: a folder option that the
    file does not give and whose default [config.set] refuses, which is
    a default folder with a ["%"] that is neither doubled nor the start
    of a reference.  The exception is then [ValueError], and nothing in
    [load_settings] or [main] catches it. *)
Theorem settings_check_raises_on_percent_in_a_default_folder
    (optionxform : string -> string)
    (default_save_dir default_backup_dir : string)
    (config : Config.ConfigParser) :
  Config.names_kept optionxform default_save_dir default_backup_dir ->
  (forall e,
     Config.check_settings optionxform default_save_dir default_backup_dir
       config = Config.Error e ->
     e = Config.ValueError) /\
  ((exists e,
      Config.check_settings optionxform default_save_dir default_backup_dir
        config = Config.Error e) <->
   (Config.stored optionxform config "Paths" "save_dir" = None /\
    Config.accepted default_save_dir = false) \/
   (Config.stored optionxform config "Paths" "backup_dir" = None /\
    Config.accepted default_backup_dir = false)).
Proof.
  intros Hnames. split; [|split].
  - intros e He. apply (check_settings_error _ _ _ _ _ He).
  - intros [e He]. apply (check_settings_error _ _ _ _ _ He).
  - intros [[Hst Hacc]|[Hst Hacc]]; exists Config.ValueError.
    + apply (check_settings_stops _ _ _ Hnames _ "save_dir"
               default_save_dir (or_introl eq_refl) Hst Hacc).
    + apply (check_settings_stops _ _ _ Hnames _ "backup_dir"
               default_backup_dir (or_intror (or_introl eq_refl)) Hst Hacc).
Qed.

(** X16 for a home folder with a ["%"] in its name. *)
Lemma settings_check_raises_on_percent_in_a_default_folder_witness :
  exists e,
    Config.check_settings Config.lower "/home/100%/.local/share/Hinterland"
      "/home/100%/TLD_Backups" Config.empty_file = Config.Error e.
Proof.
  apply (proj2 (settings_check_raises_on_percent_in_a_default_folder
                  Config.lower "/home/100%/.local/share/Hinterland"
                  "/home/100%/TLD_Backups" Config.empty_file
                  (lower_keeps_names _ _))).
  left. split; reflexivity.
Defined.

(** X17.  An option of the table whose value in the file has a ["%"]
    followed by neither ["%"] nor ["("] keeps [load_settings] from
    returning: the interpolating [config.get] raises on it.  The
    [%USERPROFILE%\Documents\TLD_Backups] that [show_help] gives as an
    example of a folder is such a value. *)
Theorem bare_percent_in_an_option_stops_the_load
    (optionxform : string -> string)
    (default_save_dir default_backup_dir : string)
    (expand_path : string -> string) (int : string -> option Z)
    (write_ok : bool)
    (config : Config.ConfigParser)
    (section : string) (keys : Config.dict string)
    (opt default_value value : string) :
  In (section, keys)
    (Config.default_settings default_save_dir default_backup_dir) ->
  In (opt, default_value) keys ->
  Config.get optionxform config section opt true = Config.Ok value ->
  Config.bare_percent value = true ->
  exists e,
    Config.load_settings optionxform default_save_dir default_backup_dir
      expand_path int write_ok config = Config.Error e.
Proof.
  intros Hin Hk Hget Hbare.
  destruct (Config.load_settings _ _ _ _ _ _ config) as [st|e] eqn:Hrun;
    [exfalso|now exists e].
  destruct (load_settings_reads _ _ _ _ _ _ _ _ _ _ _ _ Hrun Hin Hk)
    as (c' & v & Hc & Hv).
  destruct (check_settings_grows _ _ _ _ _ Hc) as [Hsec Hst].
  pose proof (get_mono _ _ _ Hsec Hst _ _ _ _ Hget) as Hraw.
  rewrite (get_bare_percent _ _ _ _ _ Hraw Hbare) in Hv. discriminate.
Qed.

(** X17 for the backup folder [show_help] gives as an example. *)
Lemma bare_percent_in_an_option_stops_the_load_witness :
  exists e,
    Config.load_settings Config.lower Config.home_save_dir
      Config.home_backup_dir Config.as_written Config.int_of_digits true
      Config.userprofile_file = Config.Error e.
Proof.
  exact (bare_percent_in_an_option_stops_the_load Config.lower
           Config.home_save_dir Config.home_backup_dir
           Config.as_written Config.int_of_digits true
           Config.userprofile_file "Paths" _ "backup_dir" _
           "%USERPROFILE%\Documents\TLD_Backups"
           (or_introl eq_refl) (or_intror (or_introl eq_refl))
           eq_refl eq_refl).
Defined.

(** X18.  When [load_settings] returns, each setting whose text, the
    file's or else the default, has no ["%"] is that text as written:
    stripped of quotes and spaces and expanded for the two folders,
    converted by [int] for the three numbers, unchanged for the two
    names. *)
Theorem plain_options_load_as_written
    (optionxform : string -> string)
    (default_save_dir default_backup_dir : string)
    (expand_path : string -> string) (int : string -> option Z)
    (write_ok : bool)
    (config : Config.ConfigParser) (st : Config.settings_dict) :
  Config.names_kept optionxform default_save_dir default_backup_dir ->
  Config.load_settings optionxform default_save_dir default_backup_dir
    expand_path int write_ok config = Config.Ok st ->
  let text := Config.text_of optionxform config in
  (Config.has_percent (text "Paths" "save_dir" default_save_dir) = false ->
   Config.SAVE_DIR st
   = expand_path (Config.strip Config.quotes_and_space
                    (text "Paths" "save_dir" default_save_dir))) /\
  (Config.has_percent (text "Paths" "backup_dir" default_backup_dir) = false ->
   Config.BACKUP_DIR st
   = expand_path (Config.strip Config.quotes_and_space
                    (text "Paths" "backup_dir" default_backup_dir))) /\
  (Config.has_percent (text "Backup" "game_name" "TheLongDark_2.02") = false ->
   Config.GAME_NAME st = text "Backup" "game_name" "TheLongDark_2.02") /\
  (Config.has_percent (text "Backup" "max_backups" "50") = false ->
   int (text "Backup" "max_backups" "50")
   = Some (Config.MAX_BACKUPS st)) /\
  (Config.has_percent (text "Backup" "backup_interval" "20") = false ->
   int (text "Backup" "backup_interval" "20")
   = Some (Config.BACKUP_INTERVAL st)) /\
  (Config.has_percent (text "Advanced" "log_level" "INFO") = false ->
   Config.LOG_LEVEL st = text "Advanced" "log_level" "INFO") /\
  (Config.has_percent (text "Advanced" "compress_level" "6") = false ->
   int (text "Advanced" "compress_level" "6")
   = Some (Config.COMPRESS_LEVEL st)).
Proof.
  intros Hnames Hrun text.
  destruct (load_settings_inv _ _ _ _ _ _ _ _ Hrun)
    as (c' & Hc & _ & (v1 & H1 & F1) & (v2 & H2 & F2) & (v3 & H3 & F3)
        & (v4 & H4 & F4) & (v5 & H5 & F5) & (v6 & H6 & F6)
        & (v7 & H7 & F7)).
  assert (Hread : forall s keys k dv v,
            In (s, keys)
              (Config.default_settings default_save_dir default_backup_dir) ->
            In (k, dv) keys ->
            Config.get optionxform c' s k false = Config.Ok v ->
            Config.has_percent (text s k dv) = false ->
            v = text s k dv).
  { intros s keys k dv v Hin Hk Hv Hplain.
    rewrite (check_settings_reads _ _ _ Hnames _ _ _ _ _ _ Hc Hin Hk Hplain)
      in Hv.
    now injection Hv. }
  repeat split; intros Hplain.
  - rewrite F1. f_equal. f_equal.
    apply (Hread "Paths" _ "save_dir" _ _ (or_introl eq_refl)
             (or_introl eq_refl) H1 Hplain).
  - rewrite F2. f_equal. f_equal.
    apply (Hread "Paths" _ "backup_dir" _ _ (or_introl eq_refl)
             (or_intror (or_introl eq_refl)) H2 Hplain).
  - rewrite F3.
    apply (Hread "Backup" _ "game_name" _ _ (or_intror (or_introl eq_refl))
             (or_introl eq_refl) H3 Hplain).
  - rewrite <- F4. f_equal. symmetry.
    apply (Hread "Backup" _ "max_backups" _ _
             (or_intror (or_introl eq_refl))
             (or_intror (or_introl eq_refl)) H4 Hplain).
  - rewrite <- F5. f_equal. symmetry.
    apply (Hread "Backup" _ "backup_interval" _ _
             (or_intror (or_introl eq_refl))
             (or_intror (or_intror (or_introl eq_refl))) H5 Hplain).
  - rewrite F6.
    apply (Hread "Advanced" _ "log_level" _ _
             (or_intror (or_intror (or_introl eq_refl)))
             (or_introl eq_refl) H6 Hplain).
  - rewrite <- F7. f_equal. symmetry.
    apply (Hread "Advanced" _ "compress_level" _ _
             (or_intror (or_intror (or_introl eq_refl)))
             (or_intror (or_introl eq_refl)) H7 Hplain).
Qed.

(** X18 for the cap of a file that sets it to 3. *)
Lemma plain_options_load_as_written_witness :
  Config.int_of_digits
    (Config.text_of Config.lower Config.partial_file
       "Backup" "max_backups" "50")
  = Some 3%Z.
Proof.
  exact (proj1 (proj2 (proj2 (proj2
           (plain_options_load_as_written Config.lower
              Config.home_save_dir Config.home_backup_dir
              Config.as_written Config.int_of_digits true
              Config.partial_file Config.partial_settings
              (lower_keeps_names _ _) eq_refl)))) eq_refl).
Defined.

(** X19.  [load_settings] does return when the settings file can be
    written back, no text it reads, the file's or else the default, has
    a ["%"], and [int] converts the three numbers; the settings are
    then these texts as written. *)
Theorem plain_settings_load
    (optionxform : string -> string)
    (default_save_dir default_backup_dir : string)
    (expand_path : string -> string) (int : string -> option Z)
    (config : Config.ConfigParser)
    (max_backups backup_interval compress_level : Z) :
  let text := Config.text_of optionxform config in
  Config.names_kept optionxform default_save_dir default_backup_dir ->
  Config.has_percent (text "Paths" "save_dir" default_save_dir) = false ->
  Config.has_percent (text "Paths" "backup_dir" default_backup_dir) = false ->
  Config.has_percent (text "Backup" "game_name" "TheLongDark_2.02") = false ->
  Config.has_percent (text "Backup" "max_backups" "50") = false ->
  Config.has_percent (text "Backup" "backup_interval" "20") = false ->
  Config.has_percent (text "Advanced" "log_level" "INFO") = false ->
  Config.has_percent (text "Advanced" "compress_level" "6") = false ->
  int (text "Backup" "max_backups" "50") = Some max_backups ->
  int (text "Backup" "backup_interval" "20") = Some backup_interval ->
  int (text "Advanced" "compress_level" "6") = Some compress_level ->
  Config.load_settings optionxform default_save_dir default_backup_dir
    expand_path int true config
  = Config.Ok
      {| Config.SAVE_DIR :=
           expand_path (Config.strip Config.quotes_and_space
                          (text "Paths" "save_dir" default_save_dir));
         Config.BACKUP_DIR :=
           expand_path (Config.strip Config.quotes_and_space
                          (text "Paths" "backup_dir" default_backup_dir));
         Config.GAME_NAME := text "Backup" "game_name" "TheLongDark_2.02";
         Config.MAX_BACKUPS := max_backups;
         Config.BACKUP_INTERVAL := backup_interval;
         Config.LOG_LEVEL := text "Advanced" "log_level" "INFO";
         Config.COMPRESS_LEVEL := compress_level |}.
Proof.
  intros text Hnames P1 P2 P3 P4 P5 P6 P7 I4 I5 I7. subst text.
  unfold Config.load_settings.
  destruct (Config.check_settings optionxform default_save_dir
              default_backup_dir config) as [c'|e] eqn:Hc.
  - pose proof (fun s keys k dv =>
                  check_settings_reads _ _ _ Hnames _ _ s keys k dv Hc)
      as Hread.
    cbn [Config.and_then]. unfold Config.getint.
    rewrite (Hread "Paths" _ "save_dir" _ (or_introl eq_refl)
               (or_introl eq_refl) P1).
    rewrite (Hread "Paths" _ "backup_dir" _ (or_introl eq_refl)
               (or_intror (or_introl eq_refl)) P2).
    rewrite (Hread "Backup" _ "game_name" _
               (or_intror (or_introl eq_refl)) (or_introl eq_refl) P3).
    rewrite (Hread "Backup" _ "max_backups" _
               (or_intror (or_introl eq_refl))
               (or_intror (or_introl eq_refl)) P4).
    rewrite (Hread "Backup" _ "backup_interval" _
               (or_intror (or_introl eq_refl))
               (or_intror (or_intror (or_introl eq_refl))) P5).
    rewrite (Hread "Advanced" _ "log_level" _
               (or_intror (or_intror (or_introl eq_refl)))
               (or_introl eq_refl) P6).
    rewrite (Hread "Advanced" _ "compress_level" _
               (or_intror (or_intror (or_introl eq_refl)))
               (or_intror (or_introl eq_refl)) P7).
    cbn [Config.and_then]. rewrite I4, I5, I7. reflexivity.
  - exfalso.
    destruct (check_settings_error _ _ _ _ _ Hc)
      as [_ [[Hst Hacc]|[Hst Hacc]]].
    + unfold Config.text_of in P1. rewrite Hst in P1.
      rewrite (accepted_plain _ P1) in Hacc. discriminate.
    + unfold Config.text_of in P2. rewrite Hst in P2.
      rewrite (accepted_plain _ P2) in Hacc. discriminate.
Qed.

(** X19 for a file that sets the cap and the game, and the interval in
    [DEFAULT]. *)
Lemma plain_settings_load_witness :
  Config.load_settings Config.lower Config.home_save_dir
    Config.home_backup_dir Config.as_written Config.int_of_digits true
    Config.partial_file
  = Config.Ok Config.partial_settings.
Proof.
  exact (plain_settings_load Config.lower
           Config.home_save_dir Config.home_backup_dir
           Config.as_written Config.int_of_digits Config.partial_file
           3%Z 5%Z 6%Z (lower_keeps_names _ _)
           eq_refl eq_refl eq_refl eq_refl eq_refl eq_refl eq_refl
           eq_refl eq_refl eq_refl).
Defined.
